(** * Liquidity-mining and funding-rate-arbitrage strategies: a shallow embedding

    The development embeds the decision logic of
    [hummingbot/strategy/liquidity_mining/liquidity_mining.py],
    [hummingbot/data_feed/miner_market/miner_market_band.py] and
    [scripts/v2_funding_rate_arb.py] and proves properties of it.

    Conventions.
    - A finite [Decimal] (and a float timestamp) is an exact rational [Q]; the
      rounding of the decimal context is not represented.  The sentinel
      [Decimal("NaN")] only occurs as a volatility and has its own constructor.
    - A Python exception is a value [Raise e] of the type [result]; a division
      of decimals by zero raises, as it does under the default decimal context.
    - A dict whose iteration order matters is an association list in insertion
      order; a dict that is only read and updated by key is a [gmap]. *)

From Stdlib Require Import Ascii String QArith Qabs Lqa ZArith Lia.
From stdpp Require Import gmap strings list.

Local Open Scope Z_scope.

(** ** Python preliminaries *)

Module Py.

Inductive exn : Type :=
| DivisionByZero      (* decimal.DivisionByZero: x / 0 with x <> 0 *)
| InvalidOperation    (* decimal.InvalidOperation: 0 / 0 *)
| KeyError
| TypeError
| ValueError
| AttributeError.

Inductive result (A : Type) : Type :=
| Ok (a : A)
| Raise (e : exn).
Arguments Ok {A} a.
Arguments Raise {A} e.

#[export] Instance result_ret : MRet result := fun A a => Ok a.
#[export] Instance result_bind : MBind result :=
  fun A B f m => match m with Ok a => f a | Raise e => Raise e end.

(** [for x in xs: f x], collecting the values, stopping at the first raise. *)
Fixpoint traverse {A B} (f : A -> result B) (xs : list A) : result (list B) :=
  match xs with
  | [] => Ok []
  | x :: xs' => y ← f x; ys ← traverse f xs'; Ok (y :: ys)
  end.

(** The binding of the positional arguments of a call to the parameters of
    a function, none of which has a default: an argument too few or too many
    raises [TypeError]. *)
Fixpoint bind_positional {A} (parameters : list string) (arguments : list A)
  : result (list (string * A)) :=
  match parameters, arguments with
  | [], [] => Ok []
  | p :: parameters', a :: arguments' =>
      bound ← bind_positional parameters' arguments'; Ok ((p, a) :: bound)
  | _, _ => Raise TypeError
  end.

(** Index normalisation of a slice bound against a sequence of length [len]:
    a negative bound counts from the end, and every bound is clamped. *)
Definition slice_bound (len i : Z) : Z :=
  if i <? 0 then Z.max (i + len) 0 else Z.min i len.

(** [l[start:stop]] *)
Definition slice {A} (l : list A) (start stop : Z) : list A :=
  let len := Z.of_nat (length l) in
  let s := slice_bound len start in
  let e := slice_bound len stop in
  firstn (Z.to_nat (e - s)) (skipn (Z.to_nat s) l).

(** [l[start:]] *)
Definition slice_from {A} (l : list A) (start : Z) : list A :=
  slice l start (Z.of_nat (length l)).

(** [range(start, stop, step)] *)
Definition range (start stop step : Z) : result (list Z) :=
  if step =? 0 then Raise ValueError
  else
    let n := if 0 <? step then (stop - start + step - 1) / step
             else (start - stop - step - 1) / (- step) in
    Ok (map (fun k : nat => start + Z.of_nat k * step) (seq 0 (Z.to_nat n))).

Definition Qlt_bool (a b : Q) : bool := negb (Qle_bool b a).

(** [max(p :: ps)] and [min(p :: ps)]: the first extremal element. *)
Definition max (p : Q) (ps : list Q) : Q :=
  fold_left (fun m x => if Qlt_bool m x then x else m) ps p.
Definition min (p : Q) (ps : list Q) : Q :=
  fold_left (fun m x => if Qlt_bool x m then x else m) ps p.

(** Division of two finite decimals. *)
Definition div (x y : Q) : result Q :=
  if Qeq_bool y 0 then
    if Qeq_bool x 0 then Raise InvalidOperation else Raise DivisionByZero
  else Ok (x / y)%Q.

Definition sum (l : list Q) : Q := fold_left Qplus l 0%Q.

(** [statistics.mean] of a non-empty list. *)
Definition mean (l : list Q) : Q := (sum l / inject_Z (Z.of_nat (length l)))%Q.

(** [str.lower] and [str.upper] on ASCII letters. *)
Definition lower_ascii (c : ascii) : ascii :=
  let n := nat_of_ascii c in
  if ((65 <=? n) && (n <=? 90))%nat then ascii_of_nat (n + 32) else c.
Definition upper_ascii (c : ascii) : ascii :=
  let n := nat_of_ascii c in
  if ((97 <=? n) && (n <=? 122))%nat then ascii_of_nat (n - 32) else c.
Fixpoint map_string (f : ascii -> ascii) (s : string) : string :=
  match s with
  | EmptyString => EmptyString
  | String c s' => String (f c) (map_string f s')
  end.
Definition lower : string -> string := map_string lower_ascii.
Definition upper : string -> string := map_string upper_ascii.

End Py.
Import Py.

(** ** Shared data types ([core/data_type/common.py], [liquidity_mining/data_types.py]) *)

Inductive TradeType : Type := BUY | SELL | RANGE.

Definition TradeType_eqb (a b : TradeType) : bool :=
  match a, b with
  | BUY, BUY | SELL, SELL | RANGE, RANGE => true
  | _, _ => false
  end.

(** A decimal that may be the sentinel [Decimal("NaN")]. *)
Inductive Decimal : Type :=
| s_decimal_nan
| Dec (q : Q).

(** A market identifier [BASE-QUOTE] is kept split into its two tokens:
    [market.split("-")] is the pair itself ([base], [quote]). *)
Definition Market : Type := (string * string)%type.
Definition base (m : Market) : string := fst m.
Definition quote (m : Market) : string := snd m.
Definition trading_pair_name (m : Market) : string := base m +:+ "-" +:+ quote m.

Module PriceSize.
Record t : Type := { price : Q; size : Q }.
End PriceSize.

Record Proposal : Type := {
  market : Market;
  buy : PriceSize.t;
  sell : PriceSize.t
}.

Module LimitOrder.
Record t : Type := {
  trading_pair : Market;
  client_order_id : string;
  price : Q;
  quantity : Q;
  is_buy : bool
}.
End LimitOrder.

Inductive LogRecord : Type :=
| Warning (msg : string)
| Info (msg : string).

(** [d[k]] on a dict: a missing key raises. *)
Definition getitem `{Countable K} {V} (d : gmap K V) (k : K) : result V :=
  match d !! k with
  | Some v => Ok v
  | None => Raise KeyError
  end.

(** [for x in xs: s = f s x], stopping at the first raise. *)
Fixpoint foldM {S A} (f : S -> A -> result S) (xs : list A) (s : S) : result S :=
  match xs with
  | [] => Ok s
  | x :: xs' => s' ← f s x; foldM f xs' s'
  end.

(** ** Liquidity mining: the volatility estimator *)

Module Volatility.

(** The body of the [for i in range(...)] loop of [update_volatility]:
    [atr] is the list built so far, an empty slice leaves the loop. *)
Fixpoint atr_loop (mid_prices : list Q) (volatility_interval : Z)
         (indices : list Z) (atr : list Q) : result (list Q) :=
  match indices with
  | [] => Ok atr
  | i :: rest =>
      match slice mid_prices (i - volatility_interval + 1) (i + 1) with
      | [] => Ok atr
      | p :: ps =>
          r ← div (max p ps - min p ps)%Q (min p ps);
          atr_loop mid_prices volatility_interval rest (atr ++ [r])
      end
  end.

(** One iteration of [for market, mid_prices in self._mid_prices.items()]:
    the value left in [self._volatility[market]]. *)
Definition market_volatility (volatility_interval avg_volatility_period : Z)
           (mid_prices : list Q) : result Decimal :=
  let last_index := Z.of_nat (length mid_prices) - 1 in
  let first_index := last_index - volatility_interval * avg_volatility_period in
  let first_index := Z.max first_index 0 in
  indices ← range last_index first_index (volatility_interval * -1);
  atr ← atr_loop mid_prices volatility_interval indices [];
  match atr with
  | [] => Ok s_decimal_nan
  | _ => Ok (Dec (mean atr))
  end.

(** The end of an iteration: [if atr: self._volatility[market] = mean(atr)]. *)
Definition record_volatility (volatility_interval avg_volatility_period : Z)
           (volatility : gmap Market Decimal) (entry : Market * list Q)
  : result (gmap Market Decimal) :=
  let '(market, mid_prices) := entry in
  v ← market_volatility volatility_interval avg_volatility_period mid_prices;
  match v with
  | s_decimal_nan => Ok volatility
  | Dec _ => Ok (<[market := v]> volatility)
  end.

(** [update_volatility]: NaN for every active market, then the loop over
    [_mid_prices] in dict order. *)
Definition update_volatility (volatility_interval avg_volatility_period : Z)
           (markets : list Market) (mid_prices : list (Market * list Q))
  : result (gmap Market Decimal) :=
  foldM (record_volatility volatility_interval avg_volatility_period) mid_prices
        (list_to_map (map (fun m => (m, s_decimal_nan)) markets)).

(** *** The estimator in the words of the specification *)

(** The [j]-th window of length [w] counted backward from the newest sample. *)
Definition window (w : Z) (mid_prices : list Q) (j : nat) : list Q :=
  let n := Z.of_nat (length mid_prices) in
  firstn (Z.to_nat w) (skipn (Z.to_nat (n - (Z.of_nat j + 1) * w)) mid_prices).

(** [(max - min) / min] of a window. *)
Definition range_ratio (prices : list Q) : result Q :=
  match prices with
  | [] => Raise ValueError
  | p :: ps => div (max p ps - min p ps)%Q (min p ps)
  end.

(** The number of full windows taken into account. *)
Definition full_windows (w periods : Z) (mid_prices : list Q) : nat :=
  Z.to_nat (Z.min periods (Z.of_nat (length mid_prices) / w)).

Definition mean_range_ratio (w periods : Z) (mid_prices : list Q) : result Decimal :=
  ratios ← traverse (fun j => range_ratio (window w mid_prices j))
                    (seq 0 (full_windows w periods mid_prices));
  match ratios with
  | [] => Ok s_decimal_nan
  | _ => Ok (Dec (mean ratios))
  end.

End Volatility.

(** ** The market-band data feed ([miner_market_band.py]) *)

Module MinerMarketBandDataFeed.

Record SpreadData : Type := {
  spread_ask : Q;
  spread_bid : Q;
  timestamp : Z
}.

(** What the GET of the market-band URL comes back with: the session fails,
    or a response with its HTTP status, the [status] field of its JSON body
    and the rows of its [data] field. *)
Inductive Response : Type :=
| ClientError
| HttpResponse (status : Z) (api_status : string) (data : list SpreadData).

Definition miner_market : gmap string (gmap string Z) :=
  {[ "binance" := {[ "FIRO-USDT" := 59; "BIFI-USDT" := 304 ]} ]}.

(** [get_spread]: [None] without a market id, and on every exception of the
    fetch, which the [except Exception] clause turns into [None]. *)
Definition get_spread (http_get : Z -> Response) (connector trading_pair : string)
  : option SpreadData :=
  match default ∅ (miner_market !! lower connector) !! upper trading_pair with
  | None => None
  | Some miner_market_id =>
      match http_get miner_market_id with
      | ClientError => None
      | HttpResponse status api_status data =>
          if negb (status =? 200) then None
          else if negb (String.eqb api_status "success") then None
          else match data with
               | [] => None
               | first_data :: _ => Some first_data
               end
      end
  end.

(** The values handed to [get_spread]: an instance of the feed, or a string. *)
Inductive Argument : Type :=
| Feed
| Str (s : string).

(** A call [MinerMarketBandDataFeed.get_spread(...)] of the attribute of the
    class, run to completion: [get_spread] is then the plain function of the
    parameters [self], [connector] and [trading_pair], to which the positional
    arguments are bound in turn.  With a feed and two strings the coroutine
    is [get_spread]; any other value has not the attribute the first line of
    the body asks of it. *)
Definition call_get_spread (http_get : Z -> Response) (arguments : list Argument)
  : result (option SpreadData) :=
  bound ← bind_positional ["self"; "connector"; "trading_pair"] arguments;
  match map snd bound with
  | [Feed; Str connector; Str trading_pair] =>
      Ok (get_spread http_get connector trading_pair)
  | _ => Raise AttributeError
  end.

End MinerMarketBandDataFeed.

(** ** The liquidity-mining strategy ([liquidity_mining.py]) *)

Module LiquidityMining.
Import MinerMarketBandDataFeed.

(** The operations of the exchange connector the strategy consumes. *)
Record Exchange : Type := {
  name : string;
  quantize_order_price : Market -> Q -> Q;
  quantize_order_amount : Market -> Q -> Q;
  get_available_balance : string -> Q
}.

(** The parameters of [init_params]. *)
Record Config : Type := {
  token : string;
  order_amount : Q;
  spread : Q;
  dynamic_spread : bool;
  order_refresh_time : Q;
  order_refresh_tolerance_pct : Q;
  volatility_interval : Z;
  avg_volatility_period : Z;
  volatility_to_spread_multiplier : Q;
  max_spread : Q;
  max_order_age : Q
}.

(** The strategy instance.  [market_infos] pairs every active market with
    the mid price its [get_mid_price()] returns; [active_orders] are the
    limit orders of the order tracker. *)
Record State : Type := {
  market_infos : list (Market * Q);
  refresh_times : gmap Market Q;
  sell_budgets : gmap Market Q;
  buy_budgets : gmap Market Q;
  volatility : gmap Market Decimal;
  active_orders : list LimitOrder.t;
  current_timestamp : Q
}.

Definition set_budgets (st : State) (sells buys : gmap Market Q) : State :=
  {| market_infos := market_infos st;
     refresh_times := refresh_times st;
     sell_budgets := sells;
     buy_budgets := buys;
     volatility := volatility st;
     active_orders := active_orders st;
     current_timestamp := current_timestamp st |}.

Definition set_refresh_times (st : State) (times : gmap Market Q) : State :=
  {| market_infos := market_infos st;
     refresh_times := times;
     sell_budgets := sell_budgets st;
     buy_budgets := buy_budgets st;
     volatility := volatility st;
     active_orders := active_orders st;
     current_timestamp := current_timestamp st |}.

Section Strategy.
Variable exchange : Exchange.
Variable cfg : Config.

Definition get_mid_price (st : State) (m : Market) : result Q :=
  match List.find (fun mi => bool_decide (fst mi = m)) (market_infos st) with
  | Some mi => Ok (snd mi)
  | None => Raise KeyError
  end.

Definition base_order_size (st : State) (trading_pair : Market) (price : Q)
  : result Q :=
  if String.eqb (token cfg) (base trading_pair) then Ok (order_amount cfg)
  else
    price ← (if Qeq_bool price 0 then get_mid_price st trading_pair else Ok price);
    div (order_amount cfg) price.

Definition make_proposal (st : State) (m : Market) (mid_price : Q)
           (bid_spread ask_spread : Q) : result Proposal :=
  let buy_price := (mid_price * (1 - bid_spread))%Q in
  let buy_price := quantize_order_price exchange m buy_price in
  buy_size ← base_order_size st m buy_price;
  let sell_price := (mid_price * (1 + ask_spread))%Q in
  let sell_price := quantize_order_price exchange m sell_price in
  sell_size ← base_order_size st m sell_price;
  Ok {| market := m;
        buy := {| PriceSize.price := buy_price; PriceSize.size := buy_size |};
        sell := {| PriceSize.price := sell_price; PriceSize.size := sell_size |} |}.

Definition Qmax (a b : Q) : Q := if Qlt_bool a b then b else a.
Definition Qmin (a b : Q) : Q := if Qlt_bool b a then b else a.

Definition create_base_proposals_static (st : State) : result (list Proposal) :=
  traverse (fun '(m, mid_price) =>
    vol ← getitem (volatility st) m;
    let spread := spread cfg in
    let spread :=
      match vol with
      | s_decimal_nan => spread
      | Dec v => Qmax spread (v * volatility_to_spread_multiplier cfg)%Q
      end in
    let spread :=
      if Qlt_bool 0 (max_spread cfg) then Qmin spread (max_spread cfg)
      else spread in
    make_proposal st m mid_price spread spread) (market_infos st).

(** The body of the loop of [create_base_proposals_dynamic].  The call is
    [MinerMarketBandDataFeed.get_spread(self._exchange.name, market)], on the
    class and with two arguments; [http_get] is the endpoint of the feed.
    The state is the list of proposals and the records logged. *)
Definition add_dynamic_proposal
           (http_get : Z -> Response) (st : State)
           (acc : list Proposal * list LogRecord) (mi : Market * Q)
  : result (list Proposal * list LogRecord) :=
  let '(proposals, log) := acc in
  let '(m, mid_price) := mi in
  dynamic_spread_data ←
    call_get_spread http_get [Str (name exchange); Str (trading_pair_name m)];
  match dynamic_spread_data with
  | Some data =>
      let bid_spread := (spread_bid data * volatility_to_spread_multiplier cfg)%Q in
      let ask_spread := (spread_ask data * volatility_to_spread_multiplier cfg)%Q in
      p ← make_proposal st m mid_price bid_spread ask_spread;
      Ok (proposals ++ [p], log)
  | None =>
      Ok (proposals,
          log ++ [Warning ("Failed to get dynamic spread data for "
                           +:+ trading_pair_name m
                           +:+ ",back to static spread")])
  end.

Definition create_base_proposals_dynamic (http_get : Z -> Response) (st : State)
  : result (list Proposal * list LogRecord) :=
  foldM (add_dynamic_proposal http_get st) (market_infos st) ([], []).

Definition create_base_proposals (http_get : Z -> Response) (st : State)
  : result (list Proposal * list LogRecord) :=
  if dynamic_spread cfg then create_base_proposals_dynamic http_get st
  else proposals ← create_base_proposals_static st; Ok (proposals, []).

(** *** Budget allocation *)

Definition all_tokens (st : State) : gset string :=
  list_to_set (flat_map (fun mi => [base (fst mi); quote (fst mi)]) (market_infos st)).

Definition all_quote_tokens (st : State) : gset string :=
  list_to_set (map (fun mi => quote (fst mi)) (market_infos st)).

Definition is_token_a_quote_token (st : State) : bool :=
  let quotes := all_quote_tokens st in
  bool_decide (size quotes = 1%nat) && bool_decide (token cfg ∈ quotes).

(** The body of [for order in self.active_orders]: the amount locked in a
    live order is added back to the balance of its token. *)
Definition add_locked_balance (adjusted_bals : gmap string Q) (order : LimitOrder.t)
  : result (gmap string Q) :=
  let '(base, quote) := LimitOrder.trading_pair order in
  if LimitOrder.is_buy order then
    b ← getitem adjusted_bals quote;
    Ok (<[quote := (b + LimitOrder.quantity order * LimitOrder.price order)%Q]>
          adjusted_bals)
  else
    b ← getitem adjusted_bals base;
    Ok (<[base := (b + LimitOrder.quantity order)%Q]> adjusted_bals).

Definition adjusted_available_balances (st : State) : result (gmap string Q) :=
  let tokens := all_tokens st in
  let adjusted_bals : gmap string Q :=
    set_to_map (fun t => (t, get_available_balance exchange t)) tokens in
  foldM add_locked_balance (active_orders st) adjusted_bals.

(** What a live order holds of the token [t]: the quote value of a buy order
    quoted in [t], the quantity of a sell order of the base [t]. *)
Definition locked_amount (t : string) (order : LimitOrder.t) : Q :=
  if LimitOrder.is_buy order then
    if String.eqb (quote (LimitOrder.trading_pair order)) t
    then (LimitOrder.quantity order * LimitOrder.price order)%Q else 0%Q
  else
    if String.eqb (base (LimitOrder.trading_pair order)) t
    then LimitOrder.quantity order else 0%Q.

(** The token an order has its amount locked in. *)
Definition locked_token (order : LimitOrder.t) : string :=
  if LimitOrder.is_buy order then quote (LimitOrder.trading_pair order)
  else base (LimitOrder.trading_pair order).

(** The body of the loop of [total_port_value_in_token]. *)
Definition add_market_value (st : State) (all_bals : gmap string Q)
           (port_value : Q) (mi : Market * Q) : result Q :=
  let '(m, mid_price) := mi in
  if is_token_a_quote_token st then
    b ← getitem all_bals (base m);
    Ok (port_value + b * mid_price)%Q
  else
    b ← getitem all_bals (quote m);
    v ← div b mid_price;
    Ok (port_value + v)%Q.

Definition total_port_value_in_token (st : State) : result Q :=
  all_bals ← adjusted_available_balances st;
  let port_value := default 0%Q (all_bals !! token cfg) in
  foldM (add_market_value st all_bals) (market_infos st) port_value.

(** The body of the loop of [create_budget_allocation]. *)
Definition allocate_market (st : State) (market_portion : Q)
           (balances : gmap string Q)
           (budgets : gmap Market Q * gmap Market Q) (mi : Market * Q)
  : result (gmap Market Q * gmap Market Q) :=
  let '(sells, buys) := budgets in
  let '(m, mid_price) := mi in
  if is_token_a_quote_token st then
    b ← getitem balances (base m);
    let sells := <[m := b]> sells in
    let buy_budget := (market_portion - b * mid_price)%Q in
    if Qlt_bool 0 buy_budget then Ok (sells, <[m := buy_budget]> buys)
    else Ok (sells, buys)
  else
    b ← getitem balances (quote m);
    let buys := <[m := b]> buys in
    v ← div b mid_price;
    let sell_budget := (market_portion - v)%Q in
    if Qlt_bool 0 sell_budget then Ok (<[m := sell_budget]> sells, buys)
    else Ok (sells, buys).

Definition zero_budgets (st : State) : gmap Market Q :=
  list_to_map (map (fun mi => (fst mi, 0%Q)) (market_infos st)).

Definition create_budget_allocation (st : State) : result State :=
  let sells := zero_budgets st in
  let buys := zero_budgets st in
  portfolio_value ← total_port_value_in_token st;
  market_portion ←
    div portfolio_value (inject_Z (Z.of_nat (length (market_infos st))));
  balances ← adjusted_available_balances st;
  budgets ← foldM (allocate_market st market_portion balances)
                  (market_infos st) (sells, buys);
  Ok (set_budgets st (fst budgets) (snd budgets)).

(** What the loop of [create_budget_allocation] leaves in
    [(sell_budgets[m], buy_budgets[m])] for a market, given the zero the
    dict comprehension put there. *)
Definition allocated (st : State) (market_portion : Q) (balances : gmap string Q)
           (m : Market) (mid_price : Q) (s b : Q) : Prop :=
  if is_token_a_quote_token st then
    exists bal, balances !! base m = Some bal /\ s = bal
      /\ b = (if Qlt_bool 0 (market_portion - bal * mid_price)
              then market_portion - bal * mid_price else 0)%Q
  else
    exists bal, balances !! quote m = Some bal /\ b = bal
      /\ ~ (mid_price == 0)%Q
      /\ s = (if Qlt_bool 0 (market_portion - bal / mid_price)
              then market_portion - bal / mid_price else 0)%Q.

(** *** Refresh and tolerance *)

Definition nonempty {A} (l : list A) : bool :=
  match l with [] => false | _ => true end.

(** One of the two price tests of [is_within_tolerance]:
    [cur and abs(proposed - cur[0].price) / cur[0].price > tolerance]. *)
Definition price_moved (cur : list LimitOrder.t) (proposed : Q) : result bool :=
  match cur with
  | [] => Ok false
  | o :: _ =>
      d ← div (Qabs (proposed - LimitOrder.price o)) (LimitOrder.price o);
      Ok (Qlt_bool (order_refresh_tolerance_pct cfg) d)
  end.

Definition is_within_tolerance (cur_orders : list LimitOrder.t) (proposal : Proposal)
  : result bool :=
  let cur_buy := List.filter (fun o => LimitOrder.is_buy o) cur_orders in
  let cur_sell := List.filter (fun o => negb (LimitOrder.is_buy o)) cur_orders in
  if (nonempty cur_buy && Qle_bool (PriceSize.size (buy proposal)) 0)
     || (nonempty cur_sell && Qle_bool (PriceSize.size (sell proposal)) 0)
  then Ok false
  else
    price_moved cur_buy (PriceSize.price (buy proposal)) ≫= fun moved : bool =>
    if moved then Ok false
    else
      price_moved cur_sell (PriceSize.price (sell proposal)) ≫= fun moved : bool =>
      if moved then Ok false else Ok true.

(** [order_age] of [hummingbot.strategy.utils], taken as given. *)
Variable order_age : LimitOrder.t -> Q -> Q.

Definition orders_of (st : State) (m : Market) : list LimitOrder.t :=
  List.filter (fun o => bool_decide (LimitOrder.trading_pair o = m)) (active_orders st).

(** The decision [to_cancel] of one iteration of [cancel_active_orders]. *)
Definition to_cancel (st : State) (times : gmap Market Q) (proposal : Proposal)
  : result bool :=
  let cur_orders := orders_of st (market proposal) in
  if nonempty cur_orders
     && existsb (fun o => Qlt_bool (max_order_age cfg)
                                   (order_age o (current_timestamp st))) cur_orders
  then Ok true
  else
    refresh_time ← getitem times (market proposal);
    if Qle_bool refresh_time (current_timestamp st) && nonempty cur_orders then
      is_within_tolerance cur_orders proposal ≫= fun within : bool =>
      Ok (negb within)
    else Ok false.

(** The body of [for order in cur_orders]: the cancellation is sent and
    the refresh time of the pair of the order is set.  The state is the
    refresh schedule and the cancellations sent so far, each with the
    market of its proposal. *)
Definition cancel_order (st : State) (proposal : Proposal)
           (acc : gmap Market Q * list (Market * string)) (order : LimitOrder.t)
  : result (gmap Market Q * list (Market * string)) :=
  let '(times, cancels) := acc in
  _ ← get_mid_price st (market proposal);
  Ok (<[LimitOrder.trading_pair order := (current_timestamp st + (1 # 10))%Q]> times,
      cancels ++ [(market proposal, LimitOrder.client_order_id order)]).

(** One iteration of the loop of [cancel_active_orders]. *)
Definition cancel_proposal (st : State)
           (acc : gmap Market Q * list (Market * string)) (proposal : Proposal)
  : result (gmap Market Q * list (Market * string)) :=
  to_cancel st (fst acc) proposal ≫= fun c : bool =>
  if c then foldM (cancel_order st proposal) (orders_of st (market proposal)) acc
  else Ok acc.

Definition cancel_active_orders (st : State) (proposals : list Proposal)
  : result (State * list (Market * string)) :=
  r ← foldM (cancel_proposal st) proposals (refresh_times st, []);
  Ok (set_refresh_times st (fst r), snd r).

(** *** The cancellation rule in the words of the specification *)

(** Within tolerance on one side: with a live order on the side, the
    proposed size is positive and the relative distance of the proposed
    price to the price of the live order is at most the tolerance. *)
Definition side_within_tolerance (cur_side : list LimitOrder.t)
           (proposed : PriceSize.t) : Prop :=
  match cur_side with
  | [] => True
  | o :: _ =>
      (0 < PriceSize.size proposed)%Q
      /\ (Qabs (PriceSize.price proposed - LimitOrder.price o) / LimitOrder.price o
          <= order_refresh_tolerance_pct cfg)%Q
  end.

Definition within_tolerance (cur_orders : list LimitOrder.t) (proposal : Proposal)
  : Prop :=
  side_within_tolerance (List.filter (fun o => LimitOrder.is_buy o) cur_orders)
                        (buy proposal)
  /\ side_within_tolerance (List.filter (fun o => negb (LimitOrder.is_buy o)) cur_orders)
                           (sell proposal).

(** Some live order of the market is older than [max_order_age]. *)
Definition aged (st : State) (cur_orders : list LimitOrder.t) : Prop :=
  exists o, In o cur_orders
            /\ (max_order_age cfg < order_age o (current_timestamp st))%Q.

Definition should_cancel (st : State) (refresh_time : Q) (proposal : Proposal) : Prop :=
  let cur_orders := orders_of st (market proposal) in
  aged st cur_orders
  \/ ((refresh_time <= current_timestamp st)%Q
      /\ ~ within_tolerance cur_orders proposal).

(** Every order has a price other than zero. *)
Definition priced (orders : list LimitOrder.t) : Prop :=
  forall o, In o orders -> ~ (LimitOrder.price o == 0)%Q.

(** *** Fill handling *)

Record OrderFilledEvent : Type := {
  order_id : string;
  trade_type : TradeType;
  fill_price : Q;
  amount : Q
}.

(** [order_tracker.get_shadow_market_pair_from_order_id], reduced to the
    trading pair of the market info it returns. *)
Variable get_shadow_market_pair_from_order_id : string -> option Market.

Definition did_fill_order (st : State) (event : OrderFilledEvent) : result State :=
  match get_shadow_market_pair_from_order_id (order_id event) with
  | None => Ok st
  | Some m =>
      match trade_type event with
      | BUY =>
          b ← getitem (buy_budgets st) m;
          let buys := <[m := (b - amount event * fill_price event)%Q]> (buy_budgets st) in
          s ← getitem (sell_budgets st) m;
          let sells := <[m := (s + amount event)%Q]> (sell_budgets st) in
          Ok (set_budgets st sells buys)
      | _ =>
          s ← getitem (sell_budgets st) m;
          let sells := <[m := (s - amount event)%Q]> (sell_budgets st) in
          b ← getitem (buy_budgets st) m;
          let buys := <[m := (b + amount event * fill_price event)%Q]> (buy_budgets st) in
          Ok (set_budgets st sells buys)
      end
  end.

(** *** Mid-price history *)

(** The body of the loop of [update_mid_prices]: the mid price is appended
    to the buffer of the market, of which the last [max_len] samples are
    kept. *)
Definition record_mid_price (mid_prices : gmap Market (list Q)) (mi : Market * Q)
  : result (gmap Market (list Q)) :=
  let '(m, mid_price) := mi in
  buffer ← getitem mid_prices m;
  let buffer := buffer ++ [mid_price] in
  let max_len := volatility_interval cfg * avg_volatility_period cfg in
  Ok (<[m := slice_from buffer (-1 * max_len)]> mid_prices).

Definition update_mid_prices (st : State) (mid_prices : gmap Market (list Q))
  : result (gmap Market (list Q)) :=
  foldM record_mid_price (market_infos st) mid_prices.

(** *** The budget constraint *)

(** The [percent] of [build_trade_fee] for the buy leg of a proposal (a maker
    LIMIT BUY on the exchange), of [hummingbot.core.utils.estimate_fee],
    taken as given: base, quote, size and price. *)
Variable buy_fee_percent : string -> string -> Q -> Q -> Q.

Definition set_sizes (proposal : Proposal) (buy_size sell_size : Q) : Proposal :=
  {| market := market proposal;
     buy := {| PriceSize.price := PriceSize.price (buy proposal);
               PriceSize.size := buy_size |};
     sell := {| PriceSize.price := PriceSize.price (sell proposal);
                PriceSize.size := sell_size |} |}.

(** The body of the loop of [apply_budget_constraint]; the state is the
    working copy of the balances and the proposals constrained so far. *)
Definition constrain_proposal (acc : gmap string Q * list Proposal) (proposal : Proposal)
  : result (gmap string Q * list Proposal) :=
  let '(balances, done) := acc in
  let base_token := base (market proposal) in
  let quote_token := quote (market proposal) in
  b ← getitem balances base_token;
  let sell_size :=
    if Qlt_bool b (PriceSize.size (sell proposal)) then b
    else PriceSize.size (sell proposal) in
  let sell_size := quantize_order_amount exchange (market proposal) sell_size in
  let balances := <[base_token := (b - sell_size)%Q]> balances in
  let quote_size :=
    (PriceSize.size (buy proposal) * PriceSize.price (buy proposal))%Q in
  q ← getitem balances quote_token;
  let quote_size := if Qlt_bool q quote_size then q else quote_size in
  let fee :=
    buy_fee_percent base_token quote_token (PriceSize.size (buy proposal))
                    (PriceSize.price (buy proposal)) in
  buy_size ← div quote_size (PriceSize.price (buy proposal) * (1 + fee))%Q;
  let buy_size := quantize_order_amount exchange (market proposal) buy_size in
  let balances := <[quote_token := (q - quote_size)%Q]> balances in
  Ok (balances, done ++ [set_sizes proposal buy_size sell_size]).

(** [apply_budget_constraint] on the balances of [self._token_balances]: the
    proposals with their new sizes, and the working balances left. *)
Definition apply_budget_constraint (token_balances : gmap string Q)
           (proposals : list Proposal) : result (gmap string Q * list Proposal) :=
  foldM constrain_proposal proposals (token_balances, []).

(** What a constrained proposal commits of the token [t]: its sell size as
    the base, the cost of its buy size as the quote, with the fee that was
    estimated on the proposal before the constraint. *)
Definition committed (t : string) (pp : Proposal * Proposal) : Q :=
  let '(proposal, constrained) := pp in
  ((if String.eqb (base (market proposal)) t
    then PriceSize.size (sell constrained) else 0)
   + (if String.eqb (quote (market proposal)) t
      then PriceSize.size (buy constrained) * PriceSize.price (buy constrained)
           * (1 + buy_fee_percent (base (market proposal)) (quote (market proposal))
                    (PriceSize.size (buy proposal)) (PriceSize.price (buy proposal)))
      else 0))%Q.

(** A proposal the constraint can work on: sizes that are not negative and a
    buy price above zero. *)
Definition well_formed (p : Proposal) : Prop :=
  (0 <= PriceSize.size (sell p))%Q /\ (0 <= PriceSize.size (buy p))%Q
  /\ (0 < PriceSize.price (buy p))%Q.

Definition funded (balances : gmap string Q) (p : Proposal) : Prop :=
  is_Some (balances !! base (market p)) /\ is_Some (balances !! quote (market p)).

Definition nonnegative (balances : gmap string Q) : Prop :=
  forall t b, balances !! t = Some b -> (0 <= b)%Q.

(** The constrained proposal against the proposal: only the sizes change,
    and they do not grow. *)
Definition shrunk (p p' : Proposal) : Prop :=
  market p' = market p
  /\ PriceSize.price (buy p') = PriceSize.price (buy p)
  /\ PriceSize.price (sell p') = PriceSize.price (sell p)
  /\ (0 <= PriceSize.size (buy p'))%Q /\ (PriceSize.size (buy p') <= PriceSize.size (buy p))%Q
  /\ (0 <= PriceSize.size (sell p'))%Q
  /\ (PriceSize.size (sell p') <= PriceSize.size (sell p))%Q.

(** *** Order dispatch *)

(** An order handed to [buy_with_specific_market] or
    [sell_with_specific_market]. *)
Record OrderRequest : Type := {
  request_market : Market;
  request_is_buy : bool;
  request_size : Q;
  request_price : Q
}.

(** The body of the loop of [execute_orders_proposal]; the state is the
    refresh schedule and the orders placed so far. *)
Definition execute_proposal (st : State)
           (acc : gmap Market Q * list OrderRequest) (proposal : Proposal)
  : result (gmap Market Q * list OrderRequest) :=
  let '(times, placed) := acc in
  let m := market proposal in
  let cur_orders := orders_of st m in
  (if nonempty cur_orders then Ok true
   else refresh_time ← getitem times m;
        Ok (Qlt_bool (current_timestamp st) refresh_time)) ≫= fun skip : bool =>
  if skip then Ok acc
  else
    mid_price ← get_mid_price st m;
    placed ←
      (if Qlt_bool 0 (PriceSize.size (buy proposal)) then
         _ ← div (Qabs (PriceSize.price (buy proposal) - mid_price)) mid_price;
         Ok (placed ++ [ {| request_market := m; request_is_buy := true;
                            request_size := PriceSize.size (buy proposal);
                            request_price := PriceSize.price (buy proposal) |} ])
       else Ok placed);
    placed ←
      (if Qlt_bool 0 (PriceSize.size (sell proposal)) then
         _ ← div (Qabs (PriceSize.price (sell proposal) - mid_price)) mid_price;
         Ok (placed ++ [ {| request_market := m; request_is_buy := false;
                            request_size := PriceSize.size (sell proposal);
                            request_price := PriceSize.price (sell proposal) |} ])
       else Ok placed);
    if Qlt_bool 0 (PriceSize.size (buy proposal))
       || Qlt_bool 0 (PriceSize.size (sell proposal))
    then
      _ ← getitem (volatility st) m;
      Ok (<[m := (current_timestamp st + order_refresh_time cfg)%Q]> times, placed)
    else Ok (times, placed).

Definition execute_orders_proposal (st : State) (proposals : list Proposal)
  : result (State * list OrderRequest) :=
  r ← foldM (execute_proposal st) proposals (refresh_times st, []);
  Ok (set_refresh_times st (fst r), snd r).

(** The orders of a proposal that is executed: one for each leg with a size
    above zero, the buy first. *)
Definition requests_of (proposal : Proposal) : list OrderRequest :=
  (if Qlt_bool 0 (PriceSize.size (buy proposal))
   then [ {| request_market := market proposal; request_is_buy := true;
             request_size := PriceSize.size (buy proposal);
             request_price := PriceSize.price (buy proposal) |} ]
   else [])
  ++ (if Qlt_bool 0 (PriceSize.size (sell proposal))
      then [ {| request_market := market proposal; request_is_buy := false;
                request_size := PriceSize.size (sell proposal);
                request_price := PriceSize.price (sell proposal) |} ]
      else []).

(** A proposal whose market is free: no live order, and a refresh time that
    has come. *)
Definition due (st : State) (proposal : Proposal) : Prop :=
  orders_of st (market proposal) = []
  /\ exists refresh_time,
       refresh_times st !! market proposal = Some refresh_time
       /\ (refresh_time <= current_timestamp st)%Q.

(** The strategy with other live orders. *)
Definition set_active_orders (st : State) (orders : list LimitOrder.t) : State :=
  {| market_infos := market_infos st;
     refresh_times := refresh_times st;
     sell_budgets := sell_budgets st;
     buy_budgets := buy_budgets st;
     volatility := volatility st;
     active_orders := orders;
     current_timestamp := current_timestamp st |}.

End Strategy.

(** *** Order-book validation *)

(** A dict kept in insertion order, here from markets to market infos:
    [d.get(k)], [d[k] = v] (in place for a key of the dict, at the end for a
    new one), [d.pop(k)] and [d.update(other)]. *)
Section InsertionOrderedDict.
Context {K V : Type} `{EqDecision K}.

Fixpoint dict_get (d : list (K * V)) (k : K) : option V :=
  match d with
  | [] => None
  | (k', v) :: d' => if decide (k' = k) then Some v else dict_get d' k
  end.

Fixpoint dict_set (d : list (K * V)) (k : K) (v : V) : list (K * V) :=
  match d with
  | [] => [(k, v)]
  | (k', v') :: d' =>
      if decide (k' = k) then (k, v) :: d' else (k', v') :: dict_set d' k v
  end.

Fixpoint dict_pop (d : list (K * V)) (k : K) : list (K * V) :=
  match d with
  | [] => []
  | (k', v') :: d' => if decide (k' = k) then d' else (k', v') :: dict_pop d' k
  end.

Definition dict_update (d other : list (K * V)) : list (K * V) :=
  fold_left (fun d kv => dict_set d (fst kv) (snd kv)) other d.

End InsertionOrderedDict.

(** The body of the loop of [_validate_order_book_for_markets]:
    [book_is_empty] is [market_info.get_price(False).is_nan()]; the state is
    ([_market_infos], [_empty_ob_market_infos]).  The warnings are left out. *)
Definition validate_market {I : Type} (book_is_empty : I -> bool)
           (acc : list (Market * I) * list (Market * I)) (item : Market * I)
  : list (Market * I) * list (Market * I) :=
  let '(market_infos, empty_ob_market_infos) := acc in
  let '(m, market_info) := item in
  if book_is_empty market_info then
    let empty_ob_market_infos := dict_set empty_ob_market_infos m market_info in
    match dict_get market_infos m with
    | Some _ => (dict_pop market_infos m, empty_ob_market_infos)
    | None => (market_infos, empty_ob_market_infos)
    end
  else
    let market_infos := dict_set market_infos m market_info in
    match dict_get empty_ob_market_infos m with
    | Some _ => (market_infos, dict_pop empty_ob_market_infos m)
    | None => (market_infos, empty_ob_market_infos)
    end.

(** [_validate_order_book_for_markets]: the two dicts afterwards and the
    number of active markets returned. *)
Definition _validate_order_book_for_markets {I : Type} (book_is_empty : I -> bool)
           (market_infos empty_ob_market_infos : list (Market * I))
  : list (Market * I) * list (Market * I) * nat :=
  let markets := dict_update market_infos empty_ob_market_infos in
  let r := fold_left (validate_market book_is_empty) markets
                     (market_infos, empty_ob_market_infos) in
  (fst r, snd r, length (fst r)).

End LiquidityMining.

(** ** The funding-rate arbitrage strategy ([v2_funding_rate_arb.py]) *)

Module FundingRateArbitrage.

Record FundingInfo : Type := {
  rate : Q;
  next_funding_utc_timestamp : Q
}.

Record FundingRateArbitrageConfig : Type := {
  leverage : Z;
  min_funding_rate_profitability : Q;
  tokens : list string;
  position_size_quote : Q;
  profitability_to_take_profit : Q;
  funding_rate_diff_stop_loss : Q;
  trade_profitability_condition_to_enter : bool
}.

(** What the strategy asks of a perpetual connector: the funding info of a
    trading pair and the [percent] of the fee of a market order opening a
    position ([get_fee] with [order_type=MARKET], [is_maker=False],
    [position_action=OPEN]). *)
Record Connector : Type := {
  get_funding_info : Market -> FundingInfo;
  get_fee : string -> string -> TradeType -> Q -> Q -> Q
}.

(** The two queries of the market data provider: the [result_price] of
    [get_price_for_quote_volume] and the mid price of [get_price_by_type]. *)
Record MarketDataProvider : Type := {
  get_price_for_quote_volume : string -> Market -> Q -> bool -> Q;
  get_mid_price_by_type : string -> Market -> Q
}.

Record ExecutorInfo : Type := {
  id : string;
  net_pnl_quote : Q
}.

Record PositionExecutorConfig : Type := {
  config_id : string;
  timestamp : Q;
  connector_name : string;
  trading_pair : Market;
  config_side : TradeType;
  config_amount : Q;
  config_leverage : Z
}.

Inductive ExecutorAction : Type :=
| CreateExecutorAction (executor_config : PositionExecutorConfig)
| StopExecutorAction (executor_id : string).

Record FundingPaymentCompletedEvent : Type := {
  payment_trading_pair : Market;
  amount : Q
}.

(** An entry of [active_funding_arbitrages]. *)
Record FundingArbitrageInfo : Type := {
  connector_1 : string;
  connector_2 : string;
  executors_ids : list string;
  side : TradeType;
  funding_payments : list FundingPaymentCompletedEvent
}.

Record State : Type := {
  active_funding_arbitrages : list (string * FundingArbitrageInfo);
  stopped_funding_arbitrages : gmap string (list FundingArbitrageInfo);
  all_executors : list ExecutorInfo;
  current_timestamp : Q
}.

Definition quote_markets_map : gmap string string :=
  {[ "hyperliquid_perpetual" := "USD"; "binance_perpetual" := "USDT" ]}.

Definition funding_payment_interval_map : gmap string Z :=
  {[ "binance_perpetual" := 60 * 60 * 8; "hyperliquid_perpetual" := 60 * 60 * 1 ]}.

Definition funding_profitability_interval : Z := 60 * 60 * 24.

Definition get_trading_pair_for_connector (token connector : string) : Market :=
  (token, default "USDT" (quote_markets_map !! connector)).

(** [d[k]] and [k in d] on a dict kept in insertion order. *)
Definition assoc {V} (d : list (string * V)) (k : string) : result V :=
  match List.find (fun kv => String.eqb (fst kv) k) d with
  | Some kv => Ok (snd kv)
  | None => Raise KeyError
  end.
Definition has_key {V} (d : list (string * V)) (k : string) : bool :=
  existsb (fun kv => String.eqb (fst kv) k) d.
(** [d[k] = v] *)
Fixpoint setitem {V} (d : list (string * V)) (k : string) (v : V) : list (string * V) :=
  match d with
  | [] => [(k, v)]
  | (k', v') :: d' => if String.eqb k' k then (k, v) :: d' else (k', v') :: setitem d' k v
  end.

Definition get_normalized_funding_rate_in_seconds
           (funding_info_report : list (string * FundingInfo)) (connector_name : string)
  : result Q :=
  info ← assoc funding_info_report connector_name;
  Ok (rate info
      / inject_Z (default (60 * 60 * 8)%Z
                   (funding_payment_interval_map !! connector_name)))%Q.

(** The body of the inner loop of [get_most_profitable_combination]; the
    state is ([best_combination], [highest_profitability]). *)
Definition consider_pair (funding_info_report : list (string * FundingInfo))
           (connector_1 : string)
           (acc : option (string * string * TradeType * Q) * Q) (connector_2 : string)
  : result (option (string * string * TradeType * Q) * Q) :=
  let '(best_combination, highest_profitability) := acc in
  if negb (String.eqb connector_1 connector_2) then
    rate_connector_1 ← get_normalized_funding_rate_in_seconds funding_info_report connector_1;
    rate_connector_2 ← get_normalized_funding_rate_in_seconds funding_info_report connector_2;
    let funding_rate_diff :=
      (Qabs (rate_connector_1 - rate_connector_2)
       * inject_Z funding_profitability_interval)%Q in
    if Qlt_bool highest_profitability funding_rate_diff then
      let trade_side := if Qlt_bool rate_connector_1 rate_connector_2 then BUY else SELL in
      Ok (Some (connector_1, connector_2, trade_side, funding_rate_diff), funding_rate_diff)
    else Ok acc
  else Ok acc.

Definition get_most_profitable_combination
           (funding_info_report : list (string * FundingInfo))
  : result (option (string * string * TradeType * Q)) :=
  let keys := map fst funding_info_report in
  r ← foldM (fun acc connector_1 =>
               foldM (consider_pair funding_info_report connector_1) keys acc)
            keys (None, 0%Q);
  Ok (fst r).

(** *** The selection in the words of the specification *)

(** [diff] of two normalized rates. *)
Definition funding_rate_diff_of (r1 r2 : Q) : Q :=
  (Qabs (r1 - r2) * inject_Z funding_profitability_interval)%Q.

(** [best] is a best combination among the ordered pairs of distinct
    connectors in [pairs]: a pair of them of positive [diff] that no other
    exceeds, with its side, or nothing when no two rates differ. *)
Definition best_among (funding_info_report : list (string * FundingInfo))
           (pairs : string -> string -> Prop)
           (best : option (string * string * TradeType * Q)) : Prop :=
  let normalized := get_normalized_funding_rate_in_seconds funding_info_report in
  match best with
  | None =>
      forall a b ra rb, pairs a b -> a <> b ->
        normalized a = Ok ra -> normalized b = Ok rb -> (ra == rb)%Q
  | Some (c1, c2, trade_side, diff) =>
      In c1 (map fst funding_info_report) /\ In c2 (map fst funding_info_report)
      /\ c1 <> c2
      /\ exists r1 r2,
           normalized c1 = Ok r1 /\ normalized c2 = Ok r2
           /\ diff = funding_rate_diff_of r1 r2
           /\ (0 < diff)%Q
           /\ ((r1 < r2)%Q -> trade_side = BUY)
           /\ ((r2 <= r1)%Q -> trade_side = SELL)
           /\ forall a b ra rb, pairs a b -> a <> b ->
                normalized a = Ok ra -> normalized b = Ok rb ->
                (funding_rate_diff_of ra rb <= diff)%Q
  end.

(** The state of the loops of [get_most_profitable_combination] after the
    pairs in [pairs]. *)
Definition selection_state (funding_info_report : list (string * FundingInfo))
           (pairs : string -> string -> Prop)
           (acc : option (string * string * TradeType * Q) * Q) : Prop :=
  best_among funding_info_report pairs (fst acc)
  /\ snd acc = match fst acc with
               | None => 0%Q
               | Some (_, _, _, diff) => diff
               end.

(** [a] comes before [b] in the list. *)
Definition precedes {A} (l : list A) (a b : A) : Prop :=
  exists l1 l2 l3, l = l1 ++ a :: l2 ++ b :: l3.

(** The pair the loops hold, if any, is in the order of the report. *)
Definition oriented (funding_info_report : list (string * FundingInfo))
           (acc : option (string * string * TradeType * Q) * Q) : Prop :=
  match fst acc with
  | Some (c1, c2, _, _) => precedes (map fst funding_info_report) c1 c2
  | None => True
  end.

Section Strategy.
Variable config : FundingRateArbitrageConfig.
Variable connectors : list (string * Connector).
Variable market_data_provider : MarketDataProvider.
(** The identifier an executor config is given when it is built. *)
Variable new_config_id : string -> Market -> TradeType -> string.

Definition get_funding_info_by_token (token : string) : list (string * FundingInfo) :=
  fold_left (fun funding_rates '(connector_name, connector) =>
               let trading_pair := get_trading_pair_for_connector token connector_name in
               setitem funding_rates connector_name (get_funding_info connector trading_pair))
            connectors [].

Definition get_current_profitability_after_fees
           (token connector_1 connector_2 : string) (side : TradeType) : result Q :=
  let trading_pair_1 := get_trading_pair_for_connector token connector_1 in
  let trading_pair_2 := get_trading_pair_for_connector token connector_2 in
  let connector_1_price :=
    get_price_for_quote_volume market_data_provider connector_1 trading_pair_1
      (position_size_quote config) (TradeType_eqb side BUY) in
  let connector_2_price :=
    get_price_for_quote_volume market_data_provider connector_2 trading_pair_2
      (position_size_quote config) (negb (TradeType_eqb side BUY)) in
  c1 ← assoc connectors connector_1;
  amount_1 ← div (position_size_quote config) connector_1_price;
  let estimated_fees_connector_1 :=
    get_fee c1 (base trading_pair_1) (quote trading_pair_1) BUY amount_1
            connector_1_price in
  c2 ← assoc connectors connector_2;
  amount_2 ← div (position_size_quote config) connector_2_price;
  let estimated_fees_connector_2 :=
    get_fee c2 (base trading_pair_2) (quote trading_pair_2) BUY amount_2
            connector_2_price in
  estimated_trade_pnl_pct ←
    (if TradeType_eqb side BUY
     then div (connector_2_price - connector_1_price)%Q connector_1_price
     else div (connector_1_price - connector_2_price)%Q connector_2_price);
  Ok (estimated_trade_pnl_pct - estimated_fees_connector_1
      - estimated_fees_connector_2)%Q.

Definition get_position_executors_config (st : State)
           (token connector_1 connector_2 : string) (trade_side : TradeType)
  : result (PositionExecutorConfig * PositionExecutorConfig) :=
  let pair_1 := get_trading_pair_for_connector token connector_1 in
  let pair_2 := get_trading_pair_for_connector token connector_2 in
  let price := get_mid_price_by_type market_data_provider connector_1 pair_1 in
  position_amount ← div (position_size_quote config) price;
  let side_2 := if TradeType_eqb trade_side SELL then BUY else SELL in
  Ok ({| config_id := new_config_id connector_1 pair_1 trade_side;
         timestamp := current_timestamp st;
         connector_name := connector_1;
         trading_pair := pair_1;
         config_side := trade_side;
         config_amount := position_amount;
         config_leverage := leverage config |},
      {| config_id := new_config_id connector_2 pair_2 side_2;
         timestamp := current_timestamp st;
         connector_name := connector_2;
         trading_pair := pair_2;
         config_side := side_2;
         config_amount := position_amount;
         config_leverage := leverage config |}).

Definition set_active (st : State) (active : list (string * FundingArbitrageInfo))
  : State :=
  {| active_funding_arbitrages := active;
     stopped_funding_arbitrages := stopped_funding_arbitrages st;
     all_executors := all_executors st;
     current_timestamp := current_timestamp st |}.

Definition set_stopped (st : State) (stopped : gmap string (list FundingArbitrageInfo))
  : State :=
  {| active_funding_arbitrages := active_funding_arbitrages st;
     stopped_funding_arbitrages := stopped;
     all_executors := all_executors st;
     current_timestamp := current_timestamp st |}.

(** [create_actions_proposal]: the loop over [config.tokens], left by the
    [return] of the first token that opens an arbitrage. *)
Fixpoint create_actions_loop (st : State) (tokens : list string)
  : result (State * list ExecutorAction) :=
  match tokens with
  | [] => Ok (st, [])
  | token :: rest =>
      if negb (has_key (active_funding_arbitrages st) token) then
        let funding_info_report := get_funding_info_by_token token in
        best_combination ← get_most_profitable_combination funding_info_report;
        match best_combination with
        | None => Raise TypeError
        | Some (connector_1, connector_2, trade_side, expected_profitability) =>
            if Qle_bool (min_funding_rate_profitability config) expected_profitability then
              current_profitability ←
                get_current_profitability_after_fees token connector_1 connector_2 trade_side;
              if trade_profitability_condition_to_enter config
                 && Qlt_bool current_profitability 0
              then create_actions_loop st rest
              else
                configs ← get_position_executors_config st token connector_1 connector_2
                            trade_side;
                let info :=
                  {| connector_1 := connector_1;
                     connector_2 := connector_2;
                     executors_ids := [config_id (fst configs); config_id (snd configs)];
                     side := trade_side;
                     funding_payments := [] |} in
                Ok (set_active st (setitem (active_funding_arbitrages st) token info),
                    [CreateExecutorAction (fst configs);
                     CreateExecutorAction (snd configs)])
            else create_actions_loop st rest
        end
      else create_actions_loop st rest
  end.

Definition create_actions_proposal (st : State) : result (State * list ExecutorAction) :=
  create_actions_loop st (tokens config).

(** The executors of an arbitrage: [filter_executors] on its identifiers. *)
Definition executors_of (st : State) (info : FundingArbitrageInfo) : list ExecutorInfo :=
  List.filter (fun x => existsb (String.eqb (id x)) (executors_ids info))
              (all_executors st).

Definition take_profit_condition (st : State) (info : FundingArbitrageInfo) : bool :=
  let funding_payments_pnl := sum (map amount (funding_payments info)) in
  let executors_pnl := sum (map net_pnl_quote (executors_of st info)) in
  Qlt_bool (profitability_to_take_profit config * position_size_quote config)%Q
           (executors_pnl + funding_payments_pnl)%Q.

Definition current_funding_condition (token : string) (info : FundingArbitrageInfo)
  : result bool :=
  let funding_info_report := get_funding_info_by_token token in
  funding_rate_diff ←
    (if TradeType_eqb (side info) BUY then
       r2 ← get_normalized_funding_rate_in_seconds funding_info_report (connector_2 info);
       r1 ← get_normalized_funding_rate_in_seconds funding_info_report (connector_1 info);
       Ok (r2 - r1)%Q
     else
       r1 ← get_normalized_funding_rate_in_seconds funding_info_report (connector_1 info);
       r2 ← get_normalized_funding_rate_in_seconds funding_info_report (connector_2 info);
       Ok (r1 - r2)%Q);
  Ok (Qlt_bool (funding_rate_diff * inject_Z funding_profitability_interval)%Q
               (funding_rate_diff_stop_loss config)).

(** The body of the loop of [stop_actions_proposal]; the state is
    ([stopped_funding_arbitrages], [stop_executor_actions]). *)
Definition stop_arbitrage (st : State)
           (acc : gmap string (list FundingArbitrageInfo) * list ExecutorAction)
           (item : string * FundingArbitrageInfo)
  : result (gmap string (list FundingArbitrageInfo) * list ExecutorAction) :=
  let '(stopped, stop_executor_actions) := acc in
  let '(token, funding_arbitrage_info) := item in
  let executors := executors_of st funding_arbitrage_info in
  let take_profit := take_profit_condition st funding_arbitrage_info in
  current_funding_condition token funding_arbitrage_info ≫= fun stop_loss : bool =>
  let stop :=
    history ← getitem stopped token;
    Ok (<[token := history ++ [funding_arbitrage_info]]> stopped,
        stop_executor_actions ++ map (fun e => StopExecutorAction (id e)) executors) in
  if take_profit then stop
  else if stop_loss then stop
  else Ok acc.

Definition stop_actions_proposal (st : State) : result (State * list ExecutorAction) :=
  r ← foldM (stop_arbitrage st) (active_funding_arbitrages st)
            (stopped_funding_arbitrages st, []);
  Ok (set_stopped st (fst r), snd r).

(** *** The entry rule in the words of the specification *)

(** The expected instantaneous trade PnL: buy at market on one venue, sell at
    market on the other, for [position_size_quote]. *)
Definition trade_pnl (token connector_1 connector_2 : string) (side : TradeType) : Q :=
  let price_1 :=
    get_price_for_quote_volume market_data_provider connector_1
      (get_trading_pair_for_connector token connector_1)
      (position_size_quote config) (TradeType_eqb side BUY) in
  let price_2 :=
    get_price_for_quote_volume market_data_provider connector_2
      (get_trading_pair_for_connector token connector_2)
      (position_size_quote config) (negb (TradeType_eqb side BUY)) in
  if TradeType_eqb side BUY then ((price_2 - price_1) / price_1)%Q
  else ((price_1 - price_2) / price_2)%Q.

(** The taker fee percent of a venue for the market order of the position. *)
Definition taker_fee (token connector_name : string) (is_buy : bool) : result Q :=
  let pair := get_trading_pair_for_connector token connector_name in
  let price :=
    get_price_for_quote_volume market_data_provider connector_name pair
      (position_size_quote config) is_buy in
  connector ← assoc connectors connector_name;
  Ok (get_fee connector (base pair) (quote pair) BUY
              (position_size_quote config / price)%Q price).

(** The token is idle and its best pair passes the entry condition. *)
Definition entry_condition (st : State) (token : string)
           (best : string * string * TradeType * Q) : Prop :=
  let '(connector_1, connector_2, trade_side, diff) := best in
  has_key (active_funding_arbitrages st) token = false
  /\ get_most_profitable_combination (get_funding_info_by_token token) = Ok (Some best)
  /\ (min_funding_rate_profitability config <= diff)%Q
  /\ exists profitability fee_1 fee_2,
       get_current_profitability_after_fees token connector_1 connector_2 trade_side
       = Ok profitability
       /\ taker_fee token connector_1 (TradeType_eqb trade_side BUY) = Ok fee_1
       /\ taker_fee token connector_2 (negb (TradeType_eqb trade_side BUY)) = Ok fee_2
       /\ profitability
          = (trade_pnl token connector_1 connector_2 trade_side - fee_1 - fee_2)%Q
       /\ (trade_profitability_condition_to_enter config = true -> (0 <= profitability)%Q).

(** *** The exit rule in the words of the specification *)

(** BUY is long on [connector_1] and short on [connector_2], SELL the reverse. *)
Definition long_connector (info : FundingArbitrageInfo) : string :=
  if TradeType_eqb (side info) BUY then connector_1 info else connector_2 info.
Definition short_connector (info : FundingArbitrageInfo) : string :=
  if TradeType_eqb (side info) BUY then connector_2 info else connector_1 info.

(** The quote of the market of a venue, and the interval of its funding
    payments in seconds: USD and one hour on hyperliquid, USDT and eight
    hours on every other venue. *)
Definition venue_quote (venue : string) : string :=
  if String.eqb venue "hyperliquid_perpetual" then "USD" else "USDT".
Definition funding_interval (venue : string) : Q :=
  if String.eqb venue "hyperliquid_perpetual" then 3600%Q else 28800%Q.

(** [r] is [normalized(venue)] for the token: the rate the venue reports on
    its market of the token, divided by its funding interval. *)
Definition normalized_rate (token venue : string) (r : Q) : Prop :=
  exists connector,
    In (venue, connector) connectors
    /\ (r == rate (get_funding_info connector (token, venue_quote venue))
             / funding_interval venue)%Q.

(** [sum(executor.net_pnl_quote)] over the executors of the arbitrage: the
    executors whose identifier is one of its pair of identifiers. *)
Definition executors_pnl (st : State) (info : FundingArbitrageInfo) : Q :=
  sum (map (fun executor =>
              if bool_decide (id executor ∈ executors_ids info)
              then net_pnl_quote executor else 0%Q)
           (all_executors st)).

Definition take_profit (st : State) (info : FundingArbitrageInfo) : Prop :=
  (profitability_to_take_profit config * position_size_quote config
   < executors_pnl st info + sum (map amount (funding_payments info)))%Q.

Definition stop_loss (token : string) (info : FundingArbitrageInfo) : Prop :=
  exists r_short r_long,
    normalized_rate token (short_connector info) r_short
    /\ normalized_rate token (long_connector info) r_long
    /\ ((r_short - r_long) * 86400 < funding_rate_diff_stop_loss config)%Q.

(** The two venues of an arbitrage are connectors of the strategy. *)
Definition known (item : string * FundingArbitrageInfo) : Prop :=
  In (connector_1 (snd item)) (map fst connectors)
  /\ In (connector_2 (snd item)) (map fst connectors).

Definition exit_condition (st : State) (item : string * FundingArbitrageInfo) : Prop :=
  take_profit st (snd item) \/ stop_loss (fst item) (snd item).

Definition did_complete_funding_payment (st : State)
           (event : FundingPaymentCompletedEvent) : State :=
  let token := base (payment_trading_pair event) in
  match assoc (active_funding_arbitrages st) token with
  | Ok info =>
      set_active st
        (setitem (active_funding_arbitrages st) token
           {| connector_1 := connector_1 info;
              connector_2 := connector_2 info;
              executors_ids := executors_ids info;
              side := side info;
              funding_payments := funding_payments info ++ [event] |})
  | Raise _ => st
  end.

End Strategy.

End FundingRateArbitrage.

(** ** Concrete inputs *)

Module Inputs.
Import LiquidityMining MinerMarketBandDataFeed.

Definition ETH_USDT : Market := ("ETH", "USDT").
Definition DOGE_USDT : Market := ("DOGE", "USDT").
Definition BTC_USDT : Market := ("BTC", "USDT").

(** Budgets of 1000 USDT and 1 ETH on [ETH-USDT], and a BUY fill of amount 2
    at price 50 of an order of that market. *)
Definition fill_state : State :=
  {| market_infos := [(ETH_USDT, 50%Q)];
     refresh_times := {[ ETH_USDT := 0%Q ]};
     sell_budgets := {[ ETH_USDT := 1%Q ]};
     buy_budgets := {[ ETH_USDT := 1000%Q ]};
     volatility := {[ ETH_USDT := s_decimal_nan ]};
     active_orders := [];
     current_timestamp := 0%Q |}.

Definition buy_fill : OrderFilledEvent :=
  {| order_id := "buy-1"; trade_type := BUY; fill_price := 50%Q; amount := 2%Q |}.

Definition eth_tracker (order_id : string) : option Market := Some ETH_USDT.

(** An exchange named [binance] that quantizes nothing. *)
Definition binance (balances : string -> Q) : Exchange :=
  {| name := "binance";
     quantize_order_price := fun _ p => p;
     quantize_order_amount := fun _ a => a;
     get_available_balance := balances |}.

Definition lm_config (dynamic : bool) : Config :=
  {| token := "USDT";
     order_amount := 100%Q;
     spread := (1 # 100)%Q;
     dynamic_spread := dynamic;
     order_refresh_time := 10%Q;
     order_refresh_tolerance_pct := (2 # 1000)%Q;
     volatility_interval := 300;
     avg_volatility_period := 10;
     volatility_to_spread_multiplier := 1%Q;
     max_spread := (-1)%Q;
     max_order_age := 3600%Q |}.

(** One active market, [DOGE-USDT] at mid price 1/10, for which the feed has
    no market id. *)
Definition doge_state : State :=
  {| market_infos := [(DOGE_USDT, (1 # 10)%Q)];
     refresh_times := {[ DOGE_USDT := 0%Q ]};
     sell_budgets := ∅;
     buy_budgets := ∅;
     volatility := {[ DOGE_USDT := s_decimal_nan ]};
     active_orders := [];
     current_timestamp := 0%Q |}.

(** Two markets quoted in USDT; the account holds 1 BTC and nothing else,
    and has no live order. *)
Definition btc_only (t : string) : Q := if String.eqb t "BTC" then 1%Q else 0%Q.

Definition two_markets : State :=
  {| market_infos := [(BTC_USDT, 30000%Q); (ETH_USDT, 2000%Q)];
     refresh_times := {[ BTC_USDT := 0%Q; ETH_USDT := 0%Q ]};
     sell_budgets := ∅;
     buy_budgets := ∅;
     volatility := {[ BTC_USDT := s_decimal_nan; ETH_USDT := s_decimal_nan ]};
     active_orders := [];
     current_timestamp := 0%Q |}.

(** What [create_budget_allocation] makes of [two_markets]: the portfolio
    is worth 30000 USDT, the portion of a market is 15000. *)
Definition two_markets_allocated : State :=
  set_budgets two_markets
    {[ BTC_USDT := 1%Q; ETH_USDT := 0%Q ]}
    {[ BTC_USDT := 0%Q; ETH_USDT := (30000 # 2)%Q ]}.

(** One live buy order on [ETH-USDT], 4000 seconds old, priced where the
    proposal prices its buy; the refresh time of the market is not reached. *)
Definition old_order : LimitOrder.t :=
  {| LimitOrder.trading_pair := ETH_USDT;
     LimitOrder.client_order_id := "o1";
     LimitOrder.price := (495 # 10)%Q;
     LimitOrder.quantity := 1%Q;
     LimitOrder.is_buy := true |}.

Definition age_4000 (o : LimitOrder.t) (now : Q) : Q := 4000%Q.

Definition old_order_state : State :=
  {| market_infos := [(ETH_USDT, 50%Q)];
     refresh_times := {[ ETH_USDT := 10000%Q ]};
     sell_budgets := {[ ETH_USDT := 1%Q ]};
     buy_budgets := {[ ETH_USDT := 1000%Q ]};
     volatility := {[ ETH_USDT := s_decimal_nan ]};
     active_orders := [old_order];
     current_timestamp := 100%Q |}.

Definition eth_proposal : Proposal :=
  {| market := ETH_USDT;
     buy := {| PriceSize.price := (495 # 10)%Q; PriceSize.size := 2%Q |};
     sell := {| PriceSize.price := (505 # 10)%Q; PriceSize.size := 2%Q |} |}.

(** Funding reports.  The three venues have the default interval of 8 hours,
    so that their rates normalize to 1e-6, 3e-6 and 2e-6 per second; the two
    venues of [equal_rates] have the same normalized rate. *)
Definition funding (r : Q) : FundingRateArbitrage.FundingInfo :=
  {| FundingRateArbitrage.rate := r;
     FundingRateArbitrage.next_funding_utc_timestamp := 0%Q |}.

Definition three_venues : list (string * FundingRateArbitrage.FundingInfo) :=
  [("v1", funding (288 # 10000)); ("v2", funding (864 # 10000));
   ("v3", funding (576 # 10000))]%Q.

Definition equal_rates : list (string * FundingRateArbitrage.FundingInfo) :=
  [("v1", funding (1 # 10000)); ("v2", funding (1 # 10000))]%Q.

(** A funding-rate arbitrage on the token WIF over two venues: venue
    [binance_perpetual] (interval 8 h) at rate 0 and [hyperliquid_perpetual]
    (interval 1 h) at rate 0.0001, a normalized diff of 0.0024 per day. *)
Definition fra_config : FundingRateArbitrage.FundingRateArbitrageConfig :=
  {| FundingRateArbitrage.leverage := 20;
     FundingRateArbitrage.min_funding_rate_profitability := (1 # 1000)%Q;
     FundingRateArbitrage.tokens := ["WIF"];
     FundingRateArbitrage.position_size_quote := 100%Q;
     FundingRateArbitrage.profitability_to_take_profit := (1 # 100)%Q;
     FundingRateArbitrage.funding_rate_diff_stop_loss := (- (1 # 1000))%Q;
     FundingRateArbitrage.trade_profitability_condition_to_enter := false |}.

Definition venue (r : Q) : FundingRateArbitrage.Connector :=
  {| FundingRateArbitrage.get_funding_info := fun _ => funding r;
     FundingRateArbitrage.get_fee := fun _ _ _ _ _ => (5 # 10000)%Q |}.

Definition venues : list (string * FundingRateArbitrage.Connector) :=
  [("binance_perpetual", venue 0%Q); ("hyperliquid_perpetual", venue (1 # 10000)%Q)].

(** Both venues at a funding rate of zero. *)
Definition flat_venues : list (string * FundingRateArbitrage.Connector) :=
  [("binance_perpetual", venue 0%Q); ("hyperliquid_perpetual", venue 0%Q)].

Definition provider : FundingRateArbitrage.MarketDataProvider :=
  {| FundingRateArbitrage.get_price_for_quote_volume := fun _ _ _ _ => 2%Q;
     FundingRateArbitrage.get_mid_price_by_type := fun _ _ => 2%Q |}.

Definition config_id_of (connector : string) (pair : Market) (side : TradeType) : string :=
  connector +:+ ":" +:+ trading_pair_name pair.

(** The open arbitrage of WIF, long on [binance_perpetual], with one funding
    payment received. *)
Definition wif_arbitrage (payment : Q) : FundingRateArbitrage.FundingArbitrageInfo :=
  {| FundingRateArbitrage.connector_1 := "binance_perpetual";
     FundingRateArbitrage.connector_2 := "hyperliquid_perpetual";
     FundingRateArbitrage.executors_ids := ["e1"; "e2"];
     FundingRateArbitrage.side := BUY;
     FundingRateArbitrage.funding_payments :=
       [ {| FundingRateArbitrage.payment_trading_pair := ("WIF", "USDT");
            FundingRateArbitrage.amount := payment |} ] |}.

(** Its two executors have a net PnL of 0.5 each; with the payment the
    combined PnL is [1 + payment]. *)
Definition open_state (payment : Q) : FundingRateArbitrage.State :=
  {| FundingRateArbitrage.active_funding_arbitrages := [("WIF", wif_arbitrage payment)];
     FundingRateArbitrage.stopped_funding_arbitrages := {[ "WIF" := [] ]};
     FundingRateArbitrage.all_executors :=
       [ {| FundingRateArbitrage.id := "e1"; FundingRateArbitrage.net_pnl_quote := (1 # 2)%Q |};
         {| FundingRateArbitrage.id := "e2"; FundingRateArbitrage.net_pnl_quote := (1 # 2)%Q |};
         {| FundingRateArbitrage.id := "e3"; FundingRateArbitrage.net_pnl_quote := 7%Q |} ];
     FundingRateArbitrage.current_timestamp := 1000%Q |}.

(** No arbitrage is open. *)
Definition idle_state : FundingRateArbitrage.State :=
  {| FundingRateArbitrage.active_funding_arbitrages := [];
     FundingRateArbitrage.stopped_funding_arbitrages := {[ "WIF" := [] ]};
     FundingRateArbitrage.all_executors := [];
     FundingRateArbitrage.current_timestamp := 1000%Q |}.

(** An entry threshold of 0.01 against two venues of the default interval
    whose normalized diff is 0.009 per day. *)
Definition gated_config : FundingRateArbitrage.FundingRateArbitrageConfig :=
  {| FundingRateArbitrage.leverage := 20;
     FundingRateArbitrage.min_funding_rate_profitability := (1 # 100)%Q;
     FundingRateArbitrage.tokens := ["WIF"];
     FundingRateArbitrage.position_size_quote := 100%Q;
     FundingRateArbitrage.profitability_to_take_profit := (1 # 100)%Q;
     FundingRateArbitrage.funding_rate_diff_stop_loss := (- (1 # 1000))%Q;
     FundingRateArbitrage.trade_profitability_condition_to_enter := false |}.

Definition close_venues : list (string * FundingRateArbitrage.Connector) :=
  [("v1", venue 0%Q); ("v2", venue (3 # 1000)%Q)].

(** The funding rates turned against the position of [wif_arbitrage]: the
    long venue at 0.002/3 per 8 h, the short venue at zero, a signed diff of
    -0.002 per day. *)
Definition reversed_venues : list (string * FundingRateArbitrage.Connector) :=
  [("binance_perpetual", venue (2 # 3000)%Q); ("hyperliquid_perpetual", venue 0%Q)].

(** The same account with BTC as the token: BTC is no quote token, the
    portfolio is worth 1 BTC and the portion of a market is 1/2 BTC. *)
Definition btc_config : Config :=
  {| token := "BTC";
     order_amount := 1%Q;
     spread := (1 # 100)%Q;
     dynamic_spread := false;
     order_refresh_time := 10%Q;
     order_refresh_tolerance_pct := (2 # 1000)%Q;
     volatility_interval := 300;
     avg_volatility_period := 10;
     volatility_to_spread_multiplier := 1%Q;
     max_spread := (-1)%Q;
     max_order_age := 3600%Q |}.

(** A configuration whose history holds [interval * periods] samples. *)
Definition window_config (interval periods : Z) : Config :=
  {| token := "USDT";
     order_amount := 100%Q;
     spread := (1 # 100)%Q;
     dynamic_spread := false;
     order_refresh_time := 10%Q;
     order_refresh_tolerance_pct := (2 # 1000)%Q;
     volatility_interval := interval;
     avg_volatility_period := periods;
     volatility_to_spread_multiplier := 1%Q;
     max_spread := (-1)%Q;
     max_order_age := 3600%Q |}.

(** The histories of [two_markets]: none for BTC yet, two samples for ETH. *)
Definition two_histories : gmap Market (list Q) :=
  {[ BTC_USDT := []; ETH_USDT := [1998%Q; 1999%Q] ]}.

(** [two_markets] with a live buy order of 2 ETH at 1900 and a live sell
    order of 1/2 BTC. *)
Definition eth_buy_order : LimitOrder.t :=
  {| LimitOrder.trading_pair := ETH_USDT;
     LimitOrder.client_order_id := "b1";
     LimitOrder.price := 1900%Q;
     LimitOrder.quantity := 2%Q;
     LimitOrder.is_buy := true |}.

Definition btc_sell_order : LimitOrder.t :=
  {| LimitOrder.trading_pair := BTC_USDT;
     LimitOrder.client_order_id := "s1";
     LimitOrder.price := 31000%Q;
     LimitOrder.quantity := (1 # 2)%Q;
     LimitOrder.is_buy := false |}.

Definition two_markets_with_orders : State :=
  {| market_infos := [(BTC_USDT, 30000%Q); (ETH_USDT, 2000%Q)];
     refresh_times := {[ BTC_USDT := 0%Q; ETH_USDT := 0%Q ]};
     sell_budgets := ∅;
     buy_budgets := ∅;
     volatility := {[ BTC_USDT := s_decimal_nan; ETH_USDT := s_decimal_nan ]};
     active_orders := [eth_buy_order; btc_sell_order];
     current_timestamp := 0%Q |}.

(** A live sell order of DOGE, which is no token of [two_markets]. *)
Definition doge_sell_order : LimitOrder.t :=
  {| LimitOrder.trading_pair := DOGE_USDT;
     LimitOrder.client_order_id := "s2";
     LimitOrder.price := (1 # 10)%Q;
     LimitOrder.quantity := 100%Q;
     LimitOrder.is_buy := false |}.

Definition two_markets_foreign_order : State :=
  {| market_infos := [(BTC_USDT, 30000%Q); (ETH_USDT, 2000%Q)];
     refresh_times := {[ BTC_USDT := 0%Q; ETH_USDT := 0%Q ]};
     sell_budgets := ∅;
     buy_budgets := ∅;
     volatility := {[ BTC_USDT := s_decimal_nan; ETH_USDT := s_decimal_nan ]};
     active_orders := [eth_buy_order; doge_sell_order];
     current_timestamp := 0%Q |}.

(** A fee of 0.1 % on every trade, and an account of 1 ETH and 50 USDT. *)
Definition flat_fee (base_token quote_token : string) (size price : Q) : Q :=
  (1 # 1000)%Q.

Definition eth_account : gmap string Q := {[ "ETH" := 1%Q; "USDT" := 50%Q ]}.

(** [fill_state] with a volatility of 2 % on its market. *)
Definition idle_market : State :=
  {| market_infos := [(ETH_USDT, 50%Q)];
     refresh_times := {[ ETH_USDT := 90%Q ]};
     sell_budgets := {[ ETH_USDT := 1%Q ]};
     buy_budgets := {[ ETH_USDT := 1000%Q ]};
     volatility := {[ ETH_USDT := Dec (2 # 100) ]};
     active_orders := [];
     current_timestamp := 100%Q |}.

Definition eth_buy_request : OrderRequest :=
  {| request_market := ETH_USDT; request_is_buy := true;
     request_size := 2%Q; request_price := (495 # 10)%Q |}.

(** Order books by whether they are empty: BTC is active with an empty
    book, ETH active with orders, DOGE on hold with orders again. *)
Definition books_active : list (Market * bool) :=
  [(BTC_USDT, true); (ETH_USDT, false)].

Definition books_on_hold : list (Market * bool) := [(DOGE_USDT, false)].

(** A fill of a RANGE order. *)
Definition range_fill : OrderFilledEvent :=
  {| order_id := "range-1"; trade_type := RANGE; fill_price := 50%Q; amount := 2%Q |}.

(** The endpoint answering every market id with one row: an ask spread of
    2 % and a bid spread of 1 %. *)
Definition band_row : SpreadData :=
  {| spread_ask := (2 # 100)%Q; spread_bid := (1 # 100)%Q; timestamp := 1700000000 |}.

Definition band_endpoint (market_id : Z) : Response :=
  HttpResponse 200 "success" [band_row].

Definition FIRO_USDT : Market := ("FIRO", "USDT").

(** [FIRO-USDT] and [DOGE-USDT] active with dynamic spreads. *)
Definition firo_doge_state : State :=
  {| market_infos := [(FIRO_USDT, 2%Q); (DOGE_USDT, (1 # 10)%Q)];
     refresh_times := {[ FIRO_USDT := 0%Q; DOGE_USDT := 0%Q ]};
     sell_budgets := ∅;
     buy_budgets := ∅;
     volatility := {[ FIRO_USDT := s_decimal_nan; DOGE_USDT := s_decimal_nan ]};
     active_orders := [];
     current_timestamp := 0%Q |}.

(** A funding payment of 3 USDT on the pair of WIF. *)
Definition wif_payment : FundingRateArbitrage.FundingPaymentCompletedEvent :=
  {| FundingRateArbitrage.payment_trading_pair := ("WIF", "USDT");
     FundingRateArbitrage.amount := 3%Q |}.

End Inputs.

(** * Properties *)

(** ** Facts about the Python preliminaries *)

Lemma bind_Ok {A B} (a : A) (f : A -> result B) : (Ok a ≫= f) = f a.
Proof. reflexivity. Qed.

(** Unfolds the binds of the error monad. *)
Ltac rsimpl := cbn [mbind result_bind mret result_ret] in *.

(** Splits a hypothesis [H : (m ≫= f) = Ok x] on the outcome of [m]. *)
Ltac inv_bind H :=
  lazymatch type of H with
  | (?m ≫= _) = Ok _ =>
      let E := fresh "E" in
      destruct m eqn:E; cbn [mbind result_bind] in H; [|discriminate H]
  end.

Lemma Qlt_bool_iff (a b : Q) : Qlt_bool a b = true <-> (a < b)%Q.
Proof.
  unfold Qlt_bool. rewrite negb_true_iff. split.
  - intros H. apply Qnot_le_lt. intros Hle. apply Qle_bool_iff in Hle. congruence.
  - intros H. destruct (Qle_bool b a) eqn:E; [|reflexivity].
    apply Qle_bool_iff in E. exfalso. apply (Qlt_not_le _ _ H E).
Qed.

Lemma Qlt_bool_false_iff (a b : Q) : Qlt_bool a b = false <-> (b <= a)%Q.
Proof.
  unfold Qlt_bool. rewrite negb_false_iff. apply Qle_bool_iff.
Qed.

Lemma div_Ok (x y v : Q) : div x y = Ok v -> ~ (y == 0)%Q /\ v = (x / y)%Q.
Proof.
  unfold div. destruct (Qeq_bool y 0) eqn:E.
  - destruct (Qeq_bool x 0); discriminate.
  - intros [= <-]. split; [|reflexivity]. intros H. apply Qeq_bool_iff in H. congruence.
Qed.

Lemma div_nonzero (x y : Q) : ~ (y == 0)%Q -> div x y = Ok (x / y)%Q.
Proof.
  intros H. unfold div. destruct (Qeq_bool y 0) eqn:E; [|reflexivity].
  apply Qeq_bool_iff in E. contradiction.
Qed.

Lemma sum_from (l : list Q) (a : Q) : (fold_left Qplus l a == a + sum l)%Q.
Proof.
  unfold sum. revert a. induction l as [|x l IH]; intros a; simpl.
  - lra.
  - rewrite (IH (a + x)%Q), (IH (0 + x)%Q). lra.
Qed.

Lemma sum_cons (x : Q) (l : list Q) : (sum (x :: l) == x + sum l)%Q.
Proof. unfold sum at 1. simpl. rewrite sum_from. lra. Qed.

Lemma sum_constant {A} (c : Q) (l : list A) :
  (sum (map (fun _ => c) l) == inject_Z (Z.of_nat (length l)) * c)%Q.
Proof.
  induction l as [|x l IH].
  - unfold sum; simpl. change (inject_Z (Z.of_nat 0)) with 0%Q. lra.
  - cbn [map length]. rewrite sum_cons, IH, Nat2Z.inj_succ.
    unfold Z.succ. rewrite inject_Z_plus. change (inject_Z 1) with 1%Q. lra.
Qed.

Lemma slice_inside {A} (l : list A) (a b : Z) :
  0 <= a -> a <= b -> b <= Z.of_nat (length l) ->
  slice l a b = firstn (Z.to_nat (b - a)) (skipn (Z.to_nat a) l).
Proof.
  intros Ha Hab Hb. unfold slice, slice_bound.
  destruct (Z.ltb_spec a 0); [lia|]. destruct (Z.ltb_spec b 0); [lia|].
  rewrite !Z.min_l by lia. reflexivity.
Qed.

Lemma slice_wrapped_empty {A} (l : list A) (a b : Z) :
  a < 0 -> 0 <= b -> b <= a + Z.of_nat (length l) -> slice l a b = [].
Proof.
  intros Ha Hb Hab. unfold slice, slice_bound.
  destruct (Z.ltb_spec a 0); [|lia]. destruct (Z.ltb_spec b 0); [lia|].
  replace (Z.to_nat _) with 0%nat by lia. reflexivity.
Qed.

Lemma range_down (start stop w : Z) :
  0 < w ->
  range start stop (w * -1) =
  Ok (map (fun k : nat => start + Z.of_nat k * (w * -1))
          (seq 0 (Z.to_nat ((start - stop + w - 1) / w)))).
Proof.
  intros Hw. unfold range.
  destruct (Z.eqb_spec (w * -1) 0); [lia|].
  destruct (Z.ltb_spec 0 (w * -1)); [lia|].
  replace (start - stop - w * -1 - 1) with (start - stop + w - 1) by lia.
  replace (- (w * -1)) with w by lia. reflexivity.
Qed.

(** ** The volatility estimator *)

Section VolatilityFacts.
Import Volatility.

Variable w : Z.
Hypothesis w_pos : 0 < w.
Variable mid_prices : list Q.

Let n := Z.of_nat (length mid_prices).

Lemma window_length (j : nat) :
  (Z.of_nat j + 1) * w <= n -> length (window w mid_prices j) = Z.to_nat w.
Proof.
  intros Hj. unfold window. rewrite length_take, length_drop. fold n. nia.
Qed.

Lemma slice_is_window (j : nat) :
  (Z.of_nat j + 1) * w <= n ->
  slice mid_prices ((n - 1 + Z.of_nat j * (w * -1)) - w + 1)
                   ((n - 1 + Z.of_nat j * (w * -1)) + 1)
  = window w mid_prices j.
Proof.
  intros Hj. rewrite slice_inside; fold n; try nia.
  unfold window. fold n. f_equal; [lia|]. f_equal. lia.
Qed.

Lemma atr_loop_windows (c : nat) : forall (j0 : nat) (atr : list Q) (rest : list Z),
  Z.of_nat (j0 + c) * w <= n ->
  atr_loop mid_prices w
    (map (fun k : nat => n - 1 + Z.of_nat k * (w * -1)) (seq j0 c) ++ rest) atr
  = (rs ← traverse (fun j => range_ratio (window w mid_prices j)) (seq j0 c);
     atr_loop mid_prices w rest (atr ++ rs)).
Proof.
  induction c as [|c IH]; intros j0 atr rest Hc; simpl.
  - rewrite app_nil_r. reflexivity.
  - rewrite slice_is_window by nia.
    pose proof (window_length j0 ltac:(nia)) as Hlen.
    destruct (window w mid_prices j0) as [|p ps] eqn:Hw; simpl in *; [lia|].
    destruct (div _ _) as [r|e]; simpl; [|reflexivity].
    rewrite IH by nia.
    destruct (traverse _ (seq (S j0) c)) as [rs|e]; simpl; [|reflexivity].
    rewrite <- app_assoc. reflexivity.
Qed.

(** The loop visits the full windows and, at most, one further index whose
    slice is empty. *)
Lemma atr_loop_break (c k : nat) :
  Z.of_nat k * w <= n ->
  c = k \/
  (c = S k /\
   slice mid_prices ((n - 1 + Z.of_nat k * (w * -1)) - w + 1)
                    ((n - 1 + Z.of_nat k * (w * -1)) + 1) = []) ->
  atr_loop mid_prices w
    (map (fun j : nat => n - 1 + Z.of_nat j * (w * -1)) (seq 0 c)) []
  = traverse (fun j => range_ratio (window w mid_prices j)) (seq 0 k).
Proof.
  intros Hk [->|[-> Hempty]].
  - rewrite <- (app_nil_r (map _ _)), atr_loop_windows by (simpl; lia).
    destruct (traverse _ _); reflexivity.
  - rewrite seq_S, map_app, atr_loop_windows by (simpl; lia).
    destruct (traverse _ _) as [rs|e]; simpl; [|reflexivity].
    rewrite Hempty. reflexivity.
Qed.

Lemma loop_count (periods : Z) :
  2 <= w -> w <= n \/ n <= 1 ->
  let c := Z.to_nat ((n - 1 - Z.max (n - 1 - w * periods) 0 + w - 1) / w) in
  let k := Z.to_nat (Z.min periods (n / w)) in
  Z.of_nat k * w <= n /\
  (c = k \/
   (c = S k /\
    slice mid_prices ((n - 1 + Z.of_nat k * (w * -1)) - w + 1)
                     ((n - 1 + Z.of_nat k * (w * -1)) + 1) = [])).
Proof.
  intros Hw Hn c k.
  assert (Hn0 : 0 <= n) by (unfold n; lia).
  pose proof (Z.div_mod n w ltac:(lia)) as Hdm.
  pose proof (Z.mod_pos_bound n w ltac:(lia)) as Hr.
  set (d := n / w) in *. set (r := n mod w) in *.
  assert (Hd0 : 0 <= d) by (apply Z.div_pos; lia).
  assert (Hk : Z.of_nat k * w <= n) by (unfold k; nia).
  split; [exact Hk|].
  destruct Hn as [Hn|Hn].
  - destruct (Z.le_gt_cases periods 0) as [Hp|Hp].
    + left. unfold c, k.
      rewrite Z.max_l by nia.
      assert ((n - 1 - (n - 1 - w * periods) + w - 1) / w < 1)
        by (apply Z.div_lt_upper_bound; nia).
      lia.
    + destruct (Z.le_gt_cases 0 (n - 1 - w * periods)) as [Hf|Hf].
      * left. unfold c, k.
        rewrite Z.max_l by lia.
        assert ((n - 1 - (n - 1 - w * periods) + w - 1) / w = periods) as ->
          by (symmetry; apply (Z.div_unique _ _ _ (w - 1)); lia).
        assert (periods <= d) by nia.
        rewrite Z.min_l by lia. reflexivity.
      * assert (d <= periods) by nia.
        unfold c, k. rewrite Z.max_r by lia. rewrite Z.min_r by lia.
        destruct (Z.le_gt_cases r 1) as [Hr1|Hr1].
        -- left.
           assert ((n - 1 - 0 + w - 1) / w = d) as ->
             by (symmetry; apply (Z.div_unique _ _ _ (r + w - 2)); lia).
           reflexivity.
        -- right.
           assert ((n - 1 - 0 + w - 1) / w = d + 1) as ->
             by (symmetry; apply (Z.div_unique _ _ _ (r - 2)); lia).
           split; [lia|].
           apply slice_wrapped_empty; fold n; rewrite Z2Nat.id by lia; nia.
  - left. unfold c, k.
    assert ((n - 1 - Z.max (n - 1 - w * periods) 0 + w - 1) / w < 1)
      by (apply Z.div_lt_upper_bound; lia).
    assert (d = 0) by (unfold d; apply Z.div_small; lia).
    lia.
Qed.

End VolatilityFacts.

(** The loop of [update_volatility] computes the estimator of the specification. *)
Lemma market_volatility_refines
        (volatility_interval avg_volatility_period : Z) (mid_prices : list Q) :
  2 <= volatility_interval ->
  volatility_interval <= Z.of_nat (length mid_prices)
  \/ Z.of_nat (length mid_prices) <= 1 ->
  Volatility.market_volatility volatility_interval avg_volatility_period mid_prices
  = Volatility.mean_range_ratio volatility_interval avg_volatility_period mid_prices.
Proof.
  intros Hw Hn.
  unfold Volatility.market_volatility, Volatility.mean_range_ratio,
    Volatility.full_windows.
  rewrite range_down by lia. rewrite bind_Ok.
  destruct (loop_count volatility_interval ltac:(lia) mid_prices
              avg_volatility_period Hw Hn)
    as [Hk Hc].
  rewrite (atr_loop_break volatility_interval ltac:(lia) mid_prices _ _ Hk Hc).
  reflexivity.
Qed.

(** C1 (amended): with [volatility_interval >= 2], for a buffer holding at
    least one full window (or at most one sample), [update_volatility] leaves
    for the market what the estimator of the specification computes: the mean
    of [(max - min) / min] over the full windows of length
    [volatility_interval] walking backward from the newest sample, at most
    [avg_volatility_period] of them, NaN when there is none, a trailing
    shorter window being skipped; a window whose minimum is zero raises the
    division error of the decimal context in both. *)
Theorem update_volatility_mean_range_ratio
        (volatility_interval avg_volatility_period : Z) (mid_prices : list Q) :
  2 <= volatility_interval ->
  volatility_interval <= Z.of_nat (length mid_prices)
  \/ Z.of_nat (length mid_prices) <= 1 ->
  Volatility.market_volatility volatility_interval avg_volatility_period mid_prices
  = Volatility.mean_range_ratio volatility_interval avg_volatility_period mid_prices.
Proof.
  intros Hw Hn.
  unfold Volatility.market_volatility, Volatility.mean_range_ratio,
    Volatility.full_windows.
  rewrite range_down by lia. rewrite bind_Ok.
  destruct (loop_count volatility_interval ltac:(lia) mid_prices
              avg_volatility_period Hw Hn)
    as [Hk Hc].
  rewrite (atr_loop_break volatility_interval ltac:(lia) mid_prices _ _ Hk Hc).
  reflexivity.
Qed.

Lemma update_volatility_mean_range_ratio_witness :
  2 <= 2
  /\ (2 <= Z.of_nat (length [1; 2; 3; 4; 6]%Q) \/ Z.of_nat (length [1; 2; 3; 4; 6]%Q) <= 1)
  /\ Volatility.market_volatility 2 2 [1; 2; 3; 4; 6]%Q
     = Volatility.mean_range_ratio 2 2 [1; 2; 3; 4; 6]%Q.
Proof.
  assert (H1 : 2 <= 2) by lia.
  assert (H2 : 2 <= Z.of_nat (length [1; 2; 3; 4; 6]%Q)
               \/ Z.of_nat (length [1; 2; 3; 4; 6]%Q) <= 1) by (left; simpl; lia).
  split; [exact H1|]. split; [exact H2|].
  exact (update_volatility_mean_range_ratio 2 2 [1; 2; 3; 4; 6]%Q H1 H2).
Defined.

(** On the five samples 1, 2, 3, 4, 6 with an interval of 2 the windows are
    [4; 6] and [2; 3], the oldest sample is skipped, and the volatility is the
    mean of 2/4 and 1/2. *)
Example market_volatility_two_windows :
  exists v, Volatility.market_volatility 2 5 [1; 2; 3; 4; 6]%Q = Ok (Dec v)
            /\ (v == ((6 - 4) / 4 + (3 - 2) / 2) / 2)%Q.
Proof. eexists. split; [vm_compute; reflexivity|reflexivity]. Qed.

(** A buffer of at most one sample has no window and no volatility. *)
Lemma market_volatility_single_sample (w periods : Z) (p : Q) :
  2 <= w ->
  Volatility.market_volatility w periods [p] = Ok s_decimal_nan
  /\ Volatility.market_volatility w periods [] = Ok s_decimal_nan.
Proof.
  intros Hw. split.
  - rewrite market_volatility_refines by (simpl; lia).
    unfold Volatility.mean_range_ratio, Volatility.full_windows.
    cbn [length]. rewrite Z.div_small by lia.
    replace (Z.to_nat (Z.min periods 0)) with 0%nat by lia. reflexivity.
  - rewrite market_volatility_refines by (simpl; lia).
    unfold Volatility.mean_range_ratio, Volatility.full_windows.
    cbn [length]. rewrite Z.div_small by lia.
    replace (Z.to_nat (Z.min periods 0)) with 0%nat by lia. reflexivity.
Qed.

(** Prices above zero never raise: the minimum of a window is one of its
    samples. *)
Lemma min_in (p : Q) (ps : list Q) : In (min p ps) (p :: ps).
Proof.
  unfold min. revert p. induction ps as [|x ps IH]; intros p; cbn [fold_left].
  - left. reflexivity.
  - destruct (Qlt_bool x p).
    + right. apply IH.
    + destruct (IH p) as [H|H]; [left; exact H|right; right; exact H].
Qed.

Lemma window_incl (w : Z) (mid_prices : list Q) (j : nat) (x : Q) :
  In x (Volatility.window w mid_prices j) -> In x mid_prices.
Proof.
  unfold Volatility.window. intros H.
  apply list_elem_of_In in H. apply list_elem_of_In.
  eapply subseteq_drop, subseteq_take, H.
Qed.

Lemma mean_range_ratio_positive (w periods : Z) (mid_prices : list Q) :
  0 < w ->
  (forall x, In x mid_prices -> (0 < x)%Q) ->
  exists ratios,
    Py.traverse (fun j => Volatility.range_ratio (Volatility.window w mid_prices j))
      (seq 0 (Volatility.full_windows w periods mid_prices)) = Ok ratios
    /\ length ratios = Volatility.full_windows w periods mid_prices
    /\ Volatility.mean_range_ratio w periods mid_prices
       = Ok (match ratios with [] => s_decimal_nan | _ => Dec (mean ratios) end).
Proof.
  intros Hw Hpos. unfold Volatility.mean_range_ratio.
  assert (Hfull : forall j, (j < Volatility.full_windows w periods mid_prices)%nat ->
            (Z.of_nat j + 1) * w <= Z.of_nat (length mid_prices)).
  { intros j Hj. unfold Volatility.full_windows in Hj.
    pose proof (Z.mul_div_le (Z.of_nat (length mid_prices)) w Hw). nia. }
  assert (Hall : forall l, (forall j, In j l ->
                              (j < Volatility.full_windows w periods mid_prices)%nat) ->
            exists ratios,
              Py.traverse (fun j => Volatility.range_ratio (Volatility.window w mid_prices j)) l
              = Ok ratios /\ length ratios = length l).
  { induction l as [|j l IH]; intros Hl.
    - exists []. split; reflexivity.
    - destruct (IH (fun j' Hj' => Hl j' (or_intror Hj'))) as (rs & Hrs & Hlen).
      pose proof (window_length w Hw mid_prices j (Hfull j (Hl j (or_introl eq_refl)))) as Hwl.
      assert (Hstep : exists r,
                 Volatility.range_ratio (Volatility.window w mid_prices j) = Ok r).
      { unfold Volatility.range_ratio.
        destruct (Volatility.window w mid_prices j) as [|p ps] eqn:Ewin; [cbn in Hwl; lia|].
        rewrite div_nonzero; [eauto|].
        assert (Hmin : (0 < min p ps)%Q).
        { apply Hpos. apply (window_incl w mid_prices j). rewrite Ewin. apply min_in. }
        intros H0. rewrite H0 in Hmin. apply (Qlt_irrefl 0). exact Hmin. }
      destruct Hstep as [r Hstep]. cbn [Py.traverse]. rewrite Hstep. rsimpl.
      rewrite Hrs. rsimpl. exists (r :: rs).
      split; [reflexivity|]. cbn [length]. rewrite Hlen. reflexivity. }
  destruct (Hall (seq 0 (Volatility.full_windows w periods mid_prices))) as (rs & Hrs & Hlen).
  { intros j Hj. apply in_seq in Hj. lia. }
  exists rs. split; [exact Hrs|]. split; [rewrite Hlen; apply length_seq|].
  rewrite Hrs. rsimpl. destruct rs; reflexivity.
Qed.

(** The volatility map after [update_volatility]. *)
Lemma record_volatility_fold (w periods : Z) (l : list (Market * list Q)) :
  forall vol vol',
    foldM (Volatility.record_volatility w periods) l vol = Ok vol' ->
    NoDup (map fst l) ->
    (forall m, ~ In m (map fst l) -> vol' !! m = vol !! m)
    /\ (forall m ps, In (m, ps) l -> vol !! m = Some s_decimal_nan ->
          exists v, Volatility.market_volatility w periods ps = Ok v /\ vol' !! m = Some v).
Proof.
  induction l as [|[m0 ps0] l IH]; intros vol vol' H Hnd.
  - injection H as <-. split; [auto|]. intros ? ? [].
  - inversion Hnd as [|? ? Hnotin Hnd']; subst. rewrite list_elem_of_In in Hnotin.
    cbn [foldM] in H. inv_bind H. rename a into vol1.
    unfold Volatility.record_volatility in E. inv_bind E. rename a into v0.
    destruct (IH _ _ H Hnd') as [Hout Hin].
    assert (Hvol1 : forall m, m <> m0 -> vol1 !! m = vol !! m).
    { intros m Hne. destruct v0; injection E as <-; [reflexivity|].
      apply lookup_insert_ne. congruence. }
    split.
    + intros m Hm. cbn [map fst In] in Hm. rewrite Hout by tauto.
      apply Hvol1. intros ->. tauto.
    + intros m ps [[= <- <-]|Hitem] Hnan.
      * exists v0. split; [exact E0|]. rewrite (Hout m0 Hnotin).
        destruct v0; injection E as <-; [exact Hnan|apply lookup_insert_eq].
      * apply (Hin m ps Hitem). rewrite Hvol1; [exact Hnan|].
        intros ->. apply Hnotin. apply (in_map fst _ _ Hitem).
Qed.

Lemma update_volatility_lookup (w periods : Z) (markets : list Market)
      (mid_prices : list (Market * list Q)) (vol : gmap Market Decimal) m ps :
  NoDup (map fst mid_prices) ->
  In m markets -> In (m, ps) mid_prices ->
  Volatility.update_volatility w periods markets mid_prices = Ok vol ->
  exists v, Volatility.market_volatility w periods ps = Ok v /\ vol !! m = Some v.
Proof.
  intros Hnd Hm Hps H. unfold Volatility.update_volatility in H.
  destruct (record_volatility_fold w periods mid_prices _ _ H Hnd) as [_ Hin].
  apply (Hin m ps Hps). clear - Hm.
  induction markets as [|m0 ms IH]; [destruct Hm|]. simpl.
  destruct (decide (m0 = m)) as [->|Hne].
  - apply lookup_insert_eq.
  - rewrite lookup_insert_ne by exact Hne. apply IH. destruct Hm; congruence.
Qed.

(** C1 as stated fails twice.  With an interval of 5 the three samples
    1, 2, 3 hold no full window, yet the negative slice start wraps around,
    the slice is [2; 3] and the volatility is 1/2, not NaN.  With an interval
    of 2 the window [0; 1] has minimum 0 and the division raises. *)
Lemma update_volatility_short_buffer_and_zero_minimum :
  Volatility.full_windows 5 2 [1; 2; 3]%Q = 0%nat
  /\ slice [1; 2; 3]%Q (2 - 5 + 1) (2 + 1) = [2; 3]%Q
  /\ Volatility.market_volatility 5 2 [1; 2; 3]%Q = Ok (Dec (1 # 2))
  /\ Volatility.market_volatility 5 2 [1; 2; 3]%Q <> Ok s_decimal_nan
  /\ Volatility.window 2 [0; 1]%Q 0 = [0; 1]%Q
  /\ Volatility.market_volatility 2 2 [0; 1]%Q = Raise DivisionByZero
  /\ Volatility.market_volatility 2 2 [0; 1]%Q <> Ok s_decimal_nan.
Proof.
  repeat split; try (vm_compute; reflexivity); vm_compute; discriminate.
Qed.

(** ** Fill handling *)

Section FillFacts.
Import LiquidityMining.

Variable tracker : string -> option Market.

(** C10: a fill of a tracked order of market [m], of amount [a] at price
    [p], moves exactly [a * p] out of the buy budget of [m] and [a] into its
    sell budget when it is a BUY, the other way round when it is a SELL, and
    leaves the budgets of every other market as they were. *)
Theorem did_fill_order_updates_budgets
        (st : State) (event : OrderFilledEvent) (m : Market) (b s : Q) :
  tracker (order_id event) = Some m ->
  buy_budgets st !! m = Some b ->
  sell_budgets st !! m = Some s ->
  exists st',
    did_fill_order tracker st event = Ok st'
    /\ (trade_type event = BUY ->
        buy_budgets st' !! m = Some (b - amount event * fill_price event)%Q
        /\ sell_budgets st' !! m = Some (s + amount event)%Q)
    /\ (trade_type event = SELL ->
        sell_budgets st' !! m = Some (s - amount event)%Q
        /\ buy_budgets st' !! m = Some (b + amount event * fill_price event)%Q)
    /\ (forall m', m' <> m ->
        buy_budgets st' !! m' = buy_budgets st !! m'
        /\ sell_budgets st' !! m' = sell_budgets st !! m').
Proof.
  intros Hm Hb Hs. unfold did_fill_order, getitem. rewrite Hm.
  destruct (trade_type event) eqn:Ht; rewrite Hb, Hs; simpl;
    eexists; (split; [reflexivity|]); simpl;
    (split; [intros; try discriminate; split; apply lookup_insert_eq|]);
    (split; [intros; try discriminate; split; apply lookup_insert_eq|]);
    intros m' Hne; split; apply lookup_insert_ne; congruence.
Qed.

End FillFacts.

Lemma did_fill_order_updates_budgets_witness :
  Inputs.eth_tracker (LiquidityMining.order_id Inputs.buy_fill) = Some Inputs.ETH_USDT
  /\ LiquidityMining.buy_budgets Inputs.fill_state !! Inputs.ETH_USDT = Some 1000%Q
  /\ LiquidityMining.sell_budgets Inputs.fill_state !! Inputs.ETH_USDT = Some 1%Q
  /\ exists st',
      LiquidityMining.did_fill_order Inputs.eth_tracker Inputs.fill_state
        Inputs.buy_fill = Ok st'
      /\ LiquidityMining.buy_budgets st' !! Inputs.ETH_USDT = Some (1000 - 2 * 50)%Q
      /\ LiquidityMining.sell_budgets st' !! Inputs.ETH_USDT = Some (1 + 2)%Q.
Proof.
  assert (H1 : Inputs.eth_tracker (LiquidityMining.order_id Inputs.buy_fill)
               = Some Inputs.ETH_USDT) by reflexivity.
  assert (H2 : LiquidityMining.buy_budgets Inputs.fill_state !! Inputs.ETH_USDT
               = Some 1000%Q) by (vm_compute; reflexivity).
  assert (H3 : LiquidityMining.sell_budgets Inputs.fill_state !! Inputs.ETH_USDT
               = Some 1%Q) by (vm_compute; reflexivity).
  destruct (did_fill_order_updates_budgets Inputs.eth_tracker Inputs.fill_state
              Inputs.buy_fill Inputs.ETH_USDT 1000%Q 1%Q H1 H2 H3)
    as (st' & Hrun & Hbuy & _ & _).
  repeat split; try assumption.
  exists st'. destruct (Hbuy eq_refl) as [Hb Hs]. repeat split; assumption.
Defined.

(** ** Proposal creation with the dynamic spread *)

(** Every failure of the fetch is reported as no data. *)
Lemma get_spread_failed_fetch (http_get : Z -> MinerMarketBandDataFeed.Response)
      (connector trading_pair : string) (data : MinerMarketBandDataFeed.SpreadData) :
  MinerMarketBandDataFeed.get_spread http_get connector trading_pair = Some data ->
  exists market_id rest,
    default ∅ (MinerMarketBandDataFeed.miner_market !! lower connector) !! upper trading_pair
    = Some market_id
    /\ http_get market_id = MinerMarketBandDataFeed.HttpResponse 200 "success" (data :: rest).
Proof.
  unfold MinerMarketBandDataFeed.get_spread.
  destruct (default ∅ _ !! upper trading_pair) as [market_id|] eqn:Eid; [|discriminate].
  destruct (http_get market_id) as [|status api_status rows] eqn:Ehttp; [discriminate|].
  destruct (Z.eqb_spec status 200) as [->|]; [|discriminate]. cbn [negb].
  destruct (String.eqb_spec api_status "success") as [->|]; [|discriminate]. cbn [negb].
  destruct rows as [|first rest]; [discriminate|].
  intros [= <-]. exists market_id, rest. split; [reflexivity|exact Ehttp].
Qed.

(** Two positional arguments leave [trading_pair] without a value. *)
Lemma call_get_spread_two_arguments (http_get : Z -> MinerMarketBandDataFeed.Response)
      (a b : MinerMarketBandDataFeed.Argument) :
  MinerMarketBandDataFeed.call_get_spread http_get [a; b] = Raise TypeError.
Proof. reflexivity. Qed.

(** The first active market ends the loop of [create_base_proposals_dynamic]. *)
Lemma dynamic_loop_raises
      (exchange : LiquidityMining.Exchange) (cfg : LiquidityMining.Config)
      (http_get : Z -> MinerMarketBandDataFeed.Response) (st : LiquidityMining.State)
      (mi : Market * Q) (rest : list (Market * Q))
      (acc : list Proposal * list LogRecord) :
  foldM (LiquidityMining.add_dynamic_proposal exchange cfg http_get st) (mi :: rest) acc
  = Raise TypeError.
Proof.
  destruct acc as [proposals log], mi as [m mid]. cbn [foldM].
  unfold LiquidityMining.add_dynamic_proposal.
  rewrite call_get_spread_two_arguments. reflexivity.
Qed.

(** C2 (the code at the failing input): with [dynamic_spread] on and the one
    active market [DOGE-USDT] on [binance], for which the feed has no market
    id and so no data whatever the HTTP endpoint answers, proposal creation
    raises [TypeError]: [get_spread] is called on the class with the name of
    the exchange and the market, which leaves its parameter [trading_pair]
    without a value.  No warning is logged and no proposal is returned, while
    the static path on the same state prices one at the configured spread. *)
Theorem create_base_proposals_dynamic_without_data
        (http_get : Z -> MinerMarketBandDataFeed.Response) (balances : string -> Q) :
  MinerMarketBandDataFeed.get_spread http_get "binance" "DOGE-USDT" = None
  /\ MinerMarketBandDataFeed.call_get_spread http_get
       [MinerMarketBandDataFeed.Str "binance"; MinerMarketBandDataFeed.Str "DOGE-USDT"]
     = Raise TypeError
  /\ LiquidityMining.create_base_proposals (Inputs.binance balances)
       (Inputs.lm_config true) http_get Inputs.doge_state
     = Raise TypeError
  /\ LiquidityMining.create_base_proposals_static (Inputs.binance balances)
       (Inputs.lm_config false) Inputs.doge_state
     = Ok [ {| market := Inputs.DOGE_USDT;
               buy := {| PriceSize.price := (1 # 10) * (1 - (1 # 100));
                         PriceSize.size := 100 / ((1 # 10) * (1 - (1 # 100))) |};
               sell := {| PriceSize.price := (1 # 10) * (1 + (1 # 100));
                          PriceSize.size := 100 / ((1 # 10) * (1 + (1 # 100))) |} |} ]%Q.
Proof.
  split.
  { unfold MinerMarketBandDataFeed.get_spread.
    replace (default ∅ (MinerMarketBandDataFeed.miner_market !! lower "binance")
               !! upper "DOGE-USDT") with (@None Z) by (vm_compute; reflexivity).
    reflexivity. }
  split; [reflexivity|]. split.
  - unfold LiquidityMining.create_base_proposals. cbn [Inputs.lm_config
      LiquidityMining.dynamic_spread].
    unfold LiquidityMining.create_base_proposals_dynamic.
    change (LiquidityMining.market_infos Inputs.doge_state)
      with [(Inputs.DOGE_USDT, (1 # 10)%Q)].
    apply dynamic_loop_raises.
  - vm_compute. reflexivity.
Qed.

(** ** Budget allocation *)

Section BudgetFacts.
Import LiquidityMining.

Variable exchange : Exchange.
Variable cfg : Config.
Variable st : State.
Variable market_portion : Q.
Variable balances : gmap string Q.

Lemma zero_budgets_lookup (m : Market) :
  In m (map fst (market_infos st)) -> zero_budgets st !! m = Some 0%Q.
Proof.
  unfold zero_budgets. induction (market_infos st) as [|[m0 mid] ms IH]; simpl.
  - intros [].
  - intros Hin. destruct (decide (m0 = m)) as [->|Hne].
    + apply lookup_insert_eq.
    + rewrite lookup_insert_ne by exact Hne. apply IH. destruct Hin; congruence.
Qed.

Local Abbreviation allocated := (LiquidityMining.allocated cfg st market_portion balances).

Lemma allocate_market_effect sells buys sells' buys' m mid :
  allocate_market cfg st market_portion balances (sells, buys) (m, mid)
  = Ok (sells', buys') ->
  sells !! m = Some 0%Q -> buys !! m = Some 0%Q ->
  (exists s b, sells' !! m = Some s /\ buys' !! m = Some b /\ allocated m mid s b)
  /\ (forall m', m' <> m -> sells' !! m' = sells !! m' /\ buys' !! m' = buys !! m').
Proof.
  unfold allocate_market, allocated, getitem. intros H Hs Hb.
  destruct (is_token_a_quote_token cfg st).
  - destruct (balances !! base m) as [bal|]; rsimpl; [|discriminate].
    destruct (Qlt_bool 0 (market_portion - bal * mid)) eqn:E;
      injection H as <- <-;
      (split; [|intros m' Hne; rewrite ?lookup_insert_ne by congruence; auto]).
    + exists bal, (market_portion - bal * mid)%Q. rewrite !lookup_insert_eq.
      repeat split. exists bal. rewrite E. auto.
    + exists bal, 0%Q. rewrite lookup_insert_eq.
      repeat split; [exact Hb|]. exists bal. rewrite E. auto.
  - destruct (balances !! quote m) as [bal|]; rsimpl; [|discriminate].
    destruct (div bal mid) as [v|] eqn:Ev; rsimpl; [|discriminate].
    apply div_Ok in Ev as [Hmid ->].
    destruct (Qlt_bool 0 (market_portion - bal / mid)) eqn:E;
      injection H as <- <-;
      (split; [|intros m' Hne; rewrite ?lookup_insert_ne by congruence; auto]).
    + exists (market_portion - bal / mid)%Q, bal. rewrite !lookup_insert_eq.
      repeat split. exists bal. rewrite E. auto.
    + exists 0%Q, bal. rewrite lookup_insert_eq.
      repeat split; [exact Hs|]. exists bal. rewrite E. auto.
Qed.

Lemma allocate_fold (ms : list (Market * Q)) :
  forall sells buys sells' buys',
    foldM (allocate_market cfg st market_portion balances) ms (sells, buys)
    = Ok (sells', buys') ->
    NoDup (map fst ms) ->
    (forall m, In m (map fst ms) -> sells !! m = Some 0%Q /\ buys !! m = Some 0%Q) ->
    (forall m mid, In (m, mid) ms ->
       exists s b, sells' !! m = Some s /\ buys' !! m = Some b /\ allocated m mid s b)
    /\ (forall m, ~ In m (map fst ms) ->
          sells' !! m = sells !! m /\ buys' !! m = buys !! m).
Proof.
  induction ms as [|[m0 mid0] ms IH]; intros sells buys sells' buys' H Hnd Hzero.
  - injection H as <- <-. split; [intros ? ? []|auto].
  - cbn [foldM] in H. inv_bind H. destruct a as [sells1 buys1].
    inversion Hnd as [|? ? Hnotin Hnd']; subst.
    rewrite list_elem_of_In in Hnotin.
    destruct (Hzero m0 (or_introl eq_refl)) as [Hs0 Hb0].
    destruct (allocate_market_effect _ _ _ _ _ _ E Hs0 Hb0) as [Hm0 Hother].
    destruct (IH _ _ _ _ H Hnd') as [Hin Hout].
    { intros m Hm. destruct (Hother m) as [-> ->].
      - intros ->. contradiction.
      - apply Hzero. right. exact Hm. }
    split.
    + intros m mid [[= <- <-]|Hm].
      * destruct (Hout m0 Hnotin) as [-> ->]. exact Hm0.
      * eapply Hin; eassumption.
    + intros m Hm. cbn [map fst In] in Hm.
      destruct (Hout m) as [-> ->]; [tauto|]. apply Hother. intros ->. tauto.
Qed.

End BudgetFacts.

(** What a run of [create_budget_allocation] that returns leaves behind. *)
Lemma budget_allocation_result
        (exchange : LiquidityMining.Exchange) (cfg : LiquidityMining.Config)
        (st st' : LiquidityMining.State) :
  NoDup (map fst (LiquidityMining.market_infos st)) ->
  LiquidityMining.create_budget_allocation exchange cfg st = Ok st' ->
  exists (portfolio_value market_portion : Q) (balances : gmap string Q),
    LiquidityMining.total_port_value_in_token exchange cfg st = Ok portfolio_value
    /\ LiquidityMining.adjusted_available_balances exchange st = Ok balances
    /\ (market_portion
        == portfolio_value
           / inject_Z (Z.of_nat (length (LiquidityMining.market_infos st))))%Q
    /\ (sum (map (fun _ => market_portion) (LiquidityMining.market_infos st))
        == portfolio_value)%Q
    /\ forall m mid, In (m, mid) (LiquidityMining.market_infos st) ->
       exists s b,
         LiquidityMining.sell_budgets st' !! m = Some s
         /\ LiquidityMining.buy_budgets st' !! m = Some b
         /\ if LiquidityMining.is_token_a_quote_token cfg st then
              exists bal, balances !! base m = Some bal /\ s = bal
                /\ (0 <= b)%Q
                /\ (market_portion <= b + s * mid)%Q
                /\ ((bal * mid <= market_portion)%Q -> (b + s * mid == market_portion)%Q)
                /\ ((market_portion <= bal * mid)%Q -> (b + s * mid == bal * mid)%Q)
            else
              exists bal, balances !! quote m = Some bal /\ b = bal
                /\ (0 <= s)%Q
                /\ (market_portion <= b / mid + s)%Q
                /\ ((bal / mid <= market_portion)%Q -> (b / mid + s == market_portion)%Q)
                /\ ((market_portion <= bal / mid)%Q -> (b / mid + s == bal / mid)%Q).
Proof.
  intros Hnd H. unfold LiquidityMining.create_budget_allocation in H.
  cbv zeta in H. inv_bind H. rename a into P, E into HP.
  inv_bind H. rename a into portion, E into Hportion.
  inv_bind H. rename a into balances, E into Hbal.
  inv_bind H. destruct a as [sells buys]. injection H as <-.
  apply div_Ok in Hportion as [HN ->].
  exists P, (P / inject_Z (Z.of_nat (length (LiquidityMining.market_infos st))))%Q, balances.
  split; [reflexivity|]. split; [reflexivity|]. split; [reflexivity|]. split.
  { rewrite sum_constant. field. exact HN. }
  intros m mid Hin.
  destruct (allocate_fold cfg st _ balances _ _ _ _ _ E Hnd) as [Hall _].
  { intros m0 Hm0. split; apply zero_budgets_lookup; exact Hm0. }
  destruct (Hall m mid Hin) as (s & b & Hs & Hb & Halloc).
  exists s, b. cbn [LiquidityMining.sell_budgets LiquidityMining.buy_budgets
                    LiquidityMining.set_budgets fst snd].
  split; [exact Hs|]. split; [exact Hb|].
  unfold LiquidityMining.allocated in Halloc.
  set (portion := (P / inject_Z (Z.of_nat (length (LiquidityMining.market_infos st))))%Q) in *.
  destruct (LiquidityMining.is_token_a_quote_token cfg st).
  - destruct Halloc as (bal & Hbal' & -> & ->). exists bal.
    split; [exact Hbal'|]. split; [reflexivity|].
    destruct (Qlt_bool 0 (portion - bal * mid)) eqn:E0.
    + apply Qlt_bool_iff in E0. repeat split; intros; lra.
    + apply Qlt_bool_false_iff in E0. repeat split; intros; lra.
  - destruct Halloc as (bal & Hbal' & -> & Hmid & ->). exists bal.
    split; [exact Hbal'|]. split; [reflexivity|].
    destruct (Qlt_bool 0 (portion - bal / mid)) eqn:E0.
    + apply Qlt_bool_iff in E0. repeat split; intros; lra.
    + apply Qlt_bool_false_iff in E0. repeat split; intros; lra.
Qed.

(** When [create_budget_allocation] returns: there is a market, every live
    order is on an active market and, unless the token is the common quote
    token, no mid price is zero. *)
Section BudgetTotality.
Import LiquidityMining.

Variable exchange : Exchange.
Variable cfg : Config.
Variable st : State.

Hypothesis some_market : market_infos st <> [].
Hypothesis orders_on_markets :
  forall o, In o (active_orders st) ->
    In (LimitOrder.trading_pair o) (map fst (market_infos st)).
Hypothesis mid_prices_defined :
  is_token_a_quote_token cfg st = false ->
  forall m mid, In (m, mid) (market_infos st) -> ~ (mid == 0)%Q.

Lemma market_tokens (m : Market) :
  In m (map fst (market_infos st)) -> base m ∈ all_tokens st /\ quote m ∈ all_tokens st.
Proof.
  intros Hm. unfold all_tokens. rewrite !elem_of_list_to_set, !list_elem_of_In, !in_flat_map.
  apply in_map_iff in Hm as (mi & <- & Hmi).
  split; exists mi; (split; [exact Hmi|]); cbn; tauto.
Qed.

Lemma add_locked_balance_keys (bals : gmap string Q) (o : LimitOrder.t) :
  In (LimitOrder.trading_pair o) (map fst (market_infos st)) ->
  (forall t, t ∈ all_tokens st -> is_Some (bals !! t)) ->
  exists bals', add_locked_balance bals o = Ok bals'
                /\ forall t, t ∈ all_tokens st -> is_Some (bals' !! t).
Proof.
  intros Ho Hkeys. destruct (market_tokens _ Ho) as [Hb Hq].
  unfold add_locked_balance, getitem.
  destruct (LimitOrder.trading_pair o) as [b q]. cbn [base quote fst snd] in Hb, Hq.
  destruct (LimitOrder.is_buy o).
  - destruct (Hkeys q Hq) as [v ->]. rsimpl. eexists. split; [reflexivity|].
    intros t Ht. rewrite lookup_insert_is_Some. destruct (decide (q = t)); auto.
  - destruct (Hkeys b Hb) as [v ->]. rsimpl. eexists. split; [reflexivity|].
    intros t Ht. rewrite lookup_insert_is_Some. destruct (decide (b = t)); auto.
Qed.

Lemma fold_locked_balances (os : list LimitOrder.t) :
  (forall o, In o os -> In (LimitOrder.trading_pair o) (map fst (market_infos st))) ->
  forall init : gmap string Q,
    (forall t, t ∈ all_tokens st -> is_Some (init !! t)) ->
    exists bals, foldM add_locked_balance os init = Ok bals
                 /\ forall t, t ∈ all_tokens st -> is_Some (bals !! t).
Proof.
  induction os as [|o os IH]; intros Hon init Hinit.
  - exists init. split; [reflexivity|exact Hinit].
  - destruct (add_locked_balance_keys init o (Hon o (or_introl eq_refl)) Hinit)
      as (bals1 & Hrun1 & Hkeys1).
    destruct (IH (fun o' Ho' => Hon o' (or_intror Ho')) bals1 Hkeys1) as (bals & Hrun & Hkeys).
    exists bals. split; [cbn [foldM]; rewrite Hrun1; exact Hrun|exact Hkeys].
Qed.

Lemma adjusted_available_balances_returns :
  exists bals, adjusted_available_balances exchange st = Ok bals
               /\ forall t, t ∈ all_tokens st -> is_Some (bals !! t).
Proof.
  unfold adjusted_available_balances. cbv zeta.
  apply (fold_locked_balances _ orders_on_markets).
  intros t Ht. exists (get_available_balance exchange t).
  apply lookup_set_to_map; [intros ? ? _ _ H; exact H|].
  exists t. split; [exact Ht|reflexivity].
Qed.

Lemma add_market_value_returns (bals : gmap string Q) (ms : list (Market * Q)) :
  (forall t, t ∈ all_tokens st -> is_Some (bals !! t)) ->
  (forall mi, In mi ms -> In mi (market_infos st)) ->
  forall value, exists value', foldM (add_market_value cfg st bals) ms value = Ok value'.
Proof.
  intros Hkeys. induction ms as [|[m mid] ms IH]; intros Hsub value.
  - exists value. reflexivity.
  - assert (Hin : In (m, mid) (market_infos st)) by (apply Hsub; left; reflexivity).
    destruct (market_tokens m (in_map fst _ _ Hin)) as [Hb Hq].
    assert (Hstep : exists value1, add_market_value cfg st bals value (m, mid) = Ok value1).
    { unfold add_market_value, getitem.
      destruct (is_token_a_quote_token cfg st) eqn:Equote.
      - destruct (Hkeys _ Hb) as [v ->]. rsimpl. eauto.
      - destruct (Hkeys _ Hq) as [v ->]. rsimpl.
        rewrite div_nonzero by (eapply mid_prices_defined; eauto). rsimpl. eauto. }
    destruct Hstep as [value1 Hstep]. cbn [foldM]. rewrite Hstep. rsimpl.
    apply IH. intros mi Hmi. apply Hsub. right. exact Hmi.
Qed.

Lemma allocate_market_returns (portion : Q) (bals : gmap string Q) (ms : list (Market * Q)) :
  (forall t, t ∈ all_tokens st -> is_Some (bals !! t)) ->
  (forall mi, In mi ms -> In mi (market_infos st)) ->
  forall budgets, exists budgets',
    foldM (allocate_market cfg st portion bals) ms budgets = Ok budgets'.
Proof.
  intros Hkeys. induction ms as [|[m mid] ms IH]; intros Hsub [sells buys].
  - eexists. reflexivity.
  - assert (Hin : In (m, mid) (market_infos st)) by (apply Hsub; left; reflexivity).
    destruct (market_tokens m (in_map fst _ _ Hin)) as [Hb Hq].
    assert (Hstep : exists budgets1,
               allocate_market cfg st portion bals (sells, buys) (m, mid) = Ok budgets1).
    { unfold allocate_market, getitem.
      destruct (is_token_a_quote_token cfg st) eqn:Equote.
      - destruct (Hkeys _ Hb) as [v ->]. rsimpl. destruct (Qlt_bool 0 _); eauto.
      - destruct (Hkeys _ Hq) as [v ->]. rsimpl.
        rewrite div_nonzero by (eapply mid_prices_defined; eauto). rsimpl.
        destruct (Qlt_bool 0 _); eauto. }
    destruct Hstep as [budgets1 Hstep]. cbn [foldM]. rewrite Hstep. rsimpl.
    apply IH. intros mi Hmi. apply Hsub. right. exact Hmi.
Qed.

Lemma create_budget_allocation_returns :
  exists st', create_budget_allocation exchange cfg st = Ok st'.
Proof.
  unfold create_budget_allocation, total_port_value_in_token. cbv zeta.
  destruct adjusted_available_balances_returns as (bals & -> & Hkeys). rsimpl.
  destruct (add_market_value_returns bals (market_infos st) Hkeys (fun mi H => H)
              (default 0%Q (bals !! token cfg))) as [value ->]. rsimpl.
  rewrite div_nonzero; rsimpl.
  - destruct (allocate_market_returns
                (value / inject_Z (Z.of_nat (length (market_infos st)))) bals
                (market_infos st) Hkeys (fun mi H => H)
                (zero_budgets st, zero_budgets st)) as [budgets ->].
    rsimpl. eexists. reflexivity.
  - destruct (market_infos st); [congruence|]. cbn [length].
    unfold Qeq, inject_Z. cbn [Qnum Qden]. lia.
Qed.

End BudgetTotality.

(** C3 (amended): over distinct active markets, [create_budget_allocation]
    gives every market the portion [portfolio_value / N], the portions sum to
    the portfolio value, and, when the token is the common quote token, a
    market's sell budget is its base balance and the allocated value
    [buy_budget + sell_budget * mid] is the larger of the portion and the
    value of that base balance: it equals the portion when the base balance
    is worth no more than the portion, and exceeds it otherwise.  When the
    token is not the quote token the same holds in token units for
    [buy_budget / mid + sell_budget] and the quote balance. *)
Theorem create_budget_allocation_partition
        (exchange : LiquidityMining.Exchange) (cfg : LiquidityMining.Config)
        (st : LiquidityMining.State) :
  NoDup (map fst (LiquidityMining.market_infos st)) ->
  LiquidityMining.market_infos st <> [] ->
  (forall o, In o (LiquidityMining.active_orders st) ->
     In (LimitOrder.trading_pair o) (map fst (LiquidityMining.market_infos st))) ->
  (LiquidityMining.is_token_a_quote_token cfg st = false ->
   forall m mid, In (m, mid) (LiquidityMining.market_infos st) -> ~ (mid == 0)%Q) ->
  exists (st' : LiquidityMining.State) (portfolio_value market_portion : Q)
         (balances : gmap string Q),
    LiquidityMining.create_budget_allocation exchange cfg st = Ok st'
    /\ LiquidityMining.total_port_value_in_token exchange cfg st = Ok portfolio_value
    /\ LiquidityMining.adjusted_available_balances exchange st = Ok balances
    /\ (market_portion
        == portfolio_value
           / inject_Z (Z.of_nat (length (LiquidityMining.market_infos st))))%Q
    /\ (sum (map (fun _ => market_portion) (LiquidityMining.market_infos st))
        == portfolio_value)%Q
    /\ forall m mid, In (m, mid) (LiquidityMining.market_infos st) ->
       exists s b,
         LiquidityMining.sell_budgets st' !! m = Some s
         /\ LiquidityMining.buy_budgets st' !! m = Some b
         /\ if LiquidityMining.is_token_a_quote_token cfg st then
              exists bal, balances !! base m = Some bal /\ s = bal
                /\ (0 <= b)%Q
                /\ (market_portion <= b + s * mid)%Q
                /\ ((bal * mid <= market_portion)%Q -> (b + s * mid == market_portion)%Q)
                /\ ((market_portion <= bal * mid)%Q -> (b + s * mid == bal * mid)%Q)
            else
              exists bal, balances !! quote m = Some bal /\ b = bal
                /\ (0 <= s)%Q
                /\ (market_portion <= b / mid + s)%Q
                /\ ((bal / mid <= market_portion)%Q -> (b / mid + s == market_portion)%Q)
                /\ ((market_portion <= bal / mid)%Q -> (b / mid + s == bal / mid)%Q).
Proof.
  intros Hnd Hsome Horders Hmids.
  destruct (create_budget_allocation_returns exchange cfg st Hsome Horders Hmids)
    as [st' Hrun].
  destruct (budget_allocation_result exchange cfg st st' Hnd Hrun)
    as (P & portion & balances & H).
  exists st', P, portion, balances. split; [exact Hrun|exact H].
Qed.

Lemma two_markets_allocation :
  LiquidityMining.create_budget_allocation (Inputs.binance Inputs.btc_only)
    (Inputs.lm_config false) Inputs.two_markets
  = Ok Inputs.two_markets_allocated.
Proof. vm_compute. reflexivity. Qed.

Lemma two_markets_distinct :
  NoDup (map fst (LiquidityMining.market_infos Inputs.two_markets)).
Proof.
  cbn. repeat constructor; rewrite ?elem_of_cons, ?elem_of_nil;
    unfold Inputs.BTC_USDT, Inputs.ETH_USDT; intuition congruence.
Qed.

Lemma two_markets_no_orders o :
  In o (LiquidityMining.active_orders Inputs.two_markets) ->
  In (LimitOrder.trading_pair o) (map fst (LiquidityMining.market_infos Inputs.two_markets)).
Proof. intros []. Qed.

Lemma two_markets_quote_token :
  LiquidityMining.is_token_a_quote_token (Inputs.lm_config false) Inputs.two_markets = false ->
  forall m mid, In (m, mid) (LiquidityMining.market_infos Inputs.two_markets) ->
    ~ (mid == 0)%Q.
Proof. intros H. vm_compute in H. discriminate H. Qed.

Lemma create_budget_allocation_partition_witness :
  NoDup (map fst (LiquidityMining.market_infos Inputs.two_markets))
  /\ LiquidityMining.market_infos Inputs.two_markets <> []
  /\ exists (st' : LiquidityMining.State) (portfolio_value market_portion : Q),
       LiquidityMining.create_budget_allocation (Inputs.binance Inputs.btc_only)
         (Inputs.lm_config false) Inputs.two_markets = Ok st'
       /\ LiquidityMining.total_port_value_in_token (Inputs.binance Inputs.btc_only)
            (Inputs.lm_config false) Inputs.two_markets = Ok portfolio_value
       /\ (sum (map (fun _ => market_portion)
                    (LiquidityMining.market_infos Inputs.two_markets))
           == portfolio_value)%Q.
Proof.
  assert (Hsome : LiquidityMining.market_infos Inputs.two_markets <> [])
    by (cbn; discriminate).
  split; [exact two_markets_distinct|]. split; [exact Hsome|].
  destruct (create_budget_allocation_partition (Inputs.binance Inputs.btc_only)
              (Inputs.lm_config false) Inputs.two_markets
              two_markets_distinct Hsome two_markets_no_orders two_markets_quote_token)
    as (st' & P & portion & balances & Hrun & HP & _ & _ & Hsum & _).
  exists st', P, portion. repeat split; assumption.
Defined.

(** With a base token the budgets mirror: the buy budget is the quote
    balance, the sell budget what is left of the portion. *)
Example budget_allocation_base_token :
  LiquidityMining.is_token_a_quote_token Inputs.btc_config Inputs.two_markets = false
  /\ exists st',
       LiquidityMining.create_budget_allocation (Inputs.binance Inputs.btc_only)
         Inputs.btc_config Inputs.two_markets = Ok st'
       /\ LiquidityMining.buy_budgets st' !! Inputs.BTC_USDT = Some 0%Q
       /\ exists s, LiquidityMining.sell_budgets st' !! Inputs.BTC_USDT = Some s
                    /\ (s == 1 # 2)%Q.
Proof.
  split; [vm_compute; reflexivity|].
  eexists. split; [vm_compute; reflexivity|].
  split; [vm_compute; reflexivity|].
  eexists. split; [vm_compute; reflexivity|reflexivity].
Qed.

(** C3 as stated fails: on two USDT markets with a portfolio of 1 BTC worth
    30000, the portion of [BTC-USDT] is 15000 while its budgets hold
    [0 + 1 * 30000], twice the portion, above [portion * (1 + eps)] for
    every [eps < 1]. *)
Lemma budget_allocation_exceeds_portion :
  exists st',
    LiquidityMining.create_budget_allocation (Inputs.binance Inputs.btc_only)
      (Inputs.lm_config false) Inputs.two_markets = Ok st'
    /\ LiquidityMining.total_port_value_in_token (Inputs.binance Inputs.btc_only)
         (Inputs.lm_config false) Inputs.two_markets = Ok 30000%Q
    /\ LiquidityMining.buy_budgets st' !! Inputs.BTC_USDT = Some 0%Q
    /\ LiquidityMining.sell_budgets st' !! Inputs.BTC_USDT = Some 1%Q
    /\ forall eps : Q, (eps < 1)%Q ->
         ~ (0 + 1 * 30000 <= (30000 / 2) * (1 + eps))%Q.
Proof.
  exists Inputs.two_markets_allocated.
  split; [exact two_markets_allocation|].
  split; [vm_compute; reflexivity|].
  split; [vm_compute; reflexivity|].
  split; [vm_compute; reflexivity|].
  intros eps Heps H.
  assert (Hp : (30000 / 2 == 15000)%Q) by reflexivity.
  rewrite Hp in H. lra.
Qed.

(** ** Refresh and tolerance *)

Section ToleranceFacts.
Import LiquidityMining.

Variable cfg : Config.
Variable order_age : LimitOrder.t -> Q -> Q.
Variable st : State.

Let now := current_timestamp st.

Local Abbreviation side_within_tolerance := (LiquidityMining.side_within_tolerance cfg).
Local Abbreviation within_tolerance := (LiquidityMining.within_tolerance cfg).
Local Abbreviation aged := (LiquidityMining.aged cfg order_age st).
Local Abbreviation should_cancel := (LiquidityMining.should_cancel cfg order_age st).

Lemma priced_filter (f : LimitOrder.t -> bool) (orders : list LimitOrder.t) :
  priced orders -> priced (List.filter f orders).
Proof. intros H o Ho. apply H. apply filter_In in Ho as [Ho _]. exact Ho. Qed.

Lemma price_moved_spec (cur_side : list LimitOrder.t) (proposed : PriceSize.t) :
  priced cur_side ->
  (nonempty cur_side && Qle_bool (PriceSize.size proposed) 0) = false ->
  exists moved, price_moved cfg cur_side (PriceSize.price proposed) = Ok moved
                /\ (moved = false <-> side_within_tolerance cur_side proposed).
Proof.
  intros Hp Hsize. destruct cur_side as [|o rest]; cbn in *.
  - exists false. tauto.
  - rewrite div_nonzero by (apply Hp; left; reflexivity). rsimpl.
    eexists; split; [reflexivity|].
    rewrite Qlt_bool_false_iff. split; [|tauto].
    intros H. split; [|exact H].
    apply Qnot_le_lt. intros Hle. apply Qle_bool_iff in Hle. congruence.
Qed.

Lemma is_within_tolerance_spec (cur_orders : list LimitOrder.t) (proposal : Proposal) :
  priced cur_orders ->
  exists within, is_within_tolerance cfg cur_orders proposal = Ok within
                 /\ (within = true <-> within_tolerance cur_orders proposal).
Proof.
  intros Hp. unfold is_within_tolerance, within_tolerance. cbv zeta.
  set (cur_buy := List.filter (fun o => LimitOrder.is_buy o) cur_orders).
  set (cur_sell := List.filter (fun o => negb (LimitOrder.is_buy o)) cur_orders).
  assert (Hpb : priced cur_buy) by (apply priced_filter; exact Hp).
  assert (Hps : priced cur_sell) by (apply priced_filter; exact Hp).
  destruct (nonempty cur_buy && Qle_bool (PriceSize.size (buy proposal)) 0) eqn:Eb.
  { exists false. split; [reflexivity|]. split; [discriminate|].
    intros [Hb _]. apply andb_true_iff in Eb as [Hne Hle].
    destruct cur_buy; [discriminate|]. destruct Hb as [Hpos _].
    apply Qle_bool_iff in Hle. lra. }
  destruct (nonempty cur_sell && Qle_bool (PriceSize.size (sell proposal)) 0) eqn:Es.
  { exists false. split; [reflexivity|]. split; [discriminate|].
    intros [_ Hs]. apply andb_true_iff in Es as [Hne Hle].
    destruct cur_sell; [discriminate|]. destruct Hs as [Hpos _].
    apply Qle_bool_iff in Hle. lra. }
  cbn [orb].
  destruct (price_moved_spec cur_buy (buy proposal) Hpb Eb) as (mb & -> & Hmb).
  destruct (price_moved_spec cur_sell (sell proposal) Hps Es) as (ms & Hms' & Hms).
  rsimpl. destruct mb.
  - exists false. split; [reflexivity|]. split; [discriminate|].
    intros [Hb _]. apply Hmb in Hb. discriminate.
  - rewrite Hms'. rsimpl. destruct ms.
    + exists false. split; [reflexivity|]. split; [discriminate|].
      intros [_ Hs]. apply Hms in Hs. discriminate.
    + exists true. split; [reflexivity|]. split; [|reflexivity].
      intros _. split; [apply Hmb|apply Hms]; reflexivity.
Qed.

Lemma within_tolerance_no_orders (proposal : Proposal) : within_tolerance [] proposal.
Proof. split; exact I. Qed.

Lemma existsb_aged (cur_orders : list LimitOrder.t) :
  existsb (fun o => Qlt_bool (max_order_age cfg) (order_age o now)) cur_orders = true
  <-> aged cur_orders.
Proof.
  rewrite existsb_exists. unfold aged.
  split; intros (o & Ho & H); exists o; (split; [exact Ho|]); apply Qlt_bool_iff; exact H.
Qed.

Lemma to_cancel_spec (times : gmap Market Q) (proposal : Proposal) (refresh_time : Q) :
  times !! market proposal = Some refresh_time ->
  priced (orders_of st (market proposal)) ->
  exists c, to_cancel cfg order_age st times proposal = Ok c
            /\ (c = true <-> should_cancel refresh_time proposal).
Proof.
  intros Ht Hp. unfold to_cancel, should_cancel, getitem. cbv zeta.
  set (cur_orders := orders_of st (market proposal)) in *. fold now.
  destruct (existsb _ cur_orders) eqn:Eaged.
  - assert (Ha : aged cur_orders) by (apply existsb_aged; exact Eaged).
    assert (Hne : nonempty cur_orders = true).
    { destruct Ha as (o & Ho & _). destruct cur_orders; [destruct Ho|reflexivity]. }
    rewrite Hne. cbn [andb]. exists true. tauto.
  - assert (Ha : ~ aged cur_orders).
    { intros Ha. apply existsb_aged in Ha. congruence. }
    rewrite andb_false_r, Ht. rsimpl.
    destruct (Qle_bool refresh_time now) eqn:Ert.
    + destruct cur_orders as [|o rest] eqn:Ecur; cbn [nonempty andb].
      * exists false. split; [reflexivity|]. split; [discriminate|].
        intros [?|[_ Hw]]; [contradiction|].
        exfalso. apply Hw. apply within_tolerance_no_orders.
      * destruct (is_within_tolerance_spec (o :: rest) proposal Hp) as (w & -> & Hw).
        rsimpl. exists (negb w). split; [reflexivity|].
        apply Qle_bool_iff in Ert.
        destruct w; cbn [negb].
        -- split; [discriminate|]. intros [?|[_ Hn]]; [contradiction|].
           exfalso. apply Hn. apply Hw. reflexivity.
        -- split; [|reflexivity]. intros _. right. split; [exact Ert|].
           intros Hn. apply Hw in Hn. discriminate.
    + cbn [andb]. exists false. split; [reflexivity|]. split; [discriminate|].
      intros [?|[Hle _]]; [contradiction|].
      apply Qle_bool_iff in Hle. congruence.
Qed.

(** The effects of the inner loop over the orders of the market. *)
Lemma cancel_orders_effect (proposal : Proposal) (orders : list LimitOrder.t) :
  In (market proposal) (map fst (market_infos st)) ->
  (forall o, In o orders -> LimitOrder.trading_pair o = market proposal) ->
  forall times cancels,
    foldM (cancel_order st proposal) orders (times, cancels)
    = Ok (match orders with
          | [] => times
          | _ => <[market proposal := (now + (1 # 10))%Q]> times
          end,
          cancels ++ map (fun o => (market proposal, LimitOrder.client_order_id o)) orders).
Proof.
  intros Hm. assert (Hmid : exists mid, get_mid_price st (market proposal) = Ok mid).
  { unfold get_mid_price.
    destruct (List.find _ (market_infos st)) as [mi|] eqn:E; [eauto|].
    exfalso. apply in_map_iff in Hm as ([m0 mid] & Hm0 & Hin).
    apply (find_none _ _ E) in Hin. cbn in Hin, Hm0.
    rewrite bool_decide_eq_false in Hin. congruence. }
  destruct Hmid as [mid Hmid].
  assert (Hstep : forall times cancels o,
             cancel_order st proposal (times, cancels) o
             = Ok (<[LimitOrder.trading_pair o := (now + (1 # 10))%Q]> times,
                   cancels ++ [(market proposal, LimitOrder.client_order_id o)])).
  { intros. unfold cancel_order. rewrite Hmid. reflexivity. }
  induction orders as [|o rest IH]; intros Hpair times cancels.
  - cbn. rewrite app_nil_r. reflexivity.
  - cbn [foldM]. rewrite Hstep. rsimpl.
    rewrite (Hpair o (or_introl eq_refl)).
    rewrite IH by (intros; apply Hpair; right; assumption).
    cbn [map]. rewrite <- app_assoc. cbn [app]. fold now.
    destruct rest; [reflexivity|]. rewrite insert_insert_eq. reflexivity.
Qed.

Lemma orders_of_pair (m : Market) (o : LimitOrder.t) :
  In o (orders_of st m) -> LimitOrder.trading_pair o = m.
Proof.
  unfold orders_of. intros H. apply filter_In in H as [_ H].
  apply bool_decide_eq_true in H. exact H.
Qed.

(** One iteration of [cancel_active_orders]. *)
Lemma cancel_proposal_effect (times : gmap Market Q) (cancels : list (Market * string))
      (proposal : Proposal) (refresh_time : Q) :
  times !! market proposal = Some refresh_time ->
  In (market proposal) (map fst (market_infos st)) ->
  priced (orders_of st (market proposal)) ->
  (should_cancel refresh_time proposal
   /\ orders_of st (market proposal) <> []
   /\ cancel_proposal cfg order_age st (times, cancels) proposal
      = Ok (<[market proposal := (now + (1 # 10))%Q]> times,
            cancels ++ map (fun o => (market proposal, LimitOrder.client_order_id o))
                           (orders_of st (market proposal))))
  \/ (~ should_cancel refresh_time proposal
      /\ cancel_proposal cfg order_age st (times, cancels) proposal = Ok (times, cancels)).
Proof.
  intros Ht Hm Hp. unfold cancel_proposal. cbn [fst].
  destruct (to_cancel_spec times proposal refresh_time Ht Hp) as (c & -> & Hc).
  rsimpl. destruct c.
  - left. assert (Hs : should_cancel refresh_time proposal) by (apply Hc; reflexivity).
    split; [exact Hs|].
    assert (Hne : orders_of st (market proposal) <> []).
    { intros Hnil. destruct Hs as [(o & Ho & _)|[_ Hw]].
      - rewrite Hnil in Ho. destruct Ho.
      - apply Hw. rewrite Hnil. apply within_tolerance_no_orders. }
    split; [exact Hne|].
    rewrite (cancel_orders_effect proposal _ Hm (orders_of_pair _)).
    destruct (orders_of st (market proposal)); [congruence|reflexivity].
  - right. split; [|reflexivity]. intros Hs. apply Hc in Hs. discriminate.
Qed.

Lemma cancel_fold (proposals : list Proposal) :
  forall (times : gmap Market Q) (cancels : list (Market * string)),
    NoDup (map market proposals) ->
    (forall p, In p proposals ->
       is_Some (times !! market p)
       /\ In (market p) (map fst (market_infos st))
       /\ priced (orders_of st (market p))) ->
    exists times' cancels',
      foldM (cancel_proposal cfg order_age st) proposals (times, cancels)
      = Ok (times', cancels')
      /\ (forall m, ~ In m (map market proposals) ->
            times' !! m = times !! m
            /\ forall id, In (m, id) cancels' -> In (m, id) cancels)
      /\ (forall c, In c cancels -> In c cancels')
      /\ (forall p rt, In p proposals -> times !! market p = Some rt ->
            (should_cancel rt p ->
               orders_of st (market p) <> []
               /\ (forall o, In o (orders_of st (market p)) ->
                     In (market p, LimitOrder.client_order_id o) cancels')
               /\ times' !! market p = Some (now + (1 # 10))%Q)
            /\ (~ should_cancel rt p ->
                  (forall id, In (market p, id) cancels' -> In (market p, id) cancels)
                  /\ times' !! market p = Some rt)).
Proof.
  induction proposals as [|p0 ps IH]; intros times cancels Hnd Hok.
  - exists times, cancels. split; [reflexivity|]. split; [auto|]. split; [auto|].
    intros ? ? [].
  - inversion Hnd as [|? ? Hnotin Hnd']; subst. rewrite list_elem_of_In in Hnotin.
    destruct (Hok p0 (or_introl eq_refl)) as ([rt0 Hrt0] & Hm0 & Hp0).
    assert (Hstep : exists times1 cancels1,
               cancel_proposal cfg order_age st (times, cancels) p0 = Ok (times1, cancels1)
               /\ (forall m, m <> market p0 -> times1 !! m = times !! m)
               /\ (forall m id, m <> market p0 -> In (m, id) cancels1 -> In (m, id) cancels)
               /\ (forall c, In c cancels -> In c cancels1)
               /\ (should_cancel rt0 p0 ->
                     orders_of st (market p0) <> []
                     /\ (forall o, In o (orders_of st (market p0)) ->
                           In (market p0, LimitOrder.client_order_id o) cancels1)
                     /\ times1 !! market p0 = Some (now + (1 # 10))%Q)
               /\ (~ should_cancel rt0 p0 -> cancels1 = cancels /\ times1 = times)).
    { destruct (cancel_proposal_effect times cancels p0 rt0 Hrt0 Hm0 Hp0)
        as [(Hs & Hne & ->)|(Hs & ->)].
      - eexists _, _. split; [reflexivity|].
        split; [intros m Hne'; apply lookup_insert_ne; congruence|].
        split.
        { intros m id Hne' [Hin|Hin]%in_app_iff; [exact Hin|].
          apply in_map_iff in Hin as (o & [= <- _] & _). congruence. }
        split; [intros c Hc; apply in_app_iff; left; exact Hc|].
        split; [|tauto]. intros _. split; [exact Hne|]. split.
        + intros o Ho. apply in_app_iff. right.
          apply in_map_iff. exists o. split; [reflexivity|exact Ho].
        + apply lookup_insert_eq.
      - exists times, cancels. split; [reflexivity|]. repeat split; auto; tauto. }
    destruct Hstep as (times1 & cancels1 & Hrun & Htimes1 & Hother1 & Hmono1 & Hyes & Hno).
    destruct (IH times1 cancels1 Hnd') as (times' & cancels' & Hrun' & Hout & Hmono & Hin).
    { intros p Hp. destruct (Hok p (or_intror Hp)) as (Hsome & Hm & Hpr).
      split; [|tauto]. rewrite Htimes1; [exact Hsome|].
      intros Heq. apply Hnotin. rewrite <- Heq. apply in_map. exact Hp. }
    exists times', cancels'. split.
    { cbn [foldM]. rewrite Hrun. rsimpl. exact Hrun'. }
    split.
    { intros m Hm. cbn [map In] in Hm.
      destruct (Hout m ltac:(tauto)) as [-> Hc]. split.
      - apply Htimes1. intros ->. tauto.
      - intros id Hid. apply (Hother1 m id); [intros ->; tauto|]. apply Hc. exact Hid. }
    split; [intros c Hc; apply Hmono, Hmono1, Hc|].
    intros p rt [<-|Hp] Hrt.
    + rewrite Hrt0 in Hrt. injection Hrt as <-.
      destruct (Hout (market p0) Hnotin) as [Ht' Hc']. split.
      * intros Hs. destruct (Hyes Hs) as (Hne & Hall & Ht1).
        split; [exact Hne|]. split; [intros o Ho; apply Hmono, Hall, Ho|].
        rewrite Ht'. exact Ht1.
      * intros Hs. destruct (Hno Hs) as [-> ->].
        split; [exact Hc'|]. rewrite Ht'. exact Hrt0.
    + assert (Hne : market p <> market p0).
      { intros Heq. apply Hnotin. rewrite <- Heq. apply in_map. exact Hp. }
      assert (Hrt1 : times1 !! market p = Some rt) by (rewrite Htimes1; assumption).
      destruct (Hin p rt Hp Hrt1) as [Hyes' Hno']. split; [exact Hyes'|].
      intros Hs. destruct (Hno' Hs) as [Hc Ht]. split; [|exact Ht].
      intros id Hid. apply (Hother1 _ _ Hne). apply Hc. exact Hid.
Qed.

End ToleranceFacts.



(** ** Funding-rate arbitrage: the selection of the venue pair *)

Section SelectionFacts.
Import FundingRateArbitrage.

Variable report : list (string * FundingInfo).

Local Abbreviation keys := (map fst report).
Local Abbreviation normalized := (get_normalized_funding_rate_in_seconds report).

Lemma assoc_key {V} (d : list (string * V)) (k : string) :
  In k (map fst d) -> exists v, assoc d k = Ok v.
Proof.
  intros Hk. unfold assoc.
  destruct (List.find _ d) as [kv|] eqn:E; [eauto|].
  exfalso. apply in_map_iff in Hk as ([k0 v] & Hk0 & Hin).
  apply (find_none _ _ E) in Hin. cbn in Hin, Hk0. subst k0.
  rewrite String.eqb_refl in Hin. discriminate.
Qed.

Lemma normalized_key (c : string) : In c keys -> exists r, normalized c = Ok r.
Proof.
  intros Hc. unfold get_normalized_funding_rate_in_seconds.
  destruct (assoc_key report c Hc) as [info ->]. rsimpl. eauto.
Qed.

Lemma funding_rate_diff_nonneg (r1 r2 : Q) : (0 <= funding_rate_diff_of r1 r2)%Q.
Proof.
  unfold funding_rate_diff_of.
  change (inject_Z funding_profitability_interval) with (86400 # 1)%Q.
  pose proof (Qabs_nonneg (r1 - r2)). lra.
Qed.

Lemma funding_rate_diff_equal (r1 r2 : Q) :
  (r1 == r2)%Q -> (funding_rate_diff_of r1 r2 == 0)%Q.
Proof.
  intros H. unfold funding_rate_diff_of.
  assert (H0 : (r1 - r2 == 0)%Q) by lra. rewrite H0. reflexivity.
Qed.

Lemma funding_rate_diff_zero (r1 r2 : Q) :
  (funding_rate_diff_of r1 r2 <= 0)%Q -> (r1 == r2)%Q.
Proof.
  unfold funding_rate_diff_of.
  change (inject_Z funding_profitability_interval) with (86400 # 1)%Q.
  intros H. assert (Ha : (Qabs (r1 - r2) <= 0)%Q) by lra.
  apply Qabs_Qle_condition in Ha. lra.
Qed.

Lemma selection_state_weaken (P P' : string -> string -> Prop) acc :
  (forall a b, P' a b -> P a b) ->
  selection_state report P acc -> selection_state report P' acc.
Proof.
  intros Hsub [Hbest Hhigh]. split; [|exact Hhigh].
  unfold best_among in *. destruct (fst acc) as [[[[c1 c2] side] d]|].
  - destruct Hbest as (H1 & H2 & Hne & r1 & r2 & Hr1 & Hr2 & Hd & Hpos & Hbuy & Hsell & Hmax).
    repeat (split; [assumption|]). exists r1, r2.
    repeat (split; [assumption|]). intros a b ra rb Hab. apply Hmax, Hsub, Hab.
  - intros a b ra rb Hab. apply Hbest, Hsub, Hab.
Qed.

(** One pair more. *)
Lemma consider_pair_state (P : string -> string -> Prop) acc (c1 c2 : string) :
  In c1 keys -> In c2 keys ->
  selection_state report P acc ->
  exists acc', consider_pair report c1 acc c2 = Ok acc'
    /\ selection_state report (fun a b => P a b \/ (a = c1 /\ b = c2)) acc'.
Proof.
  intros H1 H2 [Hbest Hhigh]. destruct acc as [best high]. cbn [fst snd] in *.
  unfold consider_pair. destruct (String.eqb_spec c1 c2) as [Heq|Hne]; cbn [negb].
  { exists (best, high). split; [reflexivity|].
    split; [|exact Hhigh]. cbn [fst]. unfold best_among in *.
    destruct best as [[[[b1 b2] side] d]|].
    - destruct Hbest as (? & ? & ? & r1 & r2 & ? & ? & ? & ? & ? & ? & Hmax).
      repeat (split; [assumption|]). exists r1, r2.
      repeat (split; [assumption|]).
      intros a b ra rb [Hab|[-> ->]] Hneq; [apply Hmax; assumption|congruence].
    - intros a b ra rb [Hab|[-> ->]] Hneq; [apply Hbest; assumption|congruence]. }
  destruct (normalized_key c1 H1) as [r1 Hr1]. destruct (normalized_key c2 H2) as [r2 Hr2].
  rewrite Hr1, Hr2. rsimpl. fold (funding_rate_diff_of r1 r2).
  assert (Hhigh0 : (0 <= high)%Q).
  { subst high. destruct best as [[[[b1 b2] side] d]|]; [|lra].
    destruct Hbest as (_ & _ & _ & ? & ? & _ & _ & _ & Hpos & _). lra. }
  assert (Hseen : forall a b ra rb, P a b -> a <> b ->
             normalized a = Ok ra -> normalized b = Ok rb ->
             (funding_rate_diff_of ra rb <= high)%Q).
  { subst high. unfold best_among in Hbest.
    destruct best as [[[[b1 b2] side] d]|].
    - destruct Hbest as (_ & _ & _ & ? & ? & _ & _ & _ & _ & _ & _ & Hmax). exact Hmax.
    - intros a b ra rb Hab Hneq Ha Hb.
      rewrite (funding_rate_diff_equal ra rb); [lra|]. eapply Hbest; eassumption. }
  destruct (Qlt_bool high (funding_rate_diff_of r1 r2)) eqn:E.
  - apply Qlt_bool_iff in E. eexists. split; [reflexivity|].
    split; [|reflexivity]. cbn [fst]. unfold best_among.
    repeat (split; [assumption|]). exists r1, r2.
    repeat (split; [first [assumption|reflexivity]|]).
    split; [lra|]. split.
    { intros Hlt. apply Qlt_bool_iff in Hlt. rewrite Hlt. reflexivity. }
    split.
    { intros Hle. apply Qlt_bool_false_iff in Hle. rewrite Hle. reflexivity. }
    intros a b ra rb [Hab|[-> ->]] Hneq Ha Hb.
    + pose proof (Hseen a b ra rb Hab Hneq Ha Hb). lra.
    + rewrite Hr1 in Ha. rewrite Hr2 in Hb. injection Ha as <-. injection Hb as <-. lra.
  - apply Qlt_bool_false_iff in E. exists (best, high). split; [reflexivity|].
    split; [|exact Hhigh]. cbn [fst]. unfold best_among in *.
    assert (Hnew : forall a b ra rb, P a b \/ a = c1 /\ b = c2 -> a <> b ->
               normalized a = Ok ra -> normalized b = Ok rb ->
               (funding_rate_diff_of ra rb <= high)%Q).
    { intros a b ra rb [Hab|[-> ->]] Hneq Ha Hb; [eapply Hseen; eassumption|].
      rewrite Hr1 in Ha. rewrite Hr2 in Hb. injection Ha as <-. injection Hb as <-. exact E. }
    destruct best as [[[[b1 b2] side] d]|].
    + destruct Hbest as (? & ? & ? & q1 & q2 & ? & ? & ? & ? & ? & ? & Hmax).
      repeat (split; [assumption|]). exists q1, q2.
      repeat (split; [assumption|]). subst high. exact Hnew.
    + intros a b ra rb Hab Hneq Ha Hb. apply funding_rate_diff_zero.
      subst high. eapply Hnew; eassumption.
Qed.

Lemma inner_loop_state (c1 : string) (l : list string) :
  In c1 keys -> (forall c, In c l -> In c keys) ->
  forall (P : string -> string -> Prop) acc,
    selection_state report P acc ->
    exists acc', foldM (consider_pair report c1) l acc = Ok acc'
      /\ selection_state report (fun a b => P a b \/ (a = c1 /\ In b l)) acc'.
Proof.
  intros H1. induction l as [|c2 l IH]; intros Hl P acc Hacc.
  - exists acc. split; [reflexivity|].
    apply (selection_state_weaken P); [|exact Hacc]. intros a b [?|[_ []]]. assumption.
  - destruct (consider_pair_state P acc c1 c2 H1 (Hl c2 (or_introl eq_refl)) Hacc)
      as (acc1 & Hrun1 & Hacc1).
    destruct (IH (fun c Hc => Hl c (or_intror Hc)) _ acc1 Hacc1) as (acc' & Hrun & Hacc').
    exists acc'. split; [cbn [foldM]; rewrite Hrun1; exact Hrun|].
    revert Hacc'. apply selection_state_weaken.
    intros a b [?|[-> [<-|?]]]; tauto.
Qed.

Lemma outer_loop_state (l : list string) :
  (forall c, In c l -> In c keys) ->
  forall (P : string -> string -> Prop) acc,
    selection_state report P acc ->
    exists acc',
      foldM (fun acc connector_1 => foldM (consider_pair report connector_1) keys acc) l acc
      = Ok acc'
      /\ selection_state report (fun a b => P a b \/ (In a l /\ In b keys)) acc'.
Proof.
  induction l as [|c1 l IH]; intros Hl P acc Hacc.
  - exists acc. split; [reflexivity|].
    apply (selection_state_weaken P); [|exact Hacc]. intros a b [?|[[] _]]. assumption.
  - destruct (inner_loop_state c1 keys (Hl c1 (or_introl eq_refl)) (fun c Hc => Hc) P acc Hacc)
      as (acc1 & Hrun1 & Hacc1).
    destruct (IH (fun c Hc => Hl c (or_intror Hc)) _ acc1 Hacc1) as (acc' & Hrun & Hacc').
    exists acc'. split; [cbn [foldM]; rewrite Hrun1; exact Hrun|].
    revert Hacc'. apply selection_state_weaken.
    intros a b [?|[[<-|?] ?]]; tauto.
Qed.

Lemma most_profitable_best_among :
  exists best,
    get_most_profitable_combination report = Ok best
    /\ best_among report (fun a b => In a keys /\ In b keys) best.
Proof.
  destruct (outer_loop_state keys (fun c Hc => Hc) (fun _ _ => False) (None, 0%Q))
    as (acc' & Hrun & Hacc').
  { split; [|reflexivity]. intros a b ra rb []. }
  exists (fst acc'). split.
  - unfold get_most_profitable_combination. cbv zeta. rewrite Hrun. reflexivity.
  - apply (selection_state_weaken _ (fun a b => In a keys /\ In b keys)) in Hacc'.
    + exact (proj1 Hacc').
    + tauto.
Qed.

End SelectionFacts.

(** C5 (amended): [get_most_profitable_combination] always returns.  When
    two venues of the report have different normalized rates it returns a
    pair [(v1, v2)] of distinct venues whose
    [|normalized(v1) - normalized(v2)| * funding_profitability_interval] is
    positive and is exceeded by that of no ordered pair of distinct venues,
    with side BUY when [normalized(v1) < normalized(v2)] and SELL otherwise;
    it returns nothing exactly when all normalized rates are equal.  For the
    three venues whose rates normalize to 1e-6, 3e-6 and 2e-6 per second the
    pair is [(v1, v2)] with side BUY. *)
Theorem get_most_profitable_combination_maximal :
  (forall report : list (string * FundingRateArbitrage.FundingInfo),
     exists best,
       FundingRateArbitrage.get_most_profitable_combination report = Ok best
       /\ FundingRateArbitrage.best_among report
            (fun a b => In a (map fst report) /\ In b (map fst report)) best)
  /\ (exists r1 r2 r3,
        FundingRateArbitrage.get_normalized_funding_rate_in_seconds Inputs.three_venues "v1"
        = Ok r1
        /\ FundingRateArbitrage.get_normalized_funding_rate_in_seconds Inputs.three_venues "v2"
           = Ok r2
        /\ FundingRateArbitrage.get_normalized_funding_rate_in_seconds Inputs.three_venues "v3"
           = Ok r3
        /\ (r1 == 1 # 1000000)%Q /\ (r2 == 3 # 1000000)%Q /\ (r3 == 2 # 1000000)%Q)
  /\ exists diff,
       FundingRateArbitrage.get_most_profitable_combination Inputs.three_venues
       = Ok (Some ("v1", "v2", BUY, diff))
       /\ (diff == (2 # 1000000) * 86400)%Q.
Proof.
  split; [exact most_profitable_best_among|]. split.
  - eexists _, _, _. repeat split; try (vm_compute; reflexivity).
  - eexists. split; [vm_compute; reflexivity|reflexivity].
Qed.

(** C5 as stated fails: two venues with the same normalized rate form two
    ordered pairs, both of maximal (zero) diff, and no pair is returned. *)
Lemma get_most_profitable_combination_equal_rates :
  FundingRateArbitrage.get_most_profitable_combination Inputs.equal_rates = Ok None
  /\ FundingRateArbitrage.get_normalized_funding_rate_in_seconds Inputs.equal_rates "v1"
     = FundingRateArbitrage.get_normalized_funding_rate_in_seconds Inputs.equal_rates "v2".
Proof. split; vm_compute; reflexivity. Qed.

(** ** Funding-rate arbitrage: the entry rule *)

Section EntryFacts.
Import FundingRateArbitrage.

Variable config : FundingRateArbitrageConfig.
Variable connectors : list (string * Connector).
Variable market_data_provider : MarketDataProvider.
Variable new_config_id : string -> Market -> TradeType -> string.

Local Abbreviation profitability_after_fees :=
  (get_current_profitability_after_fees config connectors market_data_provider).
Local Abbreviation entry_condition :=
  (FundingRateArbitrage.entry_condition config connectors market_data_provider).

Lemma profitability_after_fees_value token c1 c2 trade_side profitability :
  profitability_after_fees token c1 c2 trade_side = Ok profitability ->
  exists fee_1 fee_2,
    taker_fee config connectors market_data_provider token c1 (TradeType_eqb trade_side BUY)
    = Ok fee_1
    /\ taker_fee config connectors market_data_provider token c2
         (negb (TradeType_eqb trade_side BUY)) = Ok fee_2
    /\ profitability
       = (trade_pnl config market_data_provider token c1 c2 trade_side - fee_1 - fee_2)%Q.
Proof.
  unfold get_current_profitability_after_fees, taker_fee, trade_pnl. cbv zeta.
  intros H. inv_bind H. rename a into conn_1. inv_bind H. rename a into amount_1.
  inv_bind H. rename a into conn_2. inv_bind H. rename a into amount_2.
  inv_bind H. rename a into pnl. injection H as <-.
  apply div_Ok in E0 as [_ ->]. apply div_Ok in E2 as [_ ->].
  rsimpl. eexists _, _. split; [reflexivity|]. split; [reflexivity|].
  destruct (TradeType_eqb trade_side BUY); apply div_Ok in E3 as [_ ->]; reflexivity.
Qed.

(** The loop of [create_actions_proposal] either falls through, with no
    action and no change, or returns the two create actions of one idle
    token whose best pair passes the entry condition. *)
Lemma create_actions_loop_entry (st : State) (tokens : list string) st' actions :
  create_actions_loop config connectors market_data_provider new_config_id st tokens
  = Ok (st', actions) ->
  (actions = [] /\ st' = st)
  \/ exists token best configs,
       In token tokens
       /\ entry_condition st token best
       /\ get_position_executors_config config market_data_provider new_config_id st token
            (fst (fst (fst best))) (snd (fst (fst best))) (snd (fst best))
          = Ok configs
       /\ actions = [CreateExecutorAction (fst configs); CreateExecutorAction (snd configs)].
Proof.
  induction tokens as [|token rest IH]; cbn [create_actions_loop]; intros H.
  - injection H as <- <-. left. split; reflexivity.
  - assert (Hrest : create_actions_loop config connectors market_data_provider
                      new_config_id st rest = Ok (st', actions) ->
                    (actions = [] /\ st' = st)
                    \/ exists token0 best configs,
                         In token0 (token :: rest)
                         /\ entry_condition st token0 best
                         /\ get_position_executors_config config market_data_provider
                              new_config_id st token0
                              (fst (fst (fst best))) (snd (fst (fst best))) (snd (fst best))
                            = Ok configs
                         /\ actions = [CreateExecutorAction (fst configs);
                                       CreateExecutorAction (snd configs)]).
    { intros Hr. destruct (IH Hr) as [?|(t & b & c & Hin & ?)]; [left; assumption|].
      right. exists t, b, c. split; [right; exact Hin|assumption]. }
    destruct (has_key (active_funding_arbitrages st) token) eqn:Eactive;
      cbn [negb] in H; [exact (Hrest H)|].
    inv_bind H. destruct a as [[[[c1 c2] trade_side] diff]|]; [|discriminate].
    destruct (Qle_bool (min_funding_rate_profitability config) diff) eqn:Emin;
      [|exact (Hrest H)].
    inv_bind H. rename a into profitability.
    destruct (trade_profitability_condition_to_enter config && Qlt_bool profitability 0)
      eqn:Eflag; [exact (Hrest H)|].
    inv_bind H. rename a into configs. injection H as <- <-.
    right. exists token, (c1, c2, trade_side, diff), configs.
    split; [left; reflexivity|]. split; [|split; [exact E1|reflexivity]].
    unfold FundingRateArbitrage.entry_condition.
    split; [exact Eactive|]. split; [exact E|].
    split; [apply Qle_bool_iff; exact Emin|].
    destruct (profitability_after_fees_value _ _ _ _ _ E0) as (fee_1 & fee_2 & H1 & H2 & Hp).
    exists profitability, fee_1, fee_2. repeat (split; [assumption|]).
    intros Hflag. rewrite Hflag in Eflag. cbn [andb] in Eflag.
    apply Qlt_bool_false_iff. exact Eflag.
Qed.

End EntryFacts.

(** C7: whenever [create_actions_proposal] returns executor actions, they
    are the two create actions of a token without an active arbitrage whose
    best pair has [diff >= min_funding_rate_profitability] and, when
    [trade_profitability_condition_to_enter] is set, whose profitability
    after fees (the instantaneous trade PnL minus the taker fee percents of
    both venues) is not negative. *)
Theorem create_actions_proposal_entry
        (config : FundingRateArbitrage.FundingRateArbitrageConfig)
        (connectors : list (string * FundingRateArbitrage.Connector))
        (market_data_provider : FundingRateArbitrage.MarketDataProvider)
        (new_config_id : string -> Market -> TradeType -> string)
        (st st' : FundingRateArbitrage.State)
        (actions : list FundingRateArbitrage.ExecutorAction) :
  FundingRateArbitrage.create_actions_proposal config connectors market_data_provider
    new_config_id st = Ok (st', actions) ->
  actions <> [] ->
  exists token best configs,
    In token (FundingRateArbitrage.tokens config)
    /\ FundingRateArbitrage.entry_condition config connectors market_data_provider st
         token best
    /\ FundingRateArbitrage.get_position_executors_config config market_data_provider
         new_config_id st token
         (fst (fst (fst best))) (snd (fst (fst best))) (snd (fst best)) = Ok configs
    /\ actions = [FundingRateArbitrage.CreateExecutorAction (fst configs);
                  FundingRateArbitrage.CreateExecutorAction (snd configs)].
Proof.
  intros H Hne. apply create_actions_loop_entry in H as [[Hnil _]|H]; [contradiction|exact H].
Qed.

Lemma create_actions_proposal_entry_witness :
  exists st' actions,
    FundingRateArbitrage.create_actions_proposal Inputs.fra_config Inputs.venues
      Inputs.provider Inputs.config_id_of Inputs.idle_state = Ok (st', actions)
    /\ actions <> []
    /\ exists token best configs,
         In token (FundingRateArbitrage.tokens Inputs.fra_config)
         /\ FundingRateArbitrage.entry_condition Inputs.fra_config Inputs.venues
              Inputs.provider Inputs.idle_state token best
         /\ FundingRateArbitrage.get_position_executors_config Inputs.fra_config
              Inputs.provider Inputs.config_id_of Inputs.idle_state token
              (fst (fst (fst best))) (snd (fst (fst best))) (snd (fst best)) = Ok configs
         /\ actions = [FundingRateArbitrage.CreateExecutorAction (fst configs);
                       FundingRateArbitrage.CreateExecutorAction (snd configs)].
Proof.
  destruct (FundingRateArbitrage.create_actions_proposal Inputs.fra_config Inputs.venues
              Inputs.provider Inputs.config_id_of Inputs.idle_state)
    as [[st' actions]|e] eqn:Hrun; [|vm_compute in Hrun; discriminate Hrun].
  assert (Hne : actions <> []).
  { intros ->. vm_compute in Hrun. discriminate Hrun. }
  exists st', actions. split; [reflexivity|]. split; [exact Hne|].
  exact (create_actions_proposal_entry _ _ _ _ _ _ _ Hrun Hne).
Defined.

(** With [min_funding_rate_profitability = 0.01] and a best diff of 0.009 no
    executor is created and nothing changes. *)
Example create_actions_proposal_below_threshold :
  (exists diff,
     FundingRateArbitrage.get_most_profitable_combination
       (FundingRateArbitrage.get_funding_info_by_token Inputs.close_venues "WIF")
     = Ok (Some ("v1", "v2", BUY, diff))
     /\ (diff == 9 # 1000)%Q)
  /\ FundingRateArbitrage.create_actions_proposal Inputs.gated_config Inputs.close_venues
       Inputs.provider Inputs.config_id_of Inputs.idle_state
     = Ok (Inputs.idle_state, []).
Proof.
  split.
  - eexists. split; [vm_compute; reflexivity|reflexivity].
  - vm_compute. reflexivity.
Qed.

(** ** Funding-rate arbitrage: what the entry evaluation does without a best pair *)

(** C9 (the code at the failing input): two venues at the same normalized
    funding rate leave no best combination, and [create_actions_proposal]
    raises the [TypeError] of unpacking [None]. *)
Theorem create_actions_proposal_without_best_combination :
  FundingRateArbitrage.get_most_profitable_combination
    (FundingRateArbitrage.get_funding_info_by_token Inputs.flat_venues "WIF") = Ok None
  /\ FundingRateArbitrage.create_actions_proposal Inputs.fra_config Inputs.flat_venues
       Inputs.provider Inputs.config_id_of Inputs.idle_state
     = Raise TypeError.
Proof. split; vm_compute; reflexivity. Qed.

(** The same for every configuration: the first idle token without a best
    combination ends the evaluation with the exception. *)
Lemma create_actions_loop_raises
      (config : FundingRateArbitrage.FundingRateArbitrageConfig)
      (connectors : list (string * FundingRateArbitrage.Connector))
      (market_data_provider : FundingRateArbitrage.MarketDataProvider)
      (new_config_id : string -> Market -> TradeType -> string)
      (st : FundingRateArbitrage.State) (token : string) (rest : list string) :
  FundingRateArbitrage.has_key (FundingRateArbitrage.active_funding_arbitrages st) token
  = false ->
  FundingRateArbitrage.get_most_profitable_combination
    (FundingRateArbitrage.get_funding_info_by_token connectors token) = Ok None ->
  FundingRateArbitrage.create_actions_loop config connectors market_data_provider
    new_config_id st (token :: rest) = Raise TypeError.
Proof.
  intros Hidle Hnone. cbn [FundingRateArbitrage.create_actions_loop].
  rewrite Hidle, Hnone. reflexivity.
Qed.

(** ** Funding-rate arbitrage: a stopped arbitrage stays active *)

Lemma stop_actions_proposal_keeps_active
      (config : FundingRateArbitrage.FundingRateArbitrageConfig)
      (connectors : list (string * FundingRateArbitrage.Connector))
      (st st' : FundingRateArbitrage.State)
      (actions : list FundingRateArbitrage.ExecutorAction) :
  FundingRateArbitrage.stop_actions_proposal config connectors st = Ok (st', actions) ->
  FundingRateArbitrage.active_funding_arbitrages st'
  = FundingRateArbitrage.active_funding_arbitrages st.
Proof.
  unfold FundingRateArbitrage.stop_actions_proposal. intros H. inv_bind H.
  injection H as <- _. reflexivity.
Qed.

Lemma create_actions_loop_all_active
      (config : FundingRateArbitrage.FundingRateArbitrageConfig)
      (connectors : list (string * FundingRateArbitrage.Connector))
      (market_data_provider : FundingRateArbitrage.MarketDataProvider)
      (new_config_id : string -> Market -> TradeType -> string)
      (st : FundingRateArbitrage.State) (tokens : list string) :
  (forall token, In token tokens ->
     FundingRateArbitrage.has_key (FundingRateArbitrage.active_funding_arbitrages st) token
     = true) ->
  FundingRateArbitrage.create_actions_loop config connectors market_data_provider
    new_config_id st tokens = Ok (st, []).
Proof.
  induction tokens as [|token rest IH]; intros Hall; [reflexivity|].
  cbn [FundingRateArbitrage.create_actions_loop].
  rewrite (Hall token (or_introl eq_refl)). cbn [negb].
  apply IH. intros t Ht. apply Hall. right. exact Ht.
Qed.

(** C8 (the code at the failing input): the arbitrage of WIF reaches its
    take profit and [stop_actions_proposal] stops its two executors and
    records it, but leaves it in [active_funding_arbitrages].  On the next
    tick WIF is still not idle: [create_actions_proposal] opens nothing for
    it, although from the idle state the same market data opens an arbitrage,
    and [stop_actions_proposal] stops and records the same arbitrage again. *)
Theorem stopped_arbitrage_stays_active :
  exists st1 st2,
    FundingRateArbitrage.stop_actions_proposal Inputs.fra_config Inputs.venues
      (Inputs.open_state (1 # 100))
    = Ok (st1, [FundingRateArbitrage.StopExecutorAction "e1";
                FundingRateArbitrage.StopExecutorAction "e2"])
    /\ FundingRateArbitrage.stopped_funding_arbitrages st1 !! "WIF"
       = Some [Inputs.wif_arbitrage (1 # 100)]
    /\ FundingRateArbitrage.has_key (FundingRateArbitrage.active_funding_arbitrages st1) "WIF"
       = true
    /\ FundingRateArbitrage.create_actions_proposal Inputs.fra_config Inputs.venues
         Inputs.provider Inputs.config_id_of st1 = Ok (st1, [])
    /\ (exists st' create_1 create_2,
          FundingRateArbitrage.create_actions_proposal Inputs.fra_config Inputs.venues
            Inputs.provider Inputs.config_id_of Inputs.idle_state
          = Ok (st', [FundingRateArbitrage.CreateExecutorAction create_1;
                      FundingRateArbitrage.CreateExecutorAction create_2]))
    /\ FundingRateArbitrage.stop_actions_proposal Inputs.fra_config Inputs.venues st1
       = Ok (st2, [FundingRateArbitrage.StopExecutorAction "e1";
                   FundingRateArbitrage.StopExecutorAction "e2"])
    /\ FundingRateArbitrage.stopped_funding_arbitrages st2 !! "WIF"
       = Some [Inputs.wif_arbitrage (1 # 100); Inputs.wif_arbitrage (1 # 100)].
Proof.
  eexists _, _. split; [vm_compute; reflexivity|].
  split; [vm_compute; reflexivity|]. split; [vm_compute; reflexivity|].
  split; [vm_compute; reflexivity|]. split.
  - eexists _, _, _. vm_compute. reflexivity.
  - split; vm_compute; reflexivity.
Qed.

(** * Further properties of the strategies *)

(** ** The mid-price history *)

Lemma slice_from_last {A} (l : list A) (k : Z) :
  0 < k -> slice_from l (-1 * k) = skipn (length l - Z.to_nat k) l.
Proof.
  intros Hk. unfold slice_from, slice, slice_bound.
  destruct (Z.ltb_spec (-1 * k) 0); [|lia].
  destruct (Z.ltb_spec (Z.of_nat (length l)) 0); [lia|].
  rewrite Z.min_id.
  replace (Z.to_nat (Z.max (-1 * k + Z.of_nat (length l)) 0))
    with (length l - Z.to_nat k)%nat by lia.
  apply firstn_all2. rewrite length_skipn. lia.
Qed.

Section MidPriceFacts.
Import LiquidityMining.

Variable cfg : Config.

Let max_len := volatility_interval cfg * avg_volatility_period cfg.

Lemma record_mid_price_effect (mid_prices : gmap Market (list Q)) m mid buffer :
  0 < max_len ->
  mid_prices !! m = Some buffer ->
  record_mid_price cfg mid_prices (m, mid)
  = Ok (<[m := skipn (length buffer + 1 - Z.to_nat max_len) (buffer ++ [mid])]> mid_prices).
Proof.
  intros Hlen Hm. unfold record_mid_price, getitem. rewrite Hm. rsimpl.
  fold max_len. rewrite slice_from_last by exact Hlen.
  rewrite length_app. reflexivity.
Qed.

Lemma update_mid_prices_fold (infos : list (Market * Q)) :
  0 < max_len ->
  NoDup (map fst infos) ->
  forall mid_prices : gmap Market (list Q),
    (forall m, In m (map fst infos) -> is_Some (mid_prices !! m)) ->
    exists mid_prices',
      foldM (record_mid_price cfg) infos mid_prices = Ok mid_prices'
      /\ (forall m, ~ In m (map fst infos) -> mid_prices' !! m = mid_prices !! m)
      /\ (forall m mid buffer, In (m, mid) infos -> mid_prices !! m = Some buffer ->
            mid_prices' !! m
            = Some (skipn (length buffer + 1 - Z.to_nat max_len) (buffer ++ [mid]))).
Proof.
  intros Hlen. induction infos as [|[m0 mid0] infos IH]; intros Hnd mid_prices Hkeys.
  - exists mid_prices. split; [reflexivity|]. split; [auto|]. intros ? ? ? [].
  - inversion Hnd as [|? ? Hnotin Hnd']; subst. rewrite list_elem_of_In in Hnotin.
    destruct (Hkeys m0 (or_introl eq_refl)) as [buffer0 Hb0].
    destruct (IH Hnd' (<[m0 := skipn (length buffer0 + 1 - Z.to_nat max_len)
                                      (buffer0 ++ [mid0])]> mid_prices))
      as (mid_prices' & Hrun & Hout & Hin).
    { intros m Hm. rewrite lookup_insert_ne; [apply Hkeys; right; exact Hm|].
      intros ->. contradiction. }
    exists mid_prices'. split.
    { cbn [foldM]. rewrite (record_mid_price_effect _ _ _ _ Hlen Hb0). exact Hrun. }
    split.
    + intros m Hm. cbn [map fst In] in Hm. rewrite Hout by tauto.
      apply lookup_insert_ne. intros ->. tauto.
    + intros m mid buffer [[= <- <-]|Hitem] Hb.
      * rewrite (Hout m0 Hnotin), lookup_insert_eq. congruence.
      * apply Hin; [exact Hitem|]. rewrite lookup_insert_ne; [exact Hb|].
        intros ->. apply Hnotin. apply (in_map fst _ _ Hitem).
Qed.

End MidPriceFacts.

(** X1: [update_mid_prices] appends the mid price of every active market to
    its buffer and keeps the last [volatility_interval * avg_volatility_period]
    samples: the new buffer is a suffix of the old one followed by the new
    sample, holds [min (n + 1) max_len] samples, ends with the new sample, and
    the buffers of the other markets are untouched. *)
Theorem update_mid_prices_bounded
        (cfg : LiquidityMining.Config) (st : LiquidityMining.State)
        (mid_prices : gmap Market (list Q)) :
  0 < LiquidityMining.volatility_interval cfg * LiquidityMining.avg_volatility_period cfg ->
  NoDup (map fst (LiquidityMining.market_infos st)) ->
  (forall m, In m (map fst (LiquidityMining.market_infos st)) ->
     is_Some (mid_prices !! m)) ->
  exists mid_prices',
    LiquidityMining.update_mid_prices cfg st mid_prices = Ok mid_prices'
    /\ (forall m, ~ In m (map fst (LiquidityMining.market_infos st)) ->
          mid_prices' !! m = mid_prices !! m)
    /\ forall m mid buffer,
         In (m, mid) (LiquidityMining.market_infos st) ->
         mid_prices !! m = Some buffer ->
         exists buffer' dropped,
           mid_prices' !! m = Some buffer'
           /\ buffer ++ [mid] = dropped ++ buffer'
           /\ Z.of_nat (length buffer')
              = Z.min (Z.of_nat (length buffer) + 1)
                      (LiquidityMining.volatility_interval cfg
                       * LiquidityMining.avg_volatility_period cfg)
           /\ List.last buffer' mid = mid.
Proof.
  intros Hlen Hnd Hkeys.
  destruct (update_mid_prices_fold cfg _ Hlen Hnd mid_prices Hkeys)
    as (mid_prices' & Hrun & Hout & Hin).
  exists mid_prices'. split; [exact Hrun|]. split; [exact Hout|].
  intros m mid buffer Hitem Hb.
  set (max_len := LiquidityMining.volatility_interval cfg
                  * LiquidityMining.avg_volatility_period cfg) in *.
  set (d := (length buffer + 1 - Z.to_nat max_len)%nat).
  exists (skipn d (buffer ++ [mid])), (firstn d (buffer ++ [mid])).
  split; [apply (Hin m mid buffer Hitem Hb)|].
  split; [symmetry; apply firstn_skipn|].
  split; [rewrite length_skipn, length_app; cbn [length]; unfold d; lia|].
  assert (Hd : (d <= length buffer)%nat) by (unfold d; lia).
  rewrite skipn_app. replace (d - length buffer)%nat with 0%nat by lia.
  cbn [skipn]. apply last_last.
Qed.

Lemma update_mid_prices_bounded_witness :
  0 < LiquidityMining.volatility_interval (Inputs.window_config 2 1)
      * LiquidityMining.avg_volatility_period (Inputs.window_config 2 1)
  /\ exists mid_prices',
       LiquidityMining.update_mid_prices (Inputs.window_config 2 1) Inputs.two_markets
         Inputs.two_histories = Ok mid_prices'
       /\ exists buffer' dropped,
            mid_prices' !! Inputs.ETH_USDT = Some buffer'
            /\ [1998; 1999; 2000]%Q = dropped ++ buffer'
            /\ Z.of_nat (length buffer') = 2.
Proof.
  assert (Hlen : 0 < LiquidityMining.volatility_interval (Inputs.window_config 2 1)
                     * LiquidityMining.avg_volatility_period (Inputs.window_config 2 1))
    by reflexivity.
  split; [exact Hlen|].
  destruct (update_mid_prices_bounded (Inputs.window_config 2 1) Inputs.two_markets
              Inputs.two_histories Hlen two_markets_distinct)
    as (mid_prices' & Hrun & _ & Hin).
  { intros m [<-|[<-|[]]]; eexists; reflexivity. }
  exists mid_prices'. split; [exact Hrun|].
  destruct (Hin Inputs.ETH_USDT 2000%Q [1998%Q; 1999%Q])
    as (buffer' & dropped & Hb & Happ & Hl & _).
  { right. left. reflexivity. }
  { reflexivity. }
  exists buffer', dropped. split; [exact Hb|]. split; [exact Happ|]. exact Hl.
Defined.

(** ** Bounds on the volatility *)

Lemma min_le_first (ps : list Q) : forall p, (min p ps <= p)%Q.
Proof.
  unfold min. induction ps as [|x ps IH]; intros p; cbn [fold_left].
  - apply Qle_refl.
  - destruct (Qlt_bool x p) eqn:E.
    + apply Qlt_bool_iff in E. eapply Qle_trans; [apply IH|]. apply Qlt_le_weak, E.
    + apply IH.
Qed.

Lemma max_ge_first (ps : list Q) : forall p, (p <= max p ps)%Q.
Proof.
  unfold max. induction ps as [|x ps IH]; intros p; cbn [fold_left].
  - apply Qle_refl.
  - destruct (Qlt_bool p x) eqn:E.
    + apply Qlt_bool_iff in E. eapply Qle_trans; [|apply IH]. apply Qlt_le_weak, E.
    + apply IH.
Qed.

Lemma max_in (p : Q) (ps : list Q) : In (max p ps) (p :: ps).
Proof.
  unfold max. revert p. induction ps as [|x ps IH]; intros p; cbn [fold_left].
  - left. reflexivity.
  - destruct (Qlt_bool p x).
    + right. apply IH.
    + destruct (IH p) as [H|H]; [left; exact H|right; right; exact H].
Qed.

Lemma slice_incl {A} (l : list A) (a b : Z) (x : A) : In x (slice l a b) -> In x l.
Proof.
  unfold slice. intros H. apply list_elem_of_In in H. apply list_elem_of_In.
  eapply subseteq_drop, subseteq_take, H.
Qed.

Lemma slice_to_end_nonempty {A} (l : list A) (a : Z) :
  l <> [] -> a < Z.of_nat (length l) -> slice l a (Z.of_nat (length l)) <> [].
Proof.
  intros Hl Ha Hs. apply (f_equal (@length A)) in Hs.
  unfold slice, slice_bound in Hs. rewrite length_take, length_drop in Hs.
  cbn [length] in Hs. destruct l as [|x l]; [congruence|].
  destruct (Z.ltb_spec (Z.of_nat (length (x :: l))) 0); [lia|].
  rewrite Z.min_id in Hs. destruct (Z.ltb_spec a 0); cbn [length] in *; lia.
Qed.

Lemma sum_nonneg (l : list Q) : Forall (fun r => 0 <= r)%Q l -> (0 <= sum l)%Q.
Proof.
  induction 1 as [|x l Hx _ IH].
  - unfold sum. cbn. apply Qle_refl.
  - rewrite sum_cons. lra.
Qed.

Lemma sum_zero (l : list Q) : Forall (fun r => r == 0)%Q l -> (sum l == 0)%Q.
Proof.
  induction 1 as [|x l Hx _ IH].
  - reflexivity.
  - rewrite sum_cons, Hx, IH. lra.
Qed.

Lemma length_positive {A} (x : A) (l : list A) :
  (0 < inject_Z (Z.of_nat (length (x :: l))))%Q.
Proof.
  change 0%Q with (inject_Z 0). rewrite <- Zlt_Qlt. cbn [length]. lia.
Qed.

Section VolatilityBounds.
Import Volatility.

Variable mid_prices : list Q.
Variable P : Q -> Prop.
Hypothesis window_ok : forall p ps,
  (forall x, In x (p :: ps) -> In x mid_prices) ->
  exists r, div (max p ps - min p ps)%Q (min p ps) = Ok r /\ P r.

Lemma atr_loop_invariant (w : Z) (indices : list Z) : forall atr,
  Forall P atr ->
  exists atr', atr_loop mid_prices w indices atr = Ok atr'
               /\ Forall P atr' /\ (length atr <= length atr')%nat.
Proof.
  induction indices as [|i rest IH]; intros atr Hatr; cbn [atr_loop].
  - exists atr. auto.
  - destruct (slice mid_prices (i - w + 1) (i + 1)) as [|p ps] eqn:Es.
    + exists atr. auto.
    + destruct (window_ok p ps) as (r & Hr & HP).
      { intros x Hx. apply (slice_incl mid_prices (i - w + 1) (i + 1)).
        rewrite Es. exact Hx. }
      rewrite Hr. rsimpl.
      destruct (IH (atr ++ [r])) as (atr' & Hrun & Hall & Hlen).
      { apply Forall_app. split; [exact Hatr|]. constructor; [exact HP|constructor]. }
      exists atr'. split; [exact Hrun|]. split; [exact Hall|].
      rewrite length_app in Hlen. cbn [length] in Hlen. lia.
Qed.

Lemma atr_loop_first_window (w : Z) (i : Z) (rest : list Z) :
  slice mid_prices (i - w + 1) (i + 1) <> [] ->
  exists r atr', atr_loop mid_prices w (i :: rest) [] = Ok (r :: atr')
                 /\ Forall P (r :: atr').
Proof.
  intros Hne. cbn [atr_loop].
  destruct (slice mid_prices (i - w + 1) (i + 1)) as [|p ps] eqn:Es; [congruence|].
  destruct (window_ok p ps) as (r & Hr & HP).
  { intros x Hx. apply (slice_incl mid_prices (i - w + 1) (i + 1)).
    rewrite Es. exact Hx. }
  rewrite Hr. rsimpl.
  destruct (atr_loop_invariant w rest ([] ++ [r])) as (atr' & Hrun & Hall & Hlen).
  { constructor; [exact HP|constructor]. }
  rewrite Hrun. destruct atr' as [|r' atr']; [cbn in Hlen; lia|].
  exists r', atr'. split; [reflexivity|exact Hall].
Qed.

End VolatilityBounds.

Lemma positive_window_ratio (mid_prices : list Q) :
  (forall x, In x mid_prices -> (0 < x)%Q) ->
  forall p ps, (forall x, In x (p :: ps) -> In x mid_prices) ->
  exists r, div (max p ps - min p ps)%Q (min p ps) = Ok r /\ (0 <= r)%Q.
Proof.
  intros Hpos p ps Hin.
  assert (Hmin : (0 < min p ps)%Q) by (apply Hpos, Hin, min_in).
  exists ((max p ps - min p ps) / min p ps)%Q.
  split; [apply div_nonzero; intros H0; rewrite H0 in Hmin; apply (Qlt_irrefl 0), Hmin|].
  apply Qle_shift_div_l; [exact Hmin|].
  pose proof (min_le_first ps p). pose proof (max_ge_first ps p). lra.
Qed.

(** X2: on a history of prices above zero [update_volatility] never raises,
    whatever the interval and the number of periods, and what it leaves for
    the market is NaN or a non-negative number. *)
Theorem market_volatility_nonnegative
        (volatility_interval avg_volatility_period : Z) (mid_prices : list Q) :
  0 < volatility_interval ->
  (forall x, In x mid_prices -> (0 < x)%Q) ->
  Volatility.market_volatility volatility_interval avg_volatility_period mid_prices
  = Ok s_decimal_nan
  \/ exists v,
       Volatility.market_volatility volatility_interval avg_volatility_period mid_prices
       = Ok (Dec v) /\ (0 <= v)%Q.
Proof.
  intros Hw Hpos. unfold Volatility.market_volatility.
  rewrite range_down by exact Hw. rewrite bind_Ok.
  destruct (atr_loop_invariant mid_prices (fun r => 0 <= r)%Q
              (positive_window_ratio mid_prices Hpos) volatility_interval
              (map (fun k : nat => Z.of_nat (length mid_prices) - 1
                                   + Z.of_nat k * (volatility_interval * -1))
                 (seq 0 (Z.to_nat ((Z.of_nat (length mid_prices) - 1
                   - Z.max (Z.of_nat (length mid_prices) - 1
                            - volatility_interval * avg_volatility_period) 0
                   + volatility_interval - 1) / volatility_interval)))) [])
    as (atr & Hrun & Hall & _); [constructor|].
  rewrite Hrun. rsimpl. destruct atr as [|r atr]; [left; reflexivity|].
  right. eexists. split; [reflexivity|]. unfold mean.
  apply Qle_shift_div_l; [apply length_positive|].
  pose proof (sum_nonneg _ Hall). lra.
Qed.

Lemma market_volatility_nonnegative_witness :
  Volatility.market_volatility 5 2 [1; 2; 3]%Q = Ok s_decimal_nan
  \/ exists v, Volatility.market_volatility 5 2 [1; 2; 3]%Q = Ok (Dec v) /\ (0 <= v)%Q.
Proof.
  apply market_volatility_nonnegative; [lia|].
  intros x [<-|[<-|[<-|[]]]]; reflexivity.
Defined.

Lemma flat_window_ratio (mid_prices : list Q) (p0 : Q) :
  (0 < p0)%Q ->
  (forall x, In x mid_prices -> (x == p0)%Q) ->
  forall p ps, (forall x, In x (p :: ps) -> In x mid_prices) ->
  exists r, div (max p ps - min p ps)%Q (min p ps) = Ok r /\ (r == 0)%Q.
Proof.
  intros Hpos Hflat p ps Hin.
  assert (Hmin : (min p ps == p0)%Q) by (apply Hflat, Hin, min_in).
  assert (Hmax : (max p ps == p0)%Q) by (apply Hflat, Hin, max_in).
  exists ((max p ps - min p ps) / min p ps)%Q.
  split; [apply div_nonzero; rewrite Hmin; intros H0; rewrite H0 in Hpos;
          apply (Qlt_irrefl 0), Hpos|].
  rewrite Hmin, Hmax. unfold Qdiv. lra.
Qed.

(** X3: on a history of two or more samples that all equal one price above
    zero, [update_volatility] leaves a volatility of zero for the market, not
    NaN, also when the history is shorter than one interval. *)
Theorem market_volatility_flat
        (volatility_interval avg_volatility_period : Z) (mid_prices : list Q) (p0 : Q) :
  0 < volatility_interval -> 0 < avg_volatility_period ->
  (0 < p0)%Q ->
  (forall x, In x mid_prices -> (x == p0)%Q) ->
  (2 <= length mid_prices)%nat ->
  exists v,
    Volatility.market_volatility volatility_interval avg_volatility_period mid_prices
    = Ok (Dec v) /\ (v == 0)%Q.
Proof.
  intros Hw Hp Hpos Hflat Hlen. unfold Volatility.market_volatility.
  rewrite range_down by exact Hw. rewrite bind_Ok.
  set (n := Z.of_nat (length mid_prices)).
  assert (Hcount : exists c, Z.to_nat ((n - 1 - Z.max (n - 1 - volatility_interval
                      * avg_volatility_period) 0 + volatility_interval - 1)
                      / volatility_interval) = S c).
  { assert (1 <= (n - 1 - Z.max (n - 1 - volatility_interval * avg_volatility_period) 0
                  + volatility_interval - 1) / volatility_interval)
      by (apply Z.div_le_lower_bound; unfold n; nia).
    exists (Nat.pred (Z.to_nat ((n - 1 - Z.max (n - 1 - volatility_interval
                      * avg_volatility_period) 0 + volatility_interval - 1)
                      / volatility_interval))). lia. }
  destruct Hcount as [c ->]. cbn [seq map].
  destruct (atr_loop_first_window mid_prices (fun r => r == 0)%Q
              (flat_window_ratio mid_prices p0 Hpos Hflat) volatility_interval
              (n - 1 + Z.of_nat 0 * (volatility_interval * -1))
              (map (fun k : nat => n - 1 + Z.of_nat k * (volatility_interval * -1))
                 (seq 1 c)))
    as (r & atr & Hrun & Hall).
  { replace (n - 1 + Z.of_nat 0 * (volatility_interval * -1) + 1) with n by lia.
    apply slice_to_end_nonempty; [|unfold n; lia].
    intros ->. cbn in Hlen. lia. }
  rewrite Hrun. rsimpl. eexists. split; [reflexivity|]. unfold mean.
  rewrite (sum_zero _ Hall). unfold Qdiv. lra.
Qed.

Lemma market_volatility_flat_witness :
  exists v, Volatility.market_volatility 5 2 [7; 7; 7]%Q = Ok (Dec v) /\ (v == 0)%Q.
Proof.
  apply (market_volatility_flat 5 2 [7; 7; 7]%Q 7%Q); try lia; try reflexivity.
  - intros x [<-|[<-|[<-|[]]]]; reflexivity.
  - cbn. lia.
Defined.

(** ** The quote-token test and the adjusted balances *)

(** X4: [is_token_a_quote_token] holds exactly when there is an active
    market and every active market is quoted in the token of the campaign. *)
Theorem is_token_a_quote_token_spec
        (cfg : LiquidityMining.Config) (st : LiquidityMining.State) :
  LiquidityMining.is_token_a_quote_token cfg st = true
  <-> LiquidityMining.market_infos st <> []
      /\ forall mi, In mi (LiquidityMining.market_infos st) ->
                    quote (fst mi) = LiquidityMining.token cfg.
Proof.
  unfold LiquidityMining.is_token_a_quote_token, LiquidityMining.all_quote_tokens.
  cbv zeta. rewrite andb_true_iff, !bool_decide_eq_true.
  set (quotes := map (fun mi : Market * Q => quote (fst mi))
                     (LiquidityMining.market_infos st)).
  assert (Hq : forall mi, In mi (LiquidityMining.market_infos st) ->
                 quote (fst mi) ∈ (list_to_set quotes : gset string)).
  { intros mi Hmi. rewrite elem_of_list_to_set, list_elem_of_In. unfold quotes.
    apply (in_map (fun mi : Market * Q => quote (fst mi)) _ _ Hmi). }
  split.
  - intros [Hsize Htoken]. split.
    + intros Hnil. unfold quotes in Hsize. rewrite Hnil in Hsize.
      cbn in Hsize. rewrite size_empty in Hsize. discriminate.
    + intros mi Hmi. apply size_1_elem_of in Hsize as [x Hx].
      pose proof (Hq mi Hmi) as H1. rewrite Hx in H1, Htoken.
      apply elem_of_singleton in H1, Htoken. congruence.
  - intros [Hne Hall].
    assert (Heq : (list_to_set quotes : gset string) ≡ {[ LiquidityMining.token cfg ]}).
    { intros x. rewrite elem_of_list_to_set, list_elem_of_In, elem_of_singleton.
      unfold quotes. rewrite in_map_iff. split.
      - intros (mi & <- & Hmi). apply Hall, Hmi.
      - intros ->. destruct (LiquidityMining.market_infos st) as [|mi ms] eqn:E;
          [congruence|].
        exists mi. split; [apply Hall; left; reflexivity|left; reflexivity]. }
    split.
    + rewrite Heq. apply size_singleton.
    + rewrite Heq. apply elem_of_singleton. reflexivity.
Qed.

Section LockedBalanceFacts.
Import LiquidityMining.

Variable tokens : gset string.

Lemma locked_amount_own (o : LimitOrder.t) :
  locked_amount (locked_token o) o
  = if LimitOrder.is_buy o then (LimitOrder.quantity o * LimitOrder.price o)%Q
    else LimitOrder.quantity o.
Proof.
  unfold locked_amount, locked_token.
  destruct (LimitOrder.is_buy o); rewrite String.eqb_refl; reflexivity.
Qed.

Lemma locked_amount_other (t : string) (o : LimitOrder.t) :
  t <> locked_token o -> locked_amount t o = 0%Q.
Proof.
  unfold locked_amount, locked_token. intros Hne.
  destruct (LimitOrder.is_buy o).
  - destruct (String.eqb_spec (quote (LimitOrder.trading_pair o)) t); congruence.
  - destruct (String.eqb_spec (base (LimitOrder.trading_pair o)) t); congruence.
Qed.

Lemma add_locked_balance_step (bals : gmap string Q) (o : LimitOrder.t) :
  add_locked_balance bals o
  = (b ← getitem bals (locked_token o);
     Ok (<[locked_token o := (b + locked_amount (locked_token o) o)%Q]> bals)).
Proof.
  rewrite locked_amount_own. unfold add_locked_balance, locked_token, base, quote.
  destruct (LimitOrder.trading_pair o) as [b q]. cbn [fst snd].
  destruct (LimitOrder.is_buy o); reflexivity.
Qed.

Lemma fold_locked_amounts (os : list LimitOrder.t) :
  (forall o, In o os -> locked_token o ∈ tokens) ->
  forall (init : gmap string Q) (f : string -> Q),
    (forall t, t ∈ tokens -> exists v, init !! t = Some v /\ (v == f t)%Q) ->
    (forall t, t ∉ tokens -> init !! t = None) ->
    exists bals,
      foldM add_locked_balance os init = Ok bals
      /\ (forall t, t ∈ tokens ->
            exists v, bals !! t = Some v
                      /\ (v == f t + sum (map (locked_amount t) os))%Q)
      /\ (forall t, t ∉ tokens -> bals !! t = None).
Proof.
  induction os as [|o os IH]; intros Hon init f Hin Hout.
  - exists init. split; [reflexivity|]. split; [|exact Hout].
    intros t Ht. destruct (Hin t Ht) as (v & Hv & Heq). exists v.
    split; [exact Hv|]. cbn [map]. unfold sum. cbn [fold_left]. lra.
  - pose proof (Hon o (or_introl eq_refl)) as Ho.
    destruct (Hin _ Ho) as (b & Hb & Hbeq).
    destruct (IH (fun o' Ho' => Hon o' (or_intror Ho'))
                 (<[locked_token o := (b + locked_amount (locked_token o) o)%Q]> init)
                 (fun t => (f t + locked_amount t o)%Q))
      as (bals & Hrun & Hin' & Hout').
    { intros t Ht. destruct (decide (t = locked_token o)) as [->|Hne].
      - rewrite lookup_insert_eq. eexists. split; [reflexivity|]. rewrite Hbeq. lra.
      - rewrite lookup_insert_ne by congruence.
        destruct (Hin t Ht) as (v & Hv & Heq). exists v. split; [exact Hv|].
        rewrite (locked_amount_other t o Hne). lra. }
    { intros t Ht. rewrite lookup_insert_ne; [apply Hout, Ht|].
      intros <-. contradiction. }
    exists bals. split.
    { cbn [foldM]. rewrite add_locked_balance_step. unfold getitem at 1.
      rewrite Hb. rsimpl. exact Hrun. }
    split; [|exact Hout'].
    intros t Ht. destruct (Hin' t Ht) as (v & Hv & Heq). exists v.
    split; [exact Hv|]. cbn [map]. rewrite sum_cons, Heq. lra.
Qed.

Lemma fold_locked_foreign (os : list LimitOrder.t) :
  (exists o, In o os /\ locked_token o ∉ tokens) ->
  forall init : gmap string Q,
    (forall t, t ∉ tokens -> init !! t = None) ->
    foldM add_locked_balance os init = Raise KeyError.
Proof.
  induction os as [|o os IH]; intros (o' & Ho' & Hbad) init Hout.
  - destruct Ho'.
  - cbn [foldM]. rewrite add_locked_balance_step. unfold getitem at 1.
    destruct (init !! locked_token o) as [b|] eqn:Hb; rsimpl; [|reflexivity].
    apply IH.
    + destruct Ho' as [->|Ho']; [|exists o'; auto].
      rewrite (Hout _ Hbad) in Hb. discriminate.
    + intros t Ht. rewrite lookup_insert_ne; [apply Hout, Ht|].
      intros <-. rewrite (Hout _ Ht) in Hb. discriminate.
Qed.

End LockedBalanceFacts.

Lemma available_balances_lookup (exchange : LiquidityMining.Exchange)
      (tokens : gset string) (t : string) :
  (set_to_map (fun t => (t, LiquidityMining.get_available_balance exchange t)) tokens
     : gmap string Q) !! t
  = if decide (t ∈ tokens) then Some (LiquidityMining.get_available_balance exchange t)
    else None.
Proof.
  destruct (decide (t ∈ tokens)) as [Ht|Ht].
  - apply lookup_set_to_map; [intros ? ? _ _ Heq; exact Heq|].
    exists t. split; [exact Ht|reflexivity].
  - apply eq_None_not_Some. intros [v Hv].
    apply lookup_set_to_map in Hv as (t' & Ht' & [= <- <-]);
      [contradiction|intros ? ? _ _ Heq; exact Heq].
Qed.



(** X6: a live order whose amount is locked in a token of no active market
    makes [adjusted_available_balances] raise [KeyError]: the dict of the
    balances has the tokens of the active markets only. *)
Theorem adjusted_available_balances_foreign_order
        (exchange : LiquidityMining.Exchange) (st : LiquidityMining.State)
        (o : LimitOrder.t) :
  In o (LiquidityMining.active_orders st) ->
  LiquidityMining.locked_token o ∉ LiquidityMining.all_tokens st ->
  LiquidityMining.adjusted_available_balances exchange st = Raise KeyError.
Proof.
  intros Ho Hbad. unfold LiquidityMining.adjusted_available_balances. cbv zeta.
  apply (fold_locked_foreign (LiquidityMining.all_tokens st)).
  - exists o. split; assumption.
  - intros t Ht. rewrite available_balances_lookup, decide_False by exact Ht.
    reflexivity.
Qed.

Lemma adjusted_available_balances_foreign_order_witness :
  LiquidityMining.adjusted_available_balances (Inputs.binance Inputs.btc_only)
    Inputs.two_markets_foreign_order = Raise KeyError.
Proof.
  apply (adjusted_available_balances_foreign_order _ _ Inputs.doge_sell_order).
  - right. left. reflexivity.
  - vm_compute. discriminate.
Defined.

(** ** Static proposals *)

Lemma find_market {V} (l : list (Market * V)) (m : Market) (v : V) :
  NoDup (map fst l) -> In (m, v) l ->
  List.find (fun mi => bool_decide (fst mi = m)) l = Some (m, v).
Proof.
  induction l as [|[m0 v0] l IH]; intros Hnd Hin; [destruct Hin|].
  inversion Hnd as [|? ? Hnotin Hnd']; subst. rewrite list_elem_of_In in Hnotin.
  cbn [List.find fst]. destruct Hin as [[= -> ->]|Hin].
  - rewrite bool_decide_eq_true_2 by reflexivity. reflexivity.
  - rewrite bool_decide_eq_false_2; [apply IH; assumption|].
    intros ->. apply Hnotin. apply (in_map fst _ _ Hin).
Qed.

Lemma traverse_Forall2 {A B} (f : A -> result B) (R : A -> B -> Prop) (xs : list A) :
  (forall x, In x xs -> exists y, f x = Ok y /\ R x y) ->
  exists ys, traverse f xs = Ok ys /\ Forall2 R xs ys.
Proof.
  induction xs as [|x xs IH]; intros Hall.
  - exists []. split; [reflexivity|constructor].
  - destruct (Hall x (or_introl eq_refl)) as (y & Hy & HR).
    destruct (IH (fun x' Hx' => Hall x' (or_intror Hx'))) as (ys & Hys & HRs).
    exists (y :: ys). cbn [traverse]. rewrite Hy. rsimpl. rewrite Hys. rsimpl.
    split; [reflexivity|constructor; assumption].
Qed.

Section StaticProposalFacts.
Import LiquidityMining.

Variable exchange : Exchange.
Variable cfg : Config.
Variable st : State.

Hypothesis distinct : NoDup (map fst (market_infos st)).

Lemma get_mid_price_of (m : Market) (mid : Q) :
  In (m, mid) (market_infos st) -> get_mid_price st m = Ok mid.
Proof.
  intros Hin. unfold get_mid_price.
  rewrite (find_market _ m mid distinct Hin). reflexivity.
Qed.

(** The size of a leg at [price]: the order amount itself in the base token,
    or the amount of base that [order_amount] buys at [price], at the mid
    price for a price of zero. *)
Lemma base_order_size_value (m : Market) (mid price : Q) :
  In (m, mid) (market_infos st) ->
  (token cfg <> base m -> ~ (mid == 0)%Q) ->
  exists size,
    base_order_size cfg st m price = Ok size
    /\ (token cfg = base m -> size = order_amount cfg)
    /\ (token cfg <> base m ->
        (~ (price == 0)%Q -> (size * price == order_amount cfg)%Q)
        /\ ((price == 0)%Q -> (size * mid == order_amount cfg)%Q)).
Proof.
  intros Hin Hmid. unfold base_order_size.
  destruct (String.eqb_spec (token cfg) (base m)) as [Heq|Hne].
  - exists (order_amount cfg). split; [reflexivity|]. split; [auto|contradiction].
  - specialize (Hmid Hne). destruct (Qeq_bool price 0) eqn:E.
    + apply Qeq_bool_iff in E. rewrite (get_mid_price_of _ _ Hin). rsimpl.
      rewrite div_nonzero by exact Hmid. eexists. split; [reflexivity|].
      split; [contradiction|]. intros _. split; [contradiction|].
      intros _. field. exact Hmid.
    + assert (Hp : ~ (price == 0)%Q)
        by (intros H; apply Qeq_bool_iff in H; congruence).
      rsimpl. rewrite div_nonzero by exact Hp. eexists. split; [reflexivity|].
      split; [contradiction|]. intros _. split; [|contradiction].
      intros _. field. exact Hp.
Qed.

End StaticProposalFacts.

Lemma static_spread_bounds (spread max_spread s1 : Q) :
  (spread <= s1)%Q ->
  let s := if Qlt_bool 0 max_spread then LiquidityMining.Qmin s1 max_spread else s1 in
  ((0 < max_spread)%Q -> (s <= max_spread)%Q /\ ((spread <= max_spread)%Q -> (spread <= s)%Q))
  /\ (~ (0 < max_spread)%Q -> s = s1).
Proof.
  intros Hs1 s. unfold s, LiquidityMining.Qmin.
  destruct (Qlt_bool 0 max_spread) eqn:E.
  - apply Qlt_bool_iff in E. split; [|contradiction]. intros _.
    destruct (Qlt_bool max_spread s1) eqn:E1.
    + split; [apply Qle_refl|auto].
    + apply Qlt_bool_false_iff in E1. split; [exact E1|intros _; exact Hs1].
  - split; [|reflexivity]. intros H. apply Qlt_bool_iff in H. congruence.
Qed.

(** X7: [create_base_proposals_static] with [base_order_size].  When every
    active market has a volatility entry and, unless the token is the base of
    the market, a mid price other than zero, there is one proposal per active
    market, in order.  Its two prices are the mid price moved down and up by
    one and the same spread [s], quantized; [s] is at least the configured
    spread and at least the scaled volatility, unless a positive [max_spread]
    caps it, which [s] never exceeds.  Each leg is sized to [order_amount]: the
    amount itself when the token is the base of the market, else
    [size * price = order_amount], with the mid price for a price of zero. *)
Theorem create_base_proposals_static_spread
        (exchange : LiquidityMining.Exchange) (cfg : LiquidityMining.Config)
        (st : LiquidityMining.State) :
  NoDup (map fst (LiquidityMining.market_infos st)) ->
  (forall m mid, In (m, mid) (LiquidityMining.market_infos st) ->
     is_Some (LiquidityMining.volatility st !! m)
     /\ (LiquidityMining.token cfg <> base m -> ~ (mid == 0)%Q)) ->
  exists proposals,
    LiquidityMining.create_base_proposals_static exchange cfg st = Ok proposals
    /\ Forall2
         (fun (mi : Market * Q) (p : Proposal) =>
            market p = fst mi
            /\ exists s : Q,
                 PriceSize.price (buy p)
                 = LiquidityMining.quantize_order_price exchange (fst mi)
                     (snd mi * (1 - s))%Q
                 /\ PriceSize.price (sell p)
                    = LiquidityMining.quantize_order_price exchange (fst mi)
                        (snd mi * (1 + s))%Q
                 /\ ((0 < LiquidityMining.max_spread cfg)%Q ->
                     (s <= LiquidityMining.max_spread cfg)%Q
                     /\ ((LiquidityMining.spread cfg <= LiquidityMining.max_spread cfg)%Q ->
                         (LiquidityMining.spread cfg <= s)%Q))
                 /\ (~ (0 < LiquidityMining.max_spread cfg)%Q ->
                     (LiquidityMining.spread cfg <= s)%Q
                     /\ forall v, LiquidityMining.volatility st !! fst mi = Some (Dec v) ->
                          (v * LiquidityMining.volatility_to_spread_multiplier cfg <= s)%Q)
                 /\ forall leg, leg = buy p \/ leg = sell p ->
                      (LiquidityMining.token cfg = base (fst mi) ->
                       PriceSize.size leg = LiquidityMining.order_amount cfg)
                      /\ (LiquidityMining.token cfg <> base (fst mi) ->
                          (~ (PriceSize.price leg == 0)%Q ->
                           (PriceSize.size leg * PriceSize.price leg
                            == LiquidityMining.order_amount cfg)%Q)
                          /\ ((PriceSize.price leg == 0)%Q ->
                              (PriceSize.size leg * snd mi
                               == LiquidityMining.order_amount cfg)%Q)))
         (LiquidityMining.market_infos st) proposals.
Proof.
  intros Hnd Hok. unfold LiquidityMining.create_base_proposals_static.
  apply traverse_Forall2. intros [m mid] Hin.
  destruct (Hok m mid Hin) as [[vol Hvol] Hmid].
  unfold getitem. rewrite Hvol. rsimpl. cbv zeta.
  set (s1 := match vol with
             | s_decimal_nan => LiquidityMining.spread cfg
             | Dec v => LiquidityMining.Qmax (LiquidityMining.spread cfg)
                          (v * LiquidityMining.volatility_to_spread_multiplier cfg)
             end).
  assert (Hs1 : (LiquidityMining.spread cfg <= s1)%Q
                /\ forall v, vol = Dec v ->
                     (v * LiquidityMining.volatility_to_spread_multiplier cfg <= s1)%Q).
  { unfold s1, LiquidityMining.Qmax. destruct vol as [|v].
    - split; [apply Qle_refl|discriminate].
    - destruct (Qlt_bool _ _) eqn:E.
      + apply Qlt_bool_iff in E. split; [apply Qlt_le_weak, E|].
        intros ? [= <-]. apply Qle_refl.
      + apply Qlt_bool_false_iff in E. split; [apply Qle_refl|].
        intros ? [= <-]. exact E. }
  destruct (static_spread_bounds _ (LiquidityMining.max_spread cfg) s1 (proj1 Hs1))
    as [Hcap Hfree].
  set (s := if Qlt_bool 0 (LiquidityMining.max_spread cfg)
            then LiquidityMining.Qmin s1 (LiquidityMining.max_spread cfg) else s1) in *.
  unfold LiquidityMining.make_proposal. cbv zeta.
  destruct (base_order_size_value cfg st Hnd m mid
              (LiquidityMining.quantize_order_price exchange m (mid * (1 - s))%Q)
              Hin Hmid) as (bs & -> & Hbs).
  destruct (base_order_size_value cfg st Hnd m mid
              (LiquidityMining.quantize_order_price exchange m (mid * (1 + s))%Q)
              Hin Hmid) as (ss & -> & Hss).
  rsimpl. eexists. split; [reflexivity|]. cbn [market buy sell fst snd].
  split; [reflexivity|]. exists s. cbn [PriceSize.price PriceSize.size].
  split; [reflexivity|]. split; [reflexivity|]. split; [exact Hcap|]. split.
  - intros Hno. rewrite (Hfree Hno). split; [apply Hs1|].
    intros v Hv. apply Hs1. congruence.
  - intros leg [->| ->]; cbn [PriceSize.price PriceSize.size]; assumption.
Qed.

Lemma create_base_proposals_static_spread_witness :
  exists proposals,
    LiquidityMining.create_base_proposals_static (Inputs.binance Inputs.btc_only)
      (Inputs.lm_config false) Inputs.two_markets = Ok proposals
    /\ map market proposals = [Inputs.BTC_USDT; Inputs.ETH_USDT].
Proof.
  destruct (create_base_proposals_static_spread (Inputs.binance Inputs.btc_only)
              (Inputs.lm_config false) Inputs.two_markets two_markets_distinct)
    as (proposals & Hrun & Hall).
  { intros m mid [[= <- <-]|[[= <- <-]|[]]]; (split; [eexists; reflexivity|]);
      intros _ H; vm_compute in H; discriminate. }
  exists proposals. split; [exact Hrun|].
  inversion Hall as [|? p1 ? ps1 [H1 _] Hall1]; subst.
  inversion Hall1 as [|? p2 ? ps2 [H2 _] Hall2]; subst.
  inversion Hall2; subst. cbn [map]. rewrite H1, H2. reflexivity.
Defined.

(** ** The budget constraint *)

Lemma getitem_Some `{Countable K} {V} (d : gmap K V) (k : K) (v : V) :
  d !! k = Some v -> getitem d k = Ok v.
Proof. intros Hk. unfold getitem. rewrite Hk. reflexivity. Qed.

Section BudgetConstraintFacts.
Import LiquidityMining.

Variable exchange : Exchange.
Variable buy_fee_percent : string -> string -> Q -> Q -> Q.

Hypothesis quantize_down : forall m a,
  (0 <= a)%Q ->
  (0 <= quantize_order_amount exchange m a)%Q
  /\ (quantize_order_amount exchange m a <= a)%Q.
Hypothesis fee_nonneg : forall b q s p, (0 <= buy_fee_percent b q s p)%Q.

Lemma constrain_proposal_effect (balances : gmap string Q) (done : list Proposal)
      (p : Proposal) :
  nonnegative balances -> well_formed p -> funded balances p ->
  exists balances' p',
    constrain_proposal exchange buy_fee_percent (balances, done) p
    = Ok (balances', done ++ [p'])
    /\ nonnegative balances'
    /\ (forall t, is_Some (balances' !! t) <-> is_Some (balances !! t))
    /\ shrunk p p'
    /\ forall t b, balances !! t = Some b ->
         exists b', balances' !! t = Some b'
                    /\ (b' + committed buy_fee_percent t (p, p') <= b)%Q.
Proof.
  intros Hnn (Hsell & Hbuy & Hprice) [[b Hb] [q0 Hq0]].
  unfold constrain_proposal. cbv zeta. rewrite (getitem_Some _ _ _ Hb). rsimpl.
  set (bt := base (market p)) in *. set (qt := quote (market p)) in *.
  set (fee := buy_fee_percent bt qt (PriceSize.size (buy p)) (PriceSize.price (buy p))).
  pose proof (fee_nonneg bt qt (PriceSize.size (buy p)) (PriceSize.price (buy p)))
    as Hfee. fold fee in Hfee.
  pose proof (Hnn _ _ Hb) as Hb0.
  set (sell_raw := if Qlt_bool b (PriceSize.size (sell p)) then b
                   else PriceSize.size (sell p)).
  assert (Hraw : (0 <= sell_raw)%Q /\ (sell_raw <= b)%Q
                 /\ (sell_raw <= PriceSize.size (sell p))%Q).
  { unfold sell_raw. destruct (Qlt_bool b (PriceSize.size (sell p))) eqn:E.
    - apply Qlt_bool_iff in E. repeat split; lra.
    - apply Qlt_bool_false_iff in E. repeat split; lra. }
  destruct (quantize_down (market p) sell_raw (proj1 Hraw)) as [Hs0 Hs1].
  set (sell_size := quantize_order_amount exchange (market p) sell_raw) in *.
  set (balances1 := <[bt := (b - sell_size)%Q]> balances).
  assert (Hq : exists q, balances1 !! qt = Some q /\ (0 <= q)%Q
                 /\ q = if decide (bt = qt) then (b - sell_size)%Q else q0).
  { unfold balances1. destruct (decide (bt = qt)) as [Heq|Hne].
    - rewrite <- Heq, lookup_insert_eq. eexists. split; [reflexivity|].
      split; [lra|reflexivity].
    - rewrite lookup_insert_ne by exact Hne. exists q0. split; [exact Hq0|].
      split; [exact (Hnn _ _ Hq0)|reflexivity]. }
  destruct Hq as (q & Hq & Hq_nn & Hq_eq).
  fold sell_raw. fold sell_size. fold balances1.
  rewrite (getitem_Some _ _ _ Hq). rsimpl.
  set (quote_raw := (PriceSize.size (buy p) * PriceSize.price (buy p))%Q).
  assert (Hqr : (0 <= quote_raw)%Q) by (unfold quote_raw; nra).
  set (quote_size := if Qlt_bool q quote_raw then q else quote_raw).
  assert (Hqs : (0 <= quote_size)%Q /\ (quote_size <= q)%Q /\ (quote_size <= quote_raw)%Q).
  { unfold quote_size. destruct (Qlt_bool q quote_raw) eqn:E.
    - apply Qlt_bool_iff in E. repeat split; lra.
    - apply Qlt_bool_false_iff in E. repeat split; lra. }
  set (d := (PriceSize.price (buy p) * (1 + fee))%Q).
  assert (Hd : (0 < d)%Q) by (unfold d; nra).
  assert (Hd0 : ~ (d == 0)%Q) by (intros H0; rewrite H0 in Hd; apply (Qlt_irrefl 0), Hd).
  rewrite div_nonzero by exact Hd0. rsimpl.
  assert (Hbr : (0 <= quote_size / d)%Q).
  { apply Qle_shift_div_l; [exact Hd|]. lra. }
  destruct (quantize_down (market p) (quote_size / d)%Q Hbr) as [Hb0' Hb1].
  set (buy_size := quantize_order_amount exchange (market p) (quote_size / d)%Q) in *.
  assert (Hcost : (buy_size * d <= quote_size)%Q).
  { assert (Hm : (buy_size * d <= quote_size / d * d)%Q)
      by (apply Qmult_le_compat_r; [exact Hb1|lra]).
    assert (He : (quote_size / d * d == quote_size)%Q) by (field; exact Hd0).
    rewrite He in Hm. exact Hm. }
  assert (Hle : (buy_size <= PriceSize.size (buy p))%Q).
  { assert (H1 : (buy_size * d <= PriceSize.size (buy p) * d)%Q).
    { eapply Qle_trans; [exact Hcost|]. eapply Qle_trans; [apply Hqs|].
      assert (Hx : (0 <= PriceSize.size (buy p) * PriceSize.price (buy p) * fee)%Q)
        by (apply Qmult_le_0_compat; [apply Qmult_le_0_compat; lra|exact Hfee]).
      unfold quote_raw, d. lra. }
    apply Qmult_lt_0_le_reg_r in H1; assumption. }
  eexists _, (set_sizes p buy_size sell_size). split; [reflexivity|].
  split; [|split; [|split]].
  - intros t v Hv. destruct (decide (qt = t)) as [<-|Hne].
    + rewrite lookup_insert_eq in Hv. injection Hv as <-. lra.
    + rewrite lookup_insert_ne in Hv by exact Hne. unfold balances1 in Hv.
      destruct (decide (bt = t)) as [<-|Hne'].
      * rewrite lookup_insert_eq in Hv. injection Hv as <-. lra.
      * rewrite lookup_insert_ne in Hv by exact Hne'. exact (Hnn _ _ Hv).
  - intros t. unfold balances1. rewrite !lookup_insert_is_Some.
    split.
    + intros [<-|[_ [<-|[_ H]]]]; eauto.
    + intros H. destruct (decide (qt = t)); [left; assumption|right].
      split; [assumption|]. destruct (decide (bt = t)); [left; assumption|right].
      split; assumption.
  - unfold shrunk, set_sizes. cbn [market buy sell PriceSize.price PriceSize.size].
    repeat split; try assumption; lra.
  - intros t v Hv. unfold committed, set_sizes.
    cbn [market buy sell PriceSize.price PriceSize.size]. fold bt qt fee.
    assert (Hcost' : (buy_size * PriceSize.price (buy p) * (1 + fee) <= quote_size)%Q)
      by (unfold d in Hcost; lra).
    destruct (decide (qt = t)) as [<-|Hne].
    + rewrite lookup_insert_eq, String.eqb_refl. eexists. split; [reflexivity|].
      destruct (String.eqb_spec bt qt) as [Heq|Hneq].
      * rewrite decide_True in Hq_eq by exact Heq. rewrite <- Heq in Hv.
        assert (v = b) by congruence. subst v q. lra.
      * rewrite decide_False in Hq_eq by exact Hneq.
        assert (v = q0) by congruence. subst v q. lra.
    + rewrite lookup_insert_ne by exact Hne. unfold balances1.
      destruct (String.eqb_spec qt t) as [|_]; [contradiction|].
      destruct (decide (bt = t)) as [<-|Hne'].
      * rewrite lookup_insert_eq, String.eqb_refl. eexists. split; [reflexivity|].
        assert (v = b) by congruence. subst v. lra.
      * rewrite lookup_insert_ne by exact Hne'.
        destruct (String.eqb_spec bt t) as [|_]; [contradiction|].
        exists v. split; [exact Hv|lra].
Qed.

Lemma constrain_fold (proposals : list Proposal) :
  forall (balances : gmap string Q) (done : list Proposal),
    nonnegative balances ->
    Forall well_formed proposals -> Forall (funded balances) proposals ->
    exists balances' constrained,
      foldM (constrain_proposal exchange buy_fee_percent) proposals (balances, done)
      = Ok (balances', done ++ constrained)
      /\ nonnegative balances'
      /\ Forall2 shrunk proposals constrained
      /\ forall t b, balances !! t = Some b ->
           exists b', balances' !! t = Some b'
             /\ (b' + sum (map (committed buy_fee_percent t)
                               (combine proposals constrained)) <= b)%Q.
Proof.
  induction proposals as [|p ps IH]; intros balances done Hnn Hwf Hfund.
  - exists balances, []. rewrite app_nil_r. split; [reflexivity|].
    split; [exact Hnn|]. split; [constructor|].
    intros t b Hb. exists b. split; [exact Hb|]. cbn. unfold sum. cbn. lra.
  - inversion Hwf as [|? ? Hwf1 Hwf']; subst.
    inversion Hfund as [|? ? Hfund1 Hfund']; subst.
    destruct (constrain_proposal_effect balances done p Hnn Hwf1 Hfund1)
      as (balances1 & p' & Hstep & Hnn1 & Hkeys & Hshrunk & Hcommit).
    destruct (IH balances1 (done ++ [p']) Hnn1 Hwf')
      as (balances' & constrained & Hrun & Hnn' & Hall & Hsum).
    { eapply Forall_impl; [exact Hfund'|]. intros p0 [H1 H2].
      split; apply Hkeys; assumption. }
    exists balances', (p' :: constrained). split.
    { cbn [foldM]. rewrite Hstep. rsimpl. rewrite Hrun.
      rewrite <- app_assoc. reflexivity. }
    split; [exact Hnn'|]. split; [constructor; assumption|].
    intros t b Hb. destruct (Hcommit t b Hb) as (b1 & Hb1 & Hle1).
    destruct (Hsum t b1 Hb1) as (b' & Hb' & Hle').
    exists b'. split; [exact Hb'|]. cbn [combine map]. rewrite sum_cons. lra.
Qed.

End BudgetConstraintFacts.

(** X8: [apply_budget_constraint], on an exchange whose
    [quantize_order_amount] rounds an amount down and with a fee that is not
    negative: for balances that are not negative and hold the tokens of the
    proposals, and proposals with sizes that are not negative and buy prices
    above zero, it returns; only the sizes of the proposals change, and they
    do not grow; the working balances never go below zero; and for every
    token the constrained proposals together commit no more than its
    balance: the sell sizes in that base plus the cost, fee included, of the
    buy sizes in that quote. *)
Theorem apply_budget_constraint_within_balances
        (exchange : LiquidityMining.Exchange)
        (buy_fee_percent : string -> string -> Q -> Q -> Q)
        (token_balances : gmap string Q) (proposals : list Proposal) :
  (forall m a, (0 <= a)%Q ->
     (0 <= LiquidityMining.quantize_order_amount exchange m a)%Q
     /\ (LiquidityMining.quantize_order_amount exchange m a <= a)%Q) ->
  (forall b q s p, (0 <= buy_fee_percent b q s p)%Q) ->
  LiquidityMining.nonnegative token_balances ->
  Forall LiquidityMining.well_formed proposals ->
  Forall (LiquidityMining.funded token_balances) proposals ->
  exists balances' constrained,
    LiquidityMining.apply_budget_constraint exchange buy_fee_percent
      token_balances proposals = Ok (balances', constrained)
    /\ LiquidityMining.nonnegative balances'
    /\ Forall2 LiquidityMining.shrunk proposals constrained
    /\ forall t b, token_balances !! t = Some b ->
         (sum (map (LiquidityMining.committed buy_fee_percent t)
                   (combine proposals constrained)) <= b)%Q.
Proof.
  intros Hq Hfee Hnn Hwf Hfund.
  destruct (constrain_fold exchange buy_fee_percent Hq Hfee proposals
              token_balances [] Hnn Hwf Hfund)
    as (balances' & constrained & Hrun & Hnn' & Hall & Hsum).
  exists balances', constrained. split; [exact Hrun|]. split; [exact Hnn'|].
  split; [exact Hall|]. intros t b Hb.
  destruct (Hsum t b Hb) as (b' & Hb' & Hle).
  pose proof (Hnn' t b' Hb'). lra.
Qed.

Lemma apply_budget_constraint_within_balances_witness :
  exists balances' constrained,
    LiquidityMining.apply_budget_constraint (Inputs.binance Inputs.btc_only)
      Inputs.flat_fee Inputs.eth_account [Inputs.eth_proposal]
    = Ok (balances', constrained)
    /\ (sum (map (LiquidityMining.committed Inputs.flat_fee "USDT")
                 (combine [Inputs.eth_proposal] constrained)) <= 50)%Q
    /\ (sum (map (LiquidityMining.committed Inputs.flat_fee "ETH")
                 (combine [Inputs.eth_proposal] constrained)) <= 1)%Q.
Proof.
  destruct (apply_budget_constraint_within_balances (Inputs.binance Inputs.btc_only)
              Inputs.flat_fee Inputs.eth_account [Inputs.eth_proposal])
    as (balances' & constrained & Hrun & _ & _ & Hsum).
  - intros m a Ha. cbn. split; [exact Ha|apply Qle_refl].
  - intros b q s p. unfold Inputs.flat_fee. discriminate.
  - intros t b Hb. unfold Inputs.eth_account in Hb.
    apply lookup_insert_Some in Hb as [[_ <-]|[_ Hb]]; [discriminate|].
    apply lookup_singleton_Some in Hb as [_ <-]. discriminate.
  - constructor; [|constructor]. cbv. repeat split; discriminate.
  - constructor; [|constructor]. split; eexists; reflexivity.
  - exists balances', constrained. split; [exact Hrun|].
    split; apply Hsum; reflexivity.
Defined.

(** ** Order dispatch *)

Section DispatchFacts.
Import LiquidityMining.

Variable cfg : Config.
Variable st : State.

Let now := current_timestamp st.

Lemma requests_of_market (p : Proposal) (r : OrderRequest) :
  In r (requests_of p) -> request_market r = market p.
Proof.
  unfold requests_of. intros [H|H]%in_app_iff.
  - destruct (Qlt_bool 0 (PriceSize.size (buy p))); [|destruct H].
    destruct H as [<-|[]]. reflexivity.
  - destruct (Qlt_bool 0 (PriceSize.size (sell p))); [|destruct H].
    destruct H as [<-|[]]. reflexivity.
Qed.

(** One iteration of [execute_orders_proposal] on a market with a refresh
    time, a mid price other than zero and a volatility entry. *)
Lemma execute_proposal_step (times : gmap Market Q) (placed : list OrderRequest)
      (p : Proposal) (t mid : Q) :
  times !! market p = Some t ->
  get_mid_price st (market p) = Ok mid -> ~ (mid == 0)%Q ->
  is_Some (volatility st !! market p) ->
  execute_proposal cfg st (times, placed) p
  = Ok (if negb (nonempty (orders_of st (market p))) && Qle_bool t now
        then (if nonempty (requests_of p)
              then <[market p := (now + order_refresh_time cfg)%Q]> times
              else times,
              placed ++ requests_of p)
        else (times, placed)).
Proof.
  intros Ht Hmid Hmid0 [vol Hvol]. unfold execute_proposal. cbv zeta.
  destruct (nonempty (orders_of st (market p))); rsimpl; [reflexivity|].
  rewrite (getitem_Some _ _ _ Ht). rsimpl. unfold Qlt_bool at 1. fold now.
  destruct (Qle_bool t now); cbn [negb andb]; [|reflexivity].
  rewrite Hmid. rsimpl. unfold requests_of.
  rewrite !(div_nonzero _ mid Hmid0), (getitem_Some _ _ _ Hvol).
  destruct (Qlt_bool 0 (PriceSize.size (buy p)));
    destruct (Qlt_bool 0 (PriceSize.size (sell p)));
    rsimpl; cbn [orb app nonempty]; rewrite <- ?app_assoc, ?app_nil_r; reflexivity.
Qed.

Lemma execute_fold (proposals : list Proposal) :
  NoDup (map market proposals) ->
  forall (times : gmap Market Q) (placed : list OrderRequest),
    (forall p, In p proposals ->
       times !! market p = refresh_times st !! market p
       /\ is_Some (refresh_times st !! market p)
       /\ is_Some (volatility st !! market p)
       /\ exists mid, get_mid_price st (market p) = Ok mid /\ ~ (mid == 0)%Q) ->
    exists times' placed',
      foldM (execute_proposal cfg st) proposals (times, placed)
      = Ok (times', placed ++ placed')
      /\ (forall r, In r placed' <->
            exists p, In p proposals /\ In r (requests_of p) /\ due st p)
      /\ (forall r, In r placed' ->
            times' !! request_market r = Some (now + order_refresh_time cfg)%Q)
      /\ (forall m, (forall r, In r placed' -> request_market r <> m) ->
            times' !! m = times !! m).
Proof.
  induction proposals as [|p ps IH]; intros Hnd times placed Hok.
  - exists times, []. rewrite app_nil_r. split; [reflexivity|].
    split; [|split; [intros ? []|reflexivity]].
    intros r. split; [intros []|intros (p & [] & _)].
  - inversion Hnd as [|? ? Hnotin Hnd']; subst. rewrite list_elem_of_In in Hnotin.
    destruct (Hok p (or_introl eq_refl)) as (Hsame & [t Ht] & Hvol & mid & Hmid & Hmid0).
    assert (Ht' : times !! market p = Some t) by congruence.
    pose proof (execute_proposal_step times placed p t mid Ht' Hmid Hmid0 Hvol) as Hstep.
    set (go := negb (nonempty (orders_of st (market p))) && Qle_bool t now) in *.
    assert (Hgo : go = true <-> due st p).
    { unfold go, due. rewrite andb_true_iff, negb_true_iff. fold now. split.
      - intros [Hno Hle]. split; [destruct (orders_of st (market p)); [reflexivity|discriminate]|].
        exists t. split; [exact Ht|]. apply Qle_bool_iff, Hle.
      - intros [Hno (t' & Ht'' & Hle)]. rewrite Hno. split; [reflexivity|].
        apply Qle_bool_iff. congruence. }
    set (new := if go then requests_of p else []).
    set (times1 := if go then (if nonempty (requests_of p)
                               then <[market p := (now + order_refresh_time cfg)%Q]> times
                               else times) else times).
    assert (Hstep' : execute_proposal cfg st (times, placed) p = Ok (times1, placed ++ new)).
    { rewrite Hstep. unfold times1, new. destruct go; [reflexivity|].
      rewrite app_nil_r. reflexivity. }
    assert (Hother : forall m, m <> market p -> times1 !! m = times !! m).
    { intros m Hne. unfold times1. destruct go; [|reflexivity].
      destruct (nonempty (requests_of p)); [|reflexivity].
      apply lookup_insert_ne. congruence. }
    destruct (IH Hnd' times1 (placed ++ new)) as (times' & placed' & Hrun & Hin & Hset & Hrest).
    { intros p' Hp'. destruct (Hok p' (or_intror Hp')) as (Hs & H1 & H2 & H3).
      split; [|tauto]. rewrite Hother; [exact Hs|].
      intros Heq. apply Hnotin. rewrite <- Heq. apply in_map, Hp'. }
    assert (Hps : forall r, In r placed' -> request_market r <> market p).
    { intros r Hr Heq. apply Hin in Hr as (p' & Hp' & Hr' & _).
      apply requests_of_market in Hr'. apply Hnotin.
      rewrite <- Heq, Hr'. apply in_map, Hp'. }
    assert (Hnew : forall r, In r new <-> In r (requests_of p) /\ due st p).
    { intros r. unfold new. destruct go.
      - split; [intros Hr; split; [exact Hr|apply Hgo; reflexivity]|tauto].
      - split; [intros []|]. intros [_ Hd]. apply Hgo in Hd. discriminate. }
    exists times', (new ++ placed'). split.
    { cbn [foldM]. rewrite Hstep'. rsimpl. rewrite Hrun, app_assoc. reflexivity. }
    split; [|split].
    + intros r. rewrite in_app_iff, Hnew, Hin. split.
      * intros [[Hr Hd]|(p' & Hp' & Hr & Hd)]; [exists p|exists p']; cbn [In]; tauto.
      * intros (p' & [<-|Hp'] & Hr & Hd); [left; tauto|right; exists p'; tauto].
    + intros r [Hr|Hr]%in_app_iff; [|apply Hset, Hr].
      apply Hnew in Hr as [Hr Hd]. rewrite (requests_of_market _ _ Hr).
      rewrite Hrest by exact Hps. unfold times1.
      apply Hgo in Hd. rewrite Hd.
      destruct (requests_of p); [destruct Hr|]. cbn [nonempty].
      apply lookup_insert_eq.
    + intros m Hm. rewrite Hrest by (intros r Hr; apply Hm, in_app_iff; right; exact Hr).
      unfold times1. destruct go eqn:Ego; [|reflexivity].
      destruct (requests_of p) as [|r0 rs] eqn:Ereq; [reflexivity|]. cbn [nonempty].
      apply lookup_insert_ne. intros Heq.
      apply (Hm r0); [apply in_app_iff; left; unfold new; left; reflexivity|].
      rewrite <- Heq. apply requests_of_market. rewrite Ereq. left. reflexivity.
Qed.

(** A market whose refresh time lies ahead gets no order, whatever its
    proposals and live orders. *)
Lemma execute_fold_blocked (m : Market) (proposals : list Proposal) :
  forall (times times' : gmap Market Q) (placed placed' : list OrderRequest),
    foldM (execute_proposal cfg st) proposals (times, placed) = Ok (times', placed') ->
    (exists t, times !! m = Some t /\ (now < t)%Q) ->
    (forall r, In r placed -> request_market r <> m) ->
    forall r, In r placed' -> request_market r <> m.
Proof.
  induction proposals as [|p ps IH]; intros times times' placed placed' H Ht Hplaced.
  - injection H as <- <-. exact Hplaced.
  - cbn [foldM] in H. inv_bind H. destruct a as [times1 placed1].
    apply (IH _ _ _ _ H); clear IH H.
    + destruct Ht as (t & Ht & Hlt). unfold execute_proposal in E. cbv zeta in E.
      inv_bind E. rename a into skip. destruct skip; [injection E as <- _; eauto|].
      assert (Hne : market p <> m).
      { intros Heq. rewrite Heq in E0.
        destruct (nonempty (orders_of st m)); [discriminate|].
        rewrite (getitem_Some _ _ _ Ht) in E0. rsimpl. injection E0 as E0.
        fold now in E0. apply Qlt_bool_iff in Hlt. congruence. }
      inv_bind E. inv_bind E. inv_bind E.
      destruct (_ || _) in E.
      * inv_bind E. injection E as <- _. exists t.
        rewrite lookup_insert_ne by exact Hne. auto.
      * injection E as <- _. eauto.
    + unfold execute_proposal in E. cbv zeta in E.
      inv_bind E. rename a into skip. destruct skip; [injection E as _ <-; exact Hplaced|].
      assert (Hne : market p <> m).
      { intros Heq. rewrite Heq in E0. destruct Ht as (t & Ht & Hlt).
        destruct (nonempty (orders_of st m)); [discriminate|].
        rewrite (getitem_Some _ _ _ Ht) in E0. rsimpl. injection E0 as E0.
        fold now in E0. apply Qlt_bool_iff in Hlt. congruence. }
      inv_bind E. rename a into mid. inv_bind E. rename a into placed_b.
      inv_bind E. rename a into placed_s.
      assert (Hb : forall r, In r placed_b -> request_market r <> m).
      { clear E E3. destruct (Qlt_bool 0 (PriceSize.size (buy p))).
        - inv_bind E2. injection E2 as <-.
          intros r [Hr|[<-|[]]]%in_app_iff; [auto|exact Hne].
        - injection E2 as <-. exact Hplaced. }
      assert (Hs : forall r, In r placed_s -> request_market r <> m).
      { clear E E2. destruct (Qlt_bool 0 (PriceSize.size (sell p))).
        - inv_bind E3. injection E3 as <-.
          intros r [Hr|[<-|[]]]%in_app_iff; [auto|exact Hne].
        - injection E3 as <-. exact Hb. }
      destruct (_ || _) in E; [inv_bind E|]; injection E as _ <-; exact Hs.
Qed.

End DispatchFacts.



Section CancelThenExecute.
Import LiquidityMining.

Variable cfg : Config.
Variable order_age : LimitOrder.t -> Q -> Q.
Variable st : State.

Let now := current_timestamp st.

Lemma cancel_order_waits (p : Proposal) (orders : list LimitOrder.t) :
  (forall o, In o orders -> LimitOrder.trading_pair o = market p) ->
  forall times cancels times' cancels',
    foldM (cancel_order st p) orders (times, cancels) = Ok (times', cancels') ->
    (forall m id, In (m, id) cancels -> times !! m = Some (now + (1 # 10))%Q) ->
    forall m id, In (m, id) cancels' -> times' !! m = Some (now + (1 # 10))%Q.
Proof.
  induction orders as [|o os IH]; intros Hpair times cancels times' cancels' H Hinv.
  - injection H as <- <-. exact Hinv.
  - cbn [foldM] in H. inv_bind H. destruct a as [times1 cancels1].
    apply (IH (fun o' Ho' => Hpair o' (or_intror Ho')) _ _ _ _ H). clear IH H.
    unfold cancel_order in E. inv_bind E. injection E as <- <-.
    rewrite (Hpair o (or_introl eq_refl)). fold now.
    intros m id [Hin|[[= <- _]|[]]]%in_app_iff.
    + destruct (decide (market p = m)) as [<-|Hne].
      * apply lookup_insert_eq.
      * rewrite lookup_insert_ne by exact Hne. apply (Hinv m id Hin).
    + apply lookup_insert_eq.
Qed.

Lemma cancel_fold_waits (proposals : list Proposal) :
  forall times cancels times' cancels',
    foldM (cancel_proposal cfg order_age st) proposals (times, cancels)
    = Ok (times', cancels') ->
    (forall m id, In (m, id) cancels -> times !! m = Some (now + (1 # 10))%Q) ->
    forall m id, In (m, id) cancels' -> times' !! m = Some (now + (1 # 10))%Q.
Proof.
  induction proposals as [|p ps IH]; intros times cancels times' cancels' H Hinv.
  - injection H as <- <-. exact Hinv.
  - cbn [foldM] in H. inv_bind H. destruct a as [times1 cancels1].
    apply (IH _ _ _ _ H). clear IH H.
    unfold cancel_proposal in E. inv_bind E. destruct a.
    + eapply cancel_order_waits; [|exact E|exact Hinv].
      intros o Ho. unfold orders_of in Ho. apply filter_In in Ho as [_ Ho].
      apply bool_decide_eq_true in Ho. exact Ho.
    + injection E as <- <-. exact Hinv.
Qed.

End CancelThenExecute.

(** X10: [cancel_active_orders] followed by [execute_orders_proposal] in one
    tick.  A market of which an order was cancelled gets no new order in that
    tick, whatever proposals are executed and whichever orders are still
    live: the cancellation moved its refresh time to
    [current_timestamp + 0.1]. *)
Theorem no_order_on_cancelled_market
        (cfg : LiquidityMining.Config) (order_age : LimitOrder.t -> Q -> Q)
        (st st' st'' : LiquidityMining.State) (proposals proposals' : list Proposal)
        (cancels : list (Market * string)) (live : list LimitOrder.t)
        (placed : list LiquidityMining.OrderRequest) (m : Market) (id : string) :
  LiquidityMining.cancel_active_orders cfg order_age st proposals = Ok (st', cancels) ->
  In (m, id) cancels ->
  LiquidityMining.execute_orders_proposal cfg
    (LiquidityMining.set_active_orders st' live) proposals' = Ok (st'', placed) ->
  forall r, In r placed -> LiquidityMining.request_market r <> m.
Proof.
  intros Hcancel Hin Hexec.
  unfold LiquidityMining.cancel_active_orders in Hcancel. inv_bind Hcancel.
  destruct a as [times cancels0]. injection Hcancel as <- <-. cbn [fst snd] in *.
  unfold LiquidityMining.execute_orders_proposal in Hexec. inv_bind Hexec.
  destruct a as [times' placed0]. injection Hexec as _ <-. cbn [fst snd] in *.
  pose proof (cancel_fold_waits cfg order_age st proposals _ _ _ _ E
                ltac:(intros ? ? []) m id Hin) as Hwait.
  eapply (execute_fold_blocked cfg _ m proposals' _ _ _ _ E0); [|intros ? []].
  cbn [LiquidityMining.current_timestamp LiquidityMining.set_active_orders
       LiquidityMining.set_refresh_times LiquidityMining.refresh_times] in *.
  eexists. split; [exact Hwait|].
  rewrite <- (Qplus_0_r (LiquidityMining.current_timestamp st)) at 1.
  apply Qplus_lt_r. reflexivity.
Qed.

Lemma no_order_on_cancelled_market_witness :
  exists st' cancels st'' placed,
    LiquidityMining.cancel_active_orders (Inputs.lm_config false) Inputs.age_4000
      Inputs.old_order_state [Inputs.eth_proposal] = Ok (st', cancels)
    /\ In (Inputs.ETH_USDT, "o1") cancels
    /\ LiquidityMining.execute_orders_proposal (Inputs.lm_config false)
         (LiquidityMining.set_active_orders st' []) [Inputs.eth_proposal]
       = Ok (st'', placed)
    /\ forall r, In r placed -> LiquidityMining.request_market r <> Inputs.ETH_USDT.
Proof.
  destruct (LiquidityMining.cancel_active_orders (Inputs.lm_config false) Inputs.age_4000
              Inputs.old_order_state [Inputs.eth_proposal])
    as [[st' cancels]|e] eqn:Hcancel; [|vm_compute in Hcancel; discriminate].
  assert (Hin : In (Inputs.ETH_USDT, "o1") cancels).
  { pose proof Hcancel as Hc. vm_compute in Hc. injection Hc as _ <-.
    left. reflexivity. }
  destruct (LiquidityMining.execute_orders_proposal (Inputs.lm_config false)
              (LiquidityMining.set_active_orders st' []) [Inputs.eth_proposal])
    as [[st'' placed]|e] eqn:Hexec.
  - exists st', cancels, st'', placed. split; [reflexivity|]. split; [exact Hin|].
    split; [exact Hexec|].
    exact (no_order_on_cancelled_market _ _ _ _ _ _ _ _ _ _ _ _ Hcancel Hin Hexec).
  - exfalso. pose proof Hcancel as Hc. vm_compute in Hc. injection Hc as <- _.
    vm_compute in Hexec. discriminate.
Defined.

(** ** Order-book validation *)

Section DictFacts.
Import LiquidityMining.
Context {K V : Type} `{EqDecision K}.
Implicit Types (d : list (K * V)) (k : K) (v : V).

Lemma dict_get_None d k : dict_get d k = None <-> ~ In k (map fst d).
Proof.
  induction d as [|[k0 v0] d IH]; cbn [dict_get map fst In]; [tauto|].
  destruct (decide (k0 = k)) as [->|Hne].
  - split; [discriminate|tauto].
  - rewrite IH. tauto.
Qed.

Lemma dict_get_set d k v k' :
  dict_get (dict_set d k v) k' = if decide (k = k') then Some v else dict_get d k'.
Proof.
  induction d as [|[k0 v0] d IH]; cbn [dict_set dict_get].
  - destruct (decide (k = k')); reflexivity.
  - destruct (decide (k0 = k)) as [->|Hne]; cbn [dict_get].
    + destruct (decide (k = k')); reflexivity.
    + rewrite IH. destruct (decide (k0 = k')) as [->|Hne'].
      * rewrite decide_False by congruence. reflexivity.
      * reflexivity.
Qed.

Lemma dict_set_keys d k v :
  map fst (dict_set d k v)
  = match dict_get d k with Some _ => map fst d | None => map fst d ++ [k] end.
Proof.
  induction d as [|[k0 v0] d IH]; cbn [dict_set dict_get map fst app]; [reflexivity|].
  destruct (decide (k0 = k)) as [->|Hne]; cbn [map fst]; [reflexivity|].
  rewrite IH. destruct (dict_get d k); reflexivity.
Qed.

Lemma dict_set_NoDup d k v : NoDup (map fst d) -> NoDup (map fst (dict_set d k v)).
Proof.
  intros Hnd. rewrite dict_set_keys. destruct (dict_get d k) eqn:E; [exact Hnd|].
  apply dict_get_None in E. apply NoDup_app. split; [exact Hnd|].
  split; [|apply NoDup_singleton].
  intros x Hx Hx'. apply list_elem_of_In in Hx. apply list_elem_of_singleton in Hx'.
  subst. contradiction.
Qed.

Lemma dict_pop_incl d k k' : In k' (map fst (dict_pop d k)) -> In k' (map fst d).
Proof.
  induction d as [|[k0 v0] d IH]; cbn [dict_pop map fst In]; [tauto|].
  destruct (decide (k0 = k)); cbn [map fst In]; tauto.
Qed.

Lemma dict_pop_NoDup d k : NoDup (map fst d) -> NoDup (map fst (dict_pop d k)).
Proof.
  induction d as [|[k0 v0] d IH]; intros Hnd; cbn [dict_pop]; [exact Hnd|].
  inversion Hnd as [|? ? Hnotin Hnd']; subst.
  destruct (decide (k0 = k)); [exact Hnd'|]. cbn [map fst]. constructor; [|auto].
  rewrite list_elem_of_In in *. intros Hin. apply Hnotin, (dict_pop_incl _ _ _ Hin).
Qed.

Lemma dict_get_pop d k k' :
  NoDup (map fst d) ->
  dict_get (dict_pop d k) k' = if decide (k = k') then None else dict_get d k'.
Proof.
  induction d as [|[k0 v0] d IH]; intros Hnd; cbn [dict_pop dict_get].
  - destruct (decide (k = k')); reflexivity.
  - inversion Hnd as [|? ? Hnotin Hnd']; subst. rewrite list_elem_of_In in Hnotin.
    destruct (decide (k0 = k)) as [->|Hne].
    + destruct (decide (k = k')) as [->|Hne']; [|reflexivity].
      apply dict_get_None. exact Hnotin.
    + cbn [dict_get]. rewrite (IH Hnd').
      destruct (decide (k0 = k')) as [->|Hne'].
      * rewrite decide_False by congruence. reflexivity.
      * reflexivity.
Qed.

Lemma dict_update_NoDup (other : list (K * V)) :
  forall d, NoDup (map fst d) -> NoDup (map fst (dict_update d other)).
Proof.
  unfold dict_update. induction other as [|[k v] other IH]; intros d Hnd; [exact Hnd|].
  cbn [fold_left fst snd]. apply IH, dict_set_NoDup, Hnd.
Qed.

Lemma dict_get_update (other : list (K * V)) :
  NoDup (map fst other) ->
  forall d k,
    dict_get (dict_update d other) k
    = match dict_get other k with Some v => Some v | None => dict_get d k end.
Proof.
  unfold dict_update. induction other as [|[k0 v0] other IH]; intros Hnd d k.
  - reflexivity.
  - inversion Hnd as [|? ? Hnotin Hnd']; subst. rewrite list_elem_of_In in Hnotin.
    cbn [fold_left fst snd dict_get]. rewrite (IH Hnd'), dict_get_set.
    destruct (decide (k0 = k)) as [->|Hne]; [|reflexivity].
    apply dict_get_None in Hnotin. rewrite Hnotin. reflexivity.
Qed.

End DictFacts.

Section ValidationFacts.
Import LiquidityMining.

Variable I : Type.
Variable book_is_empty : I -> bool.

(** What the loop leaves for the market of an item. *)
Lemma validate_market_effect (active paused : list (Market * I)) (m : Market) (info : I) :
  NoDup (map fst active) -> NoDup (map fst paused) ->
  let r := validate_market book_is_empty (active, paused) (m, info) in
  NoDup (map fst (fst r)) /\ NoDup (map fst (snd r))
  /\ dict_get (fst r) m = (if book_is_empty info then None else Some info)
  /\ dict_get (snd r) m = (if book_is_empty info then Some info else None)
  /\ forall m', m' <> m ->
       dict_get (fst r) m' = dict_get active m'
       /\ dict_get (snd r) m' = dict_get paused m'.
Proof.
  intros Ha Hp. unfold validate_market. destruct (book_is_empty info).
  - destruct (dict_get active m) eqn:E; cbn [fst snd].
    + split; [apply dict_pop_NoDup, Ha|]. split; [apply dict_set_NoDup, Hp|].
      rewrite dict_get_pop, dict_get_set, !decide_True by auto.
      split; [reflexivity|]. split; [reflexivity|].
      intros m' Hne. rewrite dict_get_pop, dict_get_set, !decide_False by auto.
      split; reflexivity.
    + split; [exact Ha|]. split; [apply dict_set_NoDup, Hp|].
      rewrite dict_get_set, decide_True by auto.
      split; [exact E|]. split; [reflexivity|].
      intros m' Hne. rewrite dict_get_set, decide_False by auto. split; reflexivity.
  - destruct (dict_get paused m) eqn:E; cbn [fst snd].
    + split; [apply dict_set_NoDup, Ha|]. split; [apply dict_pop_NoDup, Hp|].
      rewrite dict_get_pop, dict_get_set, !decide_True by auto.
      split; [reflexivity|]. split; [reflexivity|].
      intros m' Hne. rewrite dict_get_pop, dict_get_set, !decide_False by auto.
      split; reflexivity.
    + split; [apply dict_set_NoDup, Ha|]. split; [exact Hp|].
      rewrite dict_get_set, decide_True by auto.
      split; [reflexivity|]. split; [exact E|].
      intros m' Hne. rewrite dict_get_set, decide_False by auto. split; reflexivity.
Qed.

Lemma validate_fold (markets : list (Market * I)) :
  NoDup (map fst markets) ->
  forall active paused,
    NoDup (map fst active) -> NoDup (map fst paused) ->
    let r := fold_left (validate_market book_is_empty) markets (active, paused) in
    NoDup (map fst (fst r)) /\ NoDup (map fst (snd r))
    /\ forall m,
         match dict_get markets m with
         | Some info =>
             dict_get (fst r) m = (if book_is_empty info then None else Some info)
             /\ dict_get (snd r) m = (if book_is_empty info then Some info else None)
         | None =>
             dict_get (fst r) m = dict_get active m
             /\ dict_get (snd r) m = dict_get paused m
         end.
Proof.
  induction markets as [|[m0 info0] ms IH]; intros Hnd active paused Ha Hp.
  - cbn. auto.
  - inversion Hnd as [|? ? Hnotin Hnd']; subst. rewrite list_elem_of_In in Hnotin.
    destruct (validate_market_effect active paused m0 info0 Ha Hp)
      as (Ha1 & Hp1 & Hget_a & Hget_p & Hother).
    cbn [fold_left].
    destruct (validate_market book_is_empty (active, paused) (m0, info0))
      as [active1 paused1]. cbn [fst snd] in *.
    destruct (IH Hnd' active1 paused1 Ha1 Hp1) as (Ha' & Hp' & Hall).
    cbv zeta. split; [exact Ha'|]. split; [exact Hp'|].
    intros m. cbn [dict_get]. specialize (Hall m).
    destruct (decide (m0 = m)) as [<-|Hne].
    + apply dict_get_None in Hnotin. rewrite Hnotin in Hall.
      destruct Hall as [-> ->]. auto.
    + destruct (dict_get ms m); [exact Hall|].
      destruct Hall as [-> ->]. apply Hother. congruence.
Qed.

End ValidationFacts.

(** X11: [_validate_order_book_for_markets].  A market is known when it is
    active or on hold; its market info is the one on hold when it is in both
    dicts.  Afterwards every known market is in exactly one of the two dicts,
    with its market info: on hold when its order book is empty, active
    otherwise; no other market is in either; and the value returned is the
    number of active markets. *)
Theorem validate_order_book_partition
        (I : Type) (book_is_empty : I -> bool)
        (market_infos empty_ob_market_infos : list (Market * I)) :
  NoDup (map fst market_infos) -> NoDup (map fst empty_ob_market_infos) ->
  exists active on_hold,
    LiquidityMining._validate_order_book_for_markets book_is_empty
      market_infos empty_ob_market_infos = (active, on_hold, length active)
    /\ NoDup (map fst active) /\ NoDup (map fst on_hold)
    /\ forall m,
         match match LiquidityMining.dict_get empty_ob_market_infos m with
               | Some info => Some info
               | None => LiquidityMining.dict_get market_infos m
               end with
         | Some info =>
             if book_is_empty info
             then LiquidityMining.dict_get active m = None
                  /\ LiquidityMining.dict_get on_hold m = Some info
             else LiquidityMining.dict_get active m = Some info
                  /\ LiquidityMining.dict_get on_hold m = None
         | None =>
             LiquidityMining.dict_get active m = None
             /\ LiquidityMining.dict_get on_hold m = None
         end.
Proof.
  intros Ha Hp. unfold LiquidityMining._validate_order_book_for_markets. cbv zeta.
  destruct (validate_fold I book_is_empty
              (LiquidityMining.dict_update market_infos empty_ob_market_infos)
              (dict_update_NoDup _ _ Ha) market_infos empty_ob_market_infos Ha Hp)
    as (Ha' & Hp' & Hall).
  eexists _, _. split; [reflexivity|]. split; [exact Ha'|]. split; [exact Hp'|].
  intros m. specialize (Hall m). rewrite (dict_get_update _ Hp) in Hall.
  destruct (LiquidityMining.dict_get empty_ob_market_infos m) as [info|] eqn:E.
  - destruct (book_is_empty info); exact Hall.
  - destruct (LiquidityMining.dict_get market_infos m) as [info|] eqn:E'.
    + destruct (book_is_empty info); exact Hall.
    + exact Hall.
Qed.

Lemma validate_order_book_partition_witness :
  exists active on_hold,
    LiquidityMining._validate_order_book_for_markets (fun empty : bool => empty)
      Inputs.books_active Inputs.books_on_hold = (active, on_hold, length active)
    /\ LiquidityMining.dict_get active Inputs.DOGE_USDT = Some false
    /\ LiquidityMining.dict_get on_hold Inputs.DOGE_USDT = None
    /\ LiquidityMining.dict_get active Inputs.BTC_USDT = None
    /\ LiquidityMining.dict_get on_hold Inputs.BTC_USDT = Some true.
Proof.
  destruct (validate_order_book_partition bool (fun empty : bool => empty)
              Inputs.books_active Inputs.books_on_hold)
    as (active & on_hold & Hrun & _ & _ & Hall).
  - cbn. repeat constructor; rewrite ?elem_of_cons, ?elem_of_nil;
      unfold Inputs.BTC_USDT, Inputs.ETH_USDT; intuition congruence.
  - cbn. repeat constructor; rewrite ?elem_of_nil; tauto.
  - exists active, on_hold. split; [exact Hrun|].
    pose proof (Hall Inputs.DOGE_USDT) as Hdoge. pose proof (Hall Inputs.BTC_USDT) as Hbtc.
    vm_compute in Hdoge, Hbtc. tauto.
Defined.

(** ** Fills of any trade type *)

(** X12: [did_fill_order] for every trade type.  When the budgets hold the
    market of a tracked order, the handler returns; a fill that is not a BUY,
    a RANGE fill included, is booked as a sell; and for every market the
    value of its two budgets at the fill price,
    [buy_budget + sell_budget * price], is what it was: a fill moves value
    between the two budgets of its market and touches nothing else of the
    strategy. *)
Theorem did_fill_order_conserves_value
        (tracker : string -> option Market) (st : LiquidityMining.State)
        (event : LiquidityMining.OrderFilledEvent) :
  (forall m, tracker (LiquidityMining.order_id event) = Some m ->
     is_Some (LiquidityMining.buy_budgets st !! m)
     /\ is_Some (LiquidityMining.sell_budgets st !! m)) ->
  exists st',
    LiquidityMining.did_fill_order tracker st event = Ok st'
    /\ (forall m b s,
          LiquidityMining.buy_budgets st !! m = Some b ->
          LiquidityMining.sell_budgets st !! m = Some s ->
          exists b' s',
            LiquidityMining.buy_budgets st' !! m = Some b'
            /\ LiquidityMining.sell_budgets st' !! m = Some s'
            /\ (b' + s' * LiquidityMining.fill_price event
                == b + s * LiquidityMining.fill_price event)%Q
            /\ (tracker (LiquidityMining.order_id event) = Some m ->
                LiquidityMining.trade_type event <> BUY ->
                s' = (s - LiquidityMining.amount event)%Q))
    /\ LiquidityMining.market_infos st' = LiquidityMining.market_infos st
    /\ LiquidityMining.refresh_times st' = LiquidityMining.refresh_times st
    /\ LiquidityMining.volatility st' = LiquidityMining.volatility st
    /\ LiquidityMining.active_orders st' = LiquidityMining.active_orders st.
Proof.
  intros Hkeys. unfold LiquidityMining.did_fill_order.
  destruct (tracker (LiquidityMining.order_id event)) as [m0|] eqn:Hm.
  - destruct (Hkeys m0 eq_refl) as [[b0 Hb0] [s0 Hs0]].
    assert (Hcase : forall m b s (b1 s1 : Q),
              (b1 + s1 * LiquidityMining.fill_price event
               == b0 + s0 * LiquidityMining.fill_price event)%Q ->
              LiquidityMining.buy_budgets st !! m = Some b ->
              LiquidityMining.sell_budgets st !! m = Some s ->
              exists b' s',
                <[m0 := b1]> (LiquidityMining.buy_budgets st) !! m = Some b'
                /\ <[m0 := s1]> (LiquidityMining.sell_budgets st) !! m = Some s'
                /\ (b' + s' * LiquidityMining.fill_price event
                    == b + s * LiquidityMining.fill_price event)%Q
                /\ (Some m0 = Some m -> s' = s1 /\ s = s0)).
    { intros m b s b1 s1 Heq Hb Hs. destruct (decide (m0 = m)) as [<-|Hne].
      - rewrite !lookup_insert_eq. exists b1, s1.
        assert (b = b0) by congruence. assert (s = s0) by congruence. subst.
        split; [reflexivity|]. split; [reflexivity|]. split; [exact Heq|auto].
      - rewrite !lookup_insert_ne by exact Hne. exists b, s.
        split; [exact Hb|]. split; [exact Hs|]. split; [reflexivity|congruence]. }
    destruct (LiquidityMining.trade_type event) eqn:Ht;
      rewrite (getitem_Some _ _ _ Hb0), (getitem_Some _ _ _ Hs0); rsimpl;
      (eexists; split; [reflexivity|]);
      cbn [LiquidityMining.set_budgets LiquidityMining.buy_budgets
           LiquidityMining.sell_budgets LiquidityMining.market_infos
           LiquidityMining.refresh_times LiquidityMining.volatility
           LiquidityMining.active_orders];
      (split; [|repeat split]); intros m b s Hb Hs.
    + destruct (Hcase m b s
                  (b0 - LiquidityMining.amount event * LiquidityMining.fill_price event)%Q
                  (s0 + LiquidityMining.amount event)%Q ltac:(ring) Hb Hs)
        as (b' & s' & H1 & H2 & H3 & _).
      exists b', s'. split; [exact H1|]. split; [exact H2|]. split; [exact H3|].
      intros _ Hn. congruence.
    + destruct (Hcase m b s
                  (b0 + LiquidityMining.amount event * LiquidityMining.fill_price event)%Q
                  (s0 - LiquidityMining.amount event)%Q ltac:(ring) Hb Hs)
        as (b' & s' & H1 & H2 & H3 & H4).
      exists b', s'. split; [exact H1|]. split; [exact H2|]. split; [exact H3|].
      intros Heq _. destruct (H4 Heq) as [-> ->]. reflexivity.
    + destruct (Hcase m b s
                  (b0 + LiquidityMining.amount event * LiquidityMining.fill_price event)%Q
                  (s0 - LiquidityMining.amount event)%Q ltac:(ring) Hb Hs)
        as (b' & s' & H1 & H2 & H3 & H4).
      exists b', s'. split; [exact H1|]. split; [exact H2|]. split; [exact H3|].
      intros Heq _. destruct (H4 Heq) as [-> ->]. reflexivity.
  - exists st. split; [reflexivity|]. split; [|repeat split].
    intros m b s Hb Hs. exists b, s. split; [exact Hb|]. split; [exact Hs|].
    split; [reflexivity|discriminate].
Qed.

Lemma did_fill_order_conserves_value_witness :
  exists st',
    LiquidityMining.did_fill_order Inputs.eth_tracker Inputs.fill_state Inputs.range_fill
    = Ok st'
    /\ exists b' s',
         LiquidityMining.buy_budgets st' !! Inputs.ETH_USDT = Some b'
         /\ LiquidityMining.sell_budgets st' !! Inputs.ETH_USDT = Some s'
         /\ (b' + s' * 50 == 1000 + 1 * 50)%Q
         /\ s' = (1 - 2)%Q.
Proof.
  destruct (did_fill_order_conserves_value Inputs.eth_tracker Inputs.fill_state
              Inputs.range_fill)
    as (st' & Hrun & Hval & _).
  - intros m [= <-]. split; eexists; reflexivity.
  - exists st'. split; [exact Hrun|].
    destruct (Hval Inputs.ETH_USDT 1000%Q 1%Q eq_refl eq_refl)
      as (b' & s' & Hb & Hs & Heq & Hsell).
    exists b', s'. split; [exact Hb|]. split; [exact Hs|]. split; [exact Heq|].
    apply Hsell; [reflexivity|discriminate].
Defined.

(** ** The market-band feed and the dynamic proposals *)

Lemma miner_market_lookup (connector trading_pair : string) (market_id : Z) :
  default ∅ (MinerMarketBandDataFeed.miner_market !! connector) !! trading_pair
  = Some market_id
  <-> connector = "binance"
      /\ ((trading_pair = "FIRO-USDT" /\ market_id = 59)
          \/ (trading_pair = "BIFI-USDT" /\ market_id = 304)).
Proof.
  unfold MinerMarketBandDataFeed.miner_market. split.
  - destruct (decide (connector = "binance")) as [->|Hne].
    + rewrite lookup_singleton_eq. cbn [default from_option id]. intros H.
      split; [reflexivity|].
      apply lookup_insert_Some in H as [[<- <-]|[_ H]]; [left; auto|].
      apply lookup_singleton_Some in H as [<- <-]. right. auto.
    + rewrite lookup_singleton_ne by congruence. cbn [default from_option id].
      rewrite lookup_empty. discriminate.
  - intros [-> [[-> ->]|[-> ->]]]; rewrite lookup_singleton_eq; cbn [default from_option id].
    + apply lookup_insert_eq.
    + rewrite lookup_insert_ne by discriminate. apply lookup_singleton_eq.
Qed.

(** X13: [get_spread] returns data exactly for the two markets of
    [miner_market], [FIRO-USDT] and [BIFI-USDT] on [binance], whatever the
    case of the two names, when the endpoint answers the id of the market
    with HTTP 200, status [success] and at least one row; the data are the
    first row.  In every other case it returns [None]. *)
Theorem get_spread_served_markets
        (http_get : Z -> MinerMarketBandDataFeed.Response)
        (connector trading_pair : string) (data : MinerMarketBandDataFeed.SpreadData) :
  MinerMarketBandDataFeed.get_spread http_get connector trading_pair = Some data
  <-> lower connector = "binance"
      /\ exists rest,
           (upper trading_pair = "FIRO-USDT"
            /\ http_get 59
               = MinerMarketBandDataFeed.HttpResponse 200 "success" (data :: rest))
           \/ (upper trading_pair = "BIFI-USDT"
               /\ http_get 304
                  = MinerMarketBandDataFeed.HttpResponse 200 "success" (data :: rest)).
Proof.
  unfold MinerMarketBandDataFeed.get_spread. split.
  - destruct (default ∅ _ !! upper trading_pair) as [market_id|] eqn:Eid; [|discriminate].
    apply miner_market_lookup in Eid as [Hc Hid]. intros H. split; [exact Hc|].
    destruct (http_get market_id) as [|status api_status rows] eqn:Ehttp; [discriminate|].
    destruct (Z.eqb_spec status 200) as [->|]; [|discriminate]. cbn [negb] in H.
    destruct (String.eqb_spec api_status "success") as [->|]; [|discriminate].
    cbn [negb] in H. destruct rows as [|first rest]; [discriminate|].
    injection H as <-. exists rest.
    destruct Hid as [[Hp ->]|[Hp ->]]; [left|right]; auto.
  - intros [Hc [rest Hcase]].
    assert (Hid : exists market_id,
               default ∅ (MinerMarketBandDataFeed.miner_market !! lower connector)
                 !! upper trading_pair = Some market_id
               /\ http_get market_id
                  = MinerMarketBandDataFeed.HttpResponse 200 "success" (data :: rest)).
    { destruct Hcase as [[Hp Hget]|[Hp Hget]]; [exists 59|exists 304];
        (split; [apply miner_market_lookup; auto|exact Hget]). }
    destruct Hid as (market_id & -> & ->). reflexivity.
Qed.

Lemma get_spread_served_markets_witness :
  MinerMarketBandDataFeed.get_spread Inputs.band_endpoint "Binance" "firo-usdt"
  = Some Inputs.band_row.
Proof.
  apply get_spread_served_markets. split; [reflexivity|].
  exists []. left. split; reflexivity.
Defined.

(** X14: [create_base_proposals_dynamic] never returns a proposal.  With an
    active market it raises [TypeError] at the first one, whichever exchange,
    configuration and market it is and whatever the endpoint of the feed
    answers, the markets the feed serves included: [get_spread] is called on
    the class with two arguments and its parameter [trading_pair] has none.
    So does [create_base_proposals] with [dynamic_spread] set. *)
Theorem create_base_proposals_dynamic_raises
        (exchange : LiquidityMining.Exchange) (cfg : LiquidityMining.Config)
        (http_get : Z -> MinerMarketBandDataFeed.Response)
        (st : LiquidityMining.State) :
  LiquidityMining.market_infos st <> [] ->
  LiquidityMining.create_base_proposals_dynamic exchange cfg http_get st = Raise TypeError
  /\ (LiquidityMining.dynamic_spread cfg = true ->
      LiquidityMining.create_base_proposals exchange cfg http_get st = Raise TypeError).
Proof.
  intros Hsome.
  assert (Hraise : LiquidityMining.create_base_proposals_dynamic exchange cfg http_get st
                   = Raise TypeError).
  { unfold LiquidityMining.create_base_proposals_dynamic.
    destruct (LiquidityMining.market_infos st) as [|mi rest]; [congruence|].
    apply dynamic_loop_raises. }
  split; [exact Hraise|].
  intros Hdyn. unfold LiquidityMining.create_base_proposals. rewrite Hdyn. exact Hraise.
Qed.

(** [FIRO-USDT] on [binance] is served by the feed, and the endpoint answers
    with a row; proposal creation raises all the same. *)
Lemma create_base_proposals_dynamic_raises_witness :
  MinerMarketBandDataFeed.get_spread Inputs.band_endpoint "binance" "FIRO-USDT"
  = Some Inputs.band_row
  /\ LiquidityMining.create_base_proposals (Inputs.binance Inputs.btc_only)
       (Inputs.lm_config true) Inputs.band_endpoint Inputs.firo_doge_state
     = Raise TypeError.
Proof.
  split; [vm_compute; reflexivity|].
  apply (create_base_proposals_dynamic_raises (Inputs.binance Inputs.btc_only)
           (Inputs.lm_config true) Inputs.band_endpoint Inputs.firo_doge_state).
  - discriminate.
  - reflexivity.
Defined.

(** ** Funding-rate arbitrage: reports, positions and payments *)

Section AssocFacts.
Import FundingRateArbitrage.
Context {V : Type}.
Implicit Types (d : list (string * V)) (k : string) (v : V).

Lemma has_key_false d k : has_key d k = false <-> ~ In k (map fst d).
Proof.
  unfold has_key. induction d as [|[k0 v0] d IH]; cbn [existsb map fst In]; [tauto|].
  rewrite orb_false_iff, IH. destruct (String.eqb_spec k0 k) as [Heq|Hne].
  - split; [intros [H _]; discriminate|tauto].
  - split; [tauto|]. intros H. split; [reflexivity|tauto].
Qed.

Lemma setitem_new d k v : has_key d k = false -> setitem d k v = d ++ [(k, v)].
Proof.
  unfold has_key. induction d as [|[k0 v0] d IH]; cbn [existsb setitem app fst];
    [reflexivity|].
  intros [H1 H2]%orb_false_iff. rewrite H1, (IH H2). reflexivity.
Qed.

Lemma assoc_setitem d k v k' :
  assoc (setitem d k v) k' = if String.eqb k k' then Ok v else assoc d k'.
Proof.
  unfold assoc. induction d as [|[k0 v0] d IH]; cbn [setitem List.find fst snd].
  - destruct (String.eqb k k'); reflexivity.
  - destruct (String.eqb_spec k0 k) as [->|Hne]; cbn [List.find fst snd].
    + destruct (String.eqb k k'); reflexivity.
    + destruct (String.eqb_spec k0 k') as [->|Hne'].
      * destruct (String.eqb_spec k k'); [congruence|reflexivity].
      * exact IH.
Qed.

Lemma setitem_keys d k v : has_key d k = true -> map fst (setitem d k v) = map fst d.
Proof.
  unfold has_key. induction d as [|[k0 v0] d IH]; cbn [existsb setitem map fst];
    [discriminate|].
  destruct (String.eqb_spec k0 k) as [->|Hne]; cbn [orb map fst]; [reflexivity|].
  intros H. rewrite (IH H). reflexivity.
Qed.

Lemma assoc_has_key d k v : assoc d k = Ok v -> has_key d k = true.
Proof.
  unfold assoc, has_key. destruct (List.find _ d) as [kv|] eqn:E; [|discriminate].
  intros _. apply existsb_exists. exists kv. apply find_some in E. exact E.
Qed.

Lemma assoc_missing d k : has_key d k = false -> assoc d k = Raise KeyError.
Proof.
  unfold assoc, has_key. intros H.
  destruct (List.find _ d) as [kv|] eqn:E; [|reflexivity].
  apply find_some in E. assert (existsb (fun kv => fst kv =? k)%string d = true)
    by (apply existsb_exists; eauto). congruence.
Qed.

Lemma assoc_In d k v : NoDup (map fst d) -> In (k, v) d -> assoc d k = Ok v.
Proof.
  unfold assoc. induction d as [|[k0 v0] d IH]; intros Hnd Hin; [destruct Hin|].
  inversion Hnd as [|? ? Hnotin Hnd']; subst. rewrite list_elem_of_In in Hnotin.
  cbn [List.find fst snd]. destruct Hin as [[= -> ->]|Hin].
  - rewrite String.eqb_refl. reflexivity.
  - destruct (String.eqb_spec k0 k) as [->|Hne]; [|apply IH; assumption].
    exfalso. apply Hnotin. apply (in_map fst _ _ Hin).
Qed.

End AssocFacts.

Section ReportFacts.
Import FundingRateArbitrage.

Variable token : string.

Lemma funding_report_fold (connectors : list (string * Connector)) :
  forall report : list (string * FundingInfo),
    NoDup (map fst report ++ map fst connectors) ->
    fold_left (fun funding_rates '(connector_name, connector) =>
                 setitem funding_rates connector_name
                   (get_funding_info connector
                      (get_trading_pair_for_connector token connector_name)))
              connectors report
    = report ++ map (fun nc => (fst nc,
                                get_funding_info (snd nc)
                                  (get_trading_pair_for_connector token (fst nc))))
                    connectors.
Proof.
  induction connectors as [|[name c] cs IH]; intros report Hnd; cbn [fold_left map].
  - rewrite app_nil_r. reflexivity.
  - cbn [map fst] in Hnd. rewrite IH.
    + rewrite setitem_new.
      * rewrite <- app_assoc. reflexivity.
      * apply has_key_false. apply NoDup_app in Hnd as (_ & Hdisj & _).
        intros Hin. apply (Hdisj name); [apply list_elem_of_In, Hin|].
        apply list_elem_of_In. left. reflexivity.
    + rewrite setitem_new.
      * rewrite map_app. cbn [map fst]. rewrite <- app_assoc. exact Hnd.
      * apply has_key_false. apply NoDup_app in Hnd as (_ & Hdisj & _).
        intros Hin. apply (Hdisj name); [apply list_elem_of_In, Hin|].
        apply list_elem_of_In. left. reflexivity.
Qed.

(** With distinct connector names the report has one entry per connector,
    in the order of the connectors. *)
Lemma funding_report_entries (connectors : list (string * Connector)) :
  NoDup (map fst connectors) ->
  get_funding_info_by_token connectors token
  = map (fun nc => (fst nc,
                    get_funding_info (snd nc)
                      (get_trading_pair_for_connector token (fst nc))))
        connectors.
Proof.
  intros Hnd. unfold get_funding_info_by_token.
  rewrite funding_report_fold; [reflexivity|exact Hnd].
Qed.

End ReportFacts.

(** Evaluates the integer constants of a goal on rationals. *)
Ltac constants :=
  repeat match goal with
         | |- context [inject_Z ?z] =>
             let q := eval vm_compute in (inject_Z z) in
             progress change (inject_Z z) with q
         end.

(** X15: the funding rate of a connector, normalized and scaled to the
    profitability interval of one day, is its reported rate times 24 on
    [hyperliquid_perpetual], which pays every hour, and times 3 on every
    other connector, [binance_perpetual] and the connectors without an entry
    in [funding_payment_interval_map] alike; the rate is the one the
    connector reports for the token on its own quote market.  A name that is
    no connector raises [KeyError]. *)
Theorem normalized_funding_rate_per_day
        (connectors : list (string * FundingRateArbitrage.Connector))
        (token : string) :
  NoDup (map fst connectors) ->
  (forall name connector, In (name, connector) connectors ->
     exists r,
       FundingRateArbitrage.get_normalized_funding_rate_in_seconds
         (FundingRateArbitrage.get_funding_info_by_token connectors token) name = Ok r
       /\ (r * inject_Z FundingRateArbitrage.funding_profitability_interval
           == FundingRateArbitrage.rate
                (FundingRateArbitrage.get_funding_info connector
                   (FundingRateArbitrage.get_trading_pair_for_connector token name))
              * (if String.eqb name "hyperliquid_perpetual" then 24 else 3))%Q)
  /\ (forall name, ~ In name (map fst connectors) ->
        FundingRateArbitrage.get_normalized_funding_rate_in_seconds
          (FundingRateArbitrage.get_funding_info_by_token connectors token) name
        = Raise KeyError).
Proof.
  intros Hnd. rewrite (funding_report_entries token connectors Hnd). split.
  - intros name connector Hin.
    unfold FundingRateArbitrage.get_normalized_funding_rate_in_seconds.
    rewrite (assoc_In _ name
               (FundingRateArbitrage.get_funding_info connector
                  (FundingRateArbitrage.get_trading_pair_for_connector token name))).
    + rsimpl. eexists. split; [reflexivity|].
      unfold FundingRateArbitrage.funding_payment_interval_map,
        FundingRateArbitrage.funding_profitability_interval.
      destruct (String.eqb_spec name "hyperliquid_perpetual") as [->|Hh].
      * rewrite lookup_insert_ne by discriminate. rewrite lookup_singleton_eq.
        cbn [default from_option id]. constants. field.
      * destruct (decide (name = "binance_perpetual")) as [->|Hb].
        -- rewrite lookup_insert_eq. cbn [default from_option id]. constants. field.
        -- rewrite lookup_insert_ne by congruence.
           rewrite lookup_singleton_ne by congruence.
           cbn [default from_option id]. constants. field.
    + rewrite map_map. cbn [fst]. exact Hnd.
    + apply in_map_iff. exists (name, connector). split; [reflexivity|exact Hin].
  - intros name Hname.
    unfold FundingRateArbitrage.get_normalized_funding_rate_in_seconds.
    rewrite assoc_missing; [reflexivity|].
    apply has_key_false. rewrite map_map. cbn [fst]. exact Hname.
Qed.

Lemma normalized_funding_rate_per_day_witness :
  exists r,
    FundingRateArbitrage.get_normalized_funding_rate_in_seconds
      (FundingRateArbitrage.get_funding_info_by_token Inputs.venues "WIF")
      "hyperliquid_perpetual" = Ok r
    /\ (r * inject_Z FundingRateArbitrage.funding_profitability_interval
        == (1 # 10000) * 24)%Q.
Proof.
  assert (Hnd : NoDup (map fst Inputs.venues)).
  { cbn. repeat constructor; rewrite ?elem_of_cons, ?elem_of_nil; intuition discriminate. }
  destruct (proj1 (normalized_funding_rate_per_day Inputs.venues "WIF" Hnd)
              "hyperliquid_perpetual" (Inputs.venue (1 # 10000)%Q))
    as (r & Hr & Heq).
  - right. left. reflexivity.
  - exists r. split; [exact Hr|exact Heq].
Defined.

(** X16: [get_position_executors_config] builds a matched pair of positions.
    With a mid price other than zero on the first connector it returns two
    configs, one per connector, each on the pair of the token on its
    connector, with the leverage of the configuration and the current
    timestamp; both have the same amount, the position size at the mid price
    of the first connector; the first takes the trade side and the second the
    opposite one. *)
Theorem get_position_executors_config_matched
        (config : FundingRateArbitrage.FundingRateArbitrageConfig)
        (market_data_provider : FundingRateArbitrage.MarketDataProvider)
        (new_config_id : string -> Market -> TradeType -> string)
        (st : FundingRateArbitrage.State)
        (token connector_1 connector_2 : string) (trade_side : TradeType) :
  ~ (FundingRateArbitrage.get_mid_price_by_type market_data_provider connector_1
       (FundingRateArbitrage.get_trading_pair_for_connector token connector_1) == 0)%Q ->
  exists config_1 config_2,
    FundingRateArbitrage.get_position_executors_config config market_data_provider
      new_config_id st token connector_1 connector_2 trade_side = Ok (config_1, config_2)
    /\ FundingRateArbitrage.config_amount config_1
       = FundingRateArbitrage.config_amount config_2
    /\ (FundingRateArbitrage.config_amount config_1
        * FundingRateArbitrage.get_mid_price_by_type market_data_provider connector_1
            (FundingRateArbitrage.get_trading_pair_for_connector token connector_1)
        == FundingRateArbitrage.position_size_quote config)%Q
    /\ FundingRateArbitrage.config_side config_1 = trade_side
    /\ (trade_side = BUY -> FundingRateArbitrage.config_side config_2 = SELL)
    /\ (trade_side = SELL -> FundingRateArbitrage.config_side config_2 = BUY)
    /\ FundingRateArbitrage.connector_name config_1 = connector_1
    /\ FundingRateArbitrage.connector_name config_2 = connector_2
    /\ FundingRateArbitrage.trading_pair config_1
       = FundingRateArbitrage.get_trading_pair_for_connector token connector_1
    /\ FundingRateArbitrage.trading_pair config_2
       = FundingRateArbitrage.get_trading_pair_for_connector token connector_2
    /\ FundingRateArbitrage.config_leverage config_1 = FundingRateArbitrage.leverage config
    /\ FundingRateArbitrage.config_leverage config_2 = FundingRateArbitrage.leverage config.
Proof.
  intros Hmid. unfold FundingRateArbitrage.get_position_executors_config.
  cbv zeta. rewrite (div_nonzero _ _ Hmid). rsimpl.
  eexists _, _. split; [reflexivity|].
  cbn [FundingRateArbitrage.config_amount FundingRateArbitrage.config_side
       FundingRateArbitrage.connector_name FundingRateArbitrage.trading_pair
       FundingRateArbitrage.config_leverage].
  split; [reflexivity|]. split; [field; exact Hmid|]. split; [reflexivity|].
  split; [intros ->; reflexivity|]. split; [intros ->; reflexivity|].
  repeat split.
Qed.

Lemma get_position_executors_config_matched_witness :
  exists config_1 config_2,
    FundingRateArbitrage.get_position_executors_config Inputs.fra_config Inputs.provider
      Inputs.config_id_of Inputs.idle_state "WIF" "binance_perpetual"
      "hyperliquid_perpetual" BUY = Ok (config_1, config_2)
    /\ (FundingRateArbitrage.config_amount config_1 * 2 == 100)%Q
    /\ FundingRateArbitrage.config_side config_2 = SELL
    /\ FundingRateArbitrage.trading_pair config_2 = ("WIF", "USD").
Proof.
  destruct (get_position_executors_config_matched Inputs.fra_config Inputs.provider
              Inputs.config_id_of Inputs.idle_state "WIF" "binance_perpetual"
              "hyperliquid_perpetual" BUY)
    as (c1 & c2 & Hrun & _ & Hamount & _ & Hsell & _ & _ & _ & _ & Hpair & _).
  - discriminate.
  - exists c1, c2. split; [exact Hrun|]. split; [exact Hamount|].
    split; [apply Hsell; reflexivity|exact Hpair].
Defined.

Section RegistrationFacts.
Import FundingRateArbitrage.

Variable config : FundingRateArbitrageConfig.
Variable connectors : list (string * Connector).
Variable market_data_provider : MarketDataProvider.
Variable new_config_id : string -> Market -> TradeType -> string.

(** The loop of [create_actions_proposal] changes nothing, or appends one
    arbitrage for an idle token. *)
Lemma create_actions_loop_registers (st : State) (tokens : list string) st' actions :
  create_actions_loop config connectors market_data_provider new_config_id st tokens
  = Ok (st', actions) ->
  (actions = [] /\ st' = st)
  \/ exists token config_1 config_2 info,
       In token tokens
       /\ has_key (active_funding_arbitrages st) token = false
       /\ actions = [CreateExecutorAction config_1; CreateExecutorAction config_2]
       /\ st' = set_active st (active_funding_arbitrages st ++ [(token, info)])
       /\ executors_ids info = [config_id config_1; config_id config_2]
       /\ funding_payments info = []
       /\ connector_name config_1 = connector_1 info
       /\ connector_name config_2 = connector_2 info
       /\ config_side config_1 = side info
       /\ get_position_executors_config config market_data_provider new_config_id st
            token (connector_1 info) (connector_2 info) (side info)
          = Ok (config_1, config_2).
Proof.
  induction tokens as [|token rest IH]; cbn [create_actions_loop]; intros H.
  - injection H as <- <-. left. split; reflexivity.
  - assert (Hrest : create_actions_loop config connectors market_data_provider
                      new_config_id st rest = Ok (st', actions) ->
                    (actions = [] /\ st' = st)
                    \/ exists token0 config_1 config_2 info,
                         In token0 (token :: rest)
                         /\ has_key (active_funding_arbitrages st) token0 = false
                         /\ actions = [CreateExecutorAction config_1;
                                       CreateExecutorAction config_2]
                         /\ st' = set_active st
                                    (active_funding_arbitrages st ++ [(token0, info)])
                         /\ executors_ids info = [config_id config_1; config_id config_2]
                         /\ funding_payments info = []
                         /\ connector_name config_1 = connector_1 info
                         /\ connector_name config_2 = connector_2 info
                         /\ config_side config_1 = side info
                         /\ get_position_executors_config config market_data_provider
                              new_config_id st token0 (connector_1 info)
                              (connector_2 info) (side info)
                            = Ok (config_1, config_2)).
    { intros Hr. destruct (IH Hr) as [?|(t & c1 & c2 & i & Hin & ?)]; [left; assumption|].
      right. exists t, c1, c2, i. split; [right; exact Hin|assumption]. }
    destruct (has_key (active_funding_arbitrages st) token) eqn:Eactive;
      cbn [negb] in H; [exact (Hrest H)|].
    inv_bind H. destruct a as [[[[c1 c2] trade_side] diff]|]; [|discriminate].
    destruct (Qle_bool (min_funding_rate_profitability config) diff); [|exact (Hrest H)].
    inv_bind H. rename a into profitability.
    destruct (trade_profitability_condition_to_enter config && Qlt_bool profitability 0);
      [exact (Hrest H)|].
    inv_bind H. destruct a as [config_1 config_2]. cbn [fst snd] in H.
    injection H as <- <-. right.
    exists token, config_1, config_2,
      {| connector_1 := c1; connector_2 := c2;
         executors_ids := [config_id config_1; config_id config_2];
         side := trade_side; funding_payments := [] |}.
    cbn [executors_ids funding_payments connector_1 connector_2 side].
    split; [left; reflexivity|]. split; [exact Eactive|]. split; [reflexivity|].
    split; [rewrite (setitem_new _ _ _ Eactive); reflexivity|].
    split; [reflexivity|]. split; [reflexivity|].
    pose proof E1 as Hcfg. unfold get_position_executors_config in Hcfg.
    cbv zeta in Hcfg. inv_bind Hcfg. injection Hcfg as <- <-.
    cbn [connector_name config_side]. repeat split. exact E1.
Qed.

End RegistrationFacts.

(** X17: [create_actions_proposal] opens at most one arbitrage per call.
    When it returns, either there is no action and the strategy is as it was,
    or the actions are the two create actions of one token that had no
    active arbitrage, and that token is appended to
    [active_funding_arbitrages] with the two connectors and the side of the
    positions, the identifiers of the two executor configs and no funding
    payment; the arbitrages that were active, the history of the stopped ones
    and the executors are as they were. *)
Theorem create_actions_proposal_registers
        (config : FundingRateArbitrage.FundingRateArbitrageConfig)
        (connectors : list (string * FundingRateArbitrage.Connector))
        (market_data_provider : FundingRateArbitrage.MarketDataProvider)
        (new_config_id : string -> Market -> TradeType -> string)
        (st st' : FundingRateArbitrage.State)
        (actions : list FundingRateArbitrage.ExecutorAction) :
  FundingRateArbitrage.create_actions_proposal config connectors market_data_provider
    new_config_id st = Ok (st', actions) ->
  FundingRateArbitrage.stopped_funding_arbitrages st'
  = FundingRateArbitrage.stopped_funding_arbitrages st
  /\ FundingRateArbitrage.all_executors st' = FundingRateArbitrage.all_executors st
  /\ ((actions = [] /\ st' = st)
      \/ exists token config_1 config_2 info,
           In token (FundingRateArbitrage.tokens config)
           /\ FundingRateArbitrage.has_key
                (FundingRateArbitrage.active_funding_arbitrages st) token = false
           /\ actions = [FundingRateArbitrage.CreateExecutorAction config_1;
                         FundingRateArbitrage.CreateExecutorAction config_2]
           /\ FundingRateArbitrage.active_funding_arbitrages st'
              = FundingRateArbitrage.active_funding_arbitrages st ++ [(token, info)]
           /\ FundingRateArbitrage.executors_ids info
              = [FundingRateArbitrage.config_id config_1;
                 FundingRateArbitrage.config_id config_2]
           /\ FundingRateArbitrage.funding_payments info = []
           /\ FundingRateArbitrage.connector_name config_1
              = FundingRateArbitrage.connector_1 info
           /\ FundingRateArbitrage.connector_name config_2
              = FundingRateArbitrage.connector_2 info
           /\ FundingRateArbitrage.config_side config_1 = FundingRateArbitrage.side info).
Proof.
  intros H. unfold FundingRateArbitrage.create_actions_proposal in H.
  apply create_actions_loop_registers in H
    as [[-> ->]|(token & c1 & c2 & info & Hin & Hidle & -> & -> & Hids & Hpay & H1 & H2 & Hs & _)].
  - split; [reflexivity|]. split; [reflexivity|]. left. split; reflexivity.
  - split; [reflexivity|]. split; [reflexivity|]. right.
    exists token, c1, c2, info. repeat (split; [assumption || reflexivity|]). exact Hs.
Qed.

Lemma create_actions_proposal_registers_witness :
  exists st' actions,
    FundingRateArbitrage.create_actions_proposal Inputs.fra_config Inputs.venues
      Inputs.provider Inputs.config_id_of Inputs.idle_state = Ok (st', actions)
    /\ exists info,
         FundingRateArbitrage.active_funding_arbitrages st' = [("WIF", info)]
         /\ FundingRateArbitrage.funding_payments info = [].
Proof.
  destruct (FundingRateArbitrage.create_actions_proposal Inputs.fra_config Inputs.venues
              Inputs.provider Inputs.config_id_of Inputs.idle_state)
    as [[st' actions]|e] eqn:Hrun; [|vm_compute in Hrun; discriminate Hrun].
  exists st', actions. split; [reflexivity|].
  destruct (create_actions_proposal_registers _ _ _ _ _ _ _ Hrun)
    as (_ & _ & [[-> _]|(token & c1 & c2 & info & Hin & _ & _ & Hactive & _ & Hpay & _)]).
  - vm_compute in Hrun. discriminate Hrun.
  - destruct Hin as [<-|[]]. exists info. split; [exact Hactive|exact Hpay].
Defined.

(** X18: [did_complete_funding_payment] books a payment on the arbitrage of
    the base token of its trading pair: the event is appended to the funding
    payments of that arbitrage, whose connectors, side and executors stay;
    the other arbitrages, the order of the tokens and the executors are as
    they were.  For the take-profit test of [stop_actions_proposal] the
    combined PnL of the arbitrage has grown by the amount of the payment. *)
Theorem did_complete_funding_payment_books
        (config : FundingRateArbitrage.FundingRateArbitrageConfig)
        (st : FundingRateArbitrage.State)
        (event : FundingRateArbitrage.FundingPaymentCompletedEvent)
        (info : FundingRateArbitrage.FundingArbitrageInfo) :
  FundingRateArbitrage.assoc (FundingRateArbitrage.active_funding_arbitrages st)
    (base (FundingRateArbitrage.payment_trading_pair event)) = Ok info ->
  exists info',
    FundingRateArbitrage.assoc
      (FundingRateArbitrage.active_funding_arbitrages
         (FundingRateArbitrage.did_complete_funding_payment st event))
      (base (FundingRateArbitrage.payment_trading_pair event)) = Ok info'
    /\ FundingRateArbitrage.funding_payments info'
       = FundingRateArbitrage.funding_payments info ++ [event]
    /\ FundingRateArbitrage.connector_1 info' = FundingRateArbitrage.connector_1 info
    /\ FundingRateArbitrage.connector_2 info' = FundingRateArbitrage.connector_2 info
    /\ FundingRateArbitrage.side info' = FundingRateArbitrage.side info
    /\ FundingRateArbitrage.executors_of
         (FundingRateArbitrage.did_complete_funding_payment st event) info'
       = FundingRateArbitrage.executors_of st info
    /\ map fst (FundingRateArbitrage.active_funding_arbitrages
                  (FundingRateArbitrage.did_complete_funding_payment st event))
       = map fst (FundingRateArbitrage.active_funding_arbitrages st)
    /\ (forall t, t <> base (FundingRateArbitrage.payment_trading_pair event) ->
          FundingRateArbitrage.assoc
            (FundingRateArbitrage.active_funding_arbitrages
               (FundingRateArbitrage.did_complete_funding_payment st event)) t
          = FundingRateArbitrage.assoc (FundingRateArbitrage.active_funding_arbitrages st) t)
    /\ (FundingRateArbitrage.take_profit_condition config
          (FundingRateArbitrage.did_complete_funding_payment st event) info' = true
        <-> (FundingRateArbitrage.profitability_to_take_profit config
             * FundingRateArbitrage.position_size_quote config
             < sum (map FundingRateArbitrage.net_pnl_quote
                        (FundingRateArbitrage.executors_of st info))
               + sum (map FundingRateArbitrage.amount
                          (FundingRateArbitrage.funding_payments info))
               + FundingRateArbitrage.amount event)%Q).
Proof.
  intros Hinfo. unfold FundingRateArbitrage.did_complete_funding_payment.
  set (token := base (FundingRateArbitrage.payment_trading_pair event)) in *.
  rewrite Hinfo.
  cbn [FundingRateArbitrage.set_active FundingRateArbitrage.active_funding_arbitrages].
  eexists. split; [rewrite assoc_setitem, String.eqb_refl; reflexivity|].
  cbn [FundingRateArbitrage.funding_payments FundingRateArbitrage.connector_1
       FundingRateArbitrage.connector_2 FundingRateArbitrage.side].
  split; [reflexivity|]. split; [reflexivity|]. split; [reflexivity|].
  split; [reflexivity|]. split; [reflexivity|].
  split; [apply setitem_keys, (assoc_has_key _ _ _ Hinfo)|].
  split.
  - intros t Ht. rewrite assoc_setitem.
    destruct (String.eqb_spec token t); [congruence|reflexivity].
  - unfold FundingRateArbitrage.take_profit_condition. rewrite Qlt_bool_iff.
    cbn [FundingRateArbitrage.funding_payments].
    change (FundingRateArbitrage.executors_of _ _)
      with (FundingRateArbitrage.executors_of st info).
    assert (Hsum : (sum (map FundingRateArbitrage.amount
                           (FundingRateArbitrage.funding_payments info ++ [event]))
                    == sum (map FundingRateArbitrage.amount
                              (FundingRateArbitrage.funding_payments info))
                       + FundingRateArbitrage.amount event)%Q).
    { induction (FundingRateArbitrage.funding_payments info) as [|x l IH].
      - cbn [app map]. rewrite sum_cons. unfold sum. cbn [fold_left map]. lra.
      - cbn [app map]. rewrite !sum_cons, IH. lra. }
    rewrite Hsum. split; intros H; lra.
Qed.

Lemma did_complete_funding_payment_books_witness :
  exists info',
    FundingRateArbitrage.assoc
      (FundingRateArbitrage.active_funding_arbitrages
         (FundingRateArbitrage.did_complete_funding_payment (Inputs.open_state 0)
            Inputs.wif_payment)) "WIF" = Ok info'
    /\ length (FundingRateArbitrage.funding_payments info') = 2%nat.
Proof.
  destruct (did_complete_funding_payment_books Inputs.fra_config (Inputs.open_state 0)
              Inputs.wif_payment (Inputs.wif_arbitrage 0) eq_refl)
    as (info' & Hinfo & Hpay & _).
  exists info'. split; [exact Hinfo|]. rewrite Hpay. reflexivity.
Defined.

(** ** Funding-rate arbitrage: the orientation of the best pair *)

Lemma precedes_or {A} (l : list A) (a b : A) :
  In a l -> In b l -> a <> b ->
  FundingRateArbitrage.precedes l a b \/ FundingRateArbitrage.precedes l b a.
Proof.
  intros Ha Hb Hne. apply in_split in Ha as (l1 & l2 & ->).
  apply in_app_iff in Hb as [Hb|[Hb|Hb]]; [|congruence|].
  - right. apply in_split in Hb as (m1 & m2 & ->).
    exists m1, m2, l2. rewrite <- app_assoc. reflexivity.
  - left. apply in_split in Hb as (m1 & m2 & ->). exists l1, m1, m2. reflexivity.
Qed.

Lemma precedes_prefix {A} (done rest : list A) (a b : A) :
  NoDup (done ++ b :: rest) ->
  FundingRateArbitrage.precedes (done ++ b :: rest) a b -> In a done.
Proof.
  intros Hnd (l1 & l2 & l3 & Heq).
  assert (Hsplit : done ++ b :: rest = (l1 ++ a :: l2) ++ b :: l3)
    by (rewrite Heq, <- app_assoc; reflexivity).
  assert (Hnotin : ~ In b done).
  { apply NoDup_app in Hnd as (_ & Hdisj & _). intros Hin.
    apply (Hdisj b); [apply list_elem_of_In, Hin|]. apply list_elem_of_In. left. reflexivity. }
  assert (Hnotin' : ~ In b (l1 ++ a :: l2)).
  { rewrite Hsplit in Hnd. apply NoDup_app in Hnd as (_ & Hdisj & _). intros Hin.
    apply (Hdisj b); [apply list_elem_of_In, Hin|]. apply list_elem_of_In. left. reflexivity. }
  clear Heq Hnd. revert l1 Hsplit Hnotin'.
  induction done as [|x done IH]; intros l1 Hsplit Hnotin'.
  - destruct l1 as [|y l1]; cbn [app] in Hsplit; injection Hsplit as Hhead _;
      exfalso; apply Hnotin'; subst.
    + left. reflexivity.
    + left. reflexivity.
  - destruct l1 as [|y l1]; cbn [app] in Hsplit; injection Hsplit as -> Htail.
    + left. reflexivity.
    + right. apply (IH (fun H => Hnotin (or_intror H)) l1 Htail).
      intros H. apply Hnotin'. right. exact H.
Qed.

Section OrientationFacts.
Import FundingRateArbitrage.

Variable report : list (string * FundingInfo).

Local Abbreviation keys := (map fst report).
Local Abbreviation normalized := (get_normalized_funding_rate_in_seconds report).

Lemma funding_rate_diff_sym (r1 r2 : Q) :
  funding_rate_diff_of r1 r2 = funding_rate_diff_of r2 r1.
Proof. unfold funding_rate_diff_of. rewrite Qabs_Qminus. reflexivity. Qed.

Lemma selection_state_bound (P : string -> string -> Prop) acc :
  selection_state report P acc ->
  forall a b ra rb, P a b -> a <> b ->
    normalized a = Ok ra -> normalized b = Ok rb ->
    (funding_rate_diff_of ra rb <= snd acc)%Q.
Proof.
  intros [Hbest Hhigh]. rewrite Hhigh. unfold best_among in Hbest.
  destruct (fst acc) as [[[[b1 b2] side] d]|].
  - destruct Hbest as (_ & _ & _ & ? & ? & _ & _ & _ & _ & _ & _ & Hmax). exact Hmax.
  - intros a b ra rb Hab Hneq Ha Hb.
    rewrite (funding_rate_diff_equal ra rb); [lra|]. eapply Hbest; eassumption.
Qed.

Lemma consider_pair_oriented (P : string -> string -> Prop) acc acc' (c1 c2 : string) :
  In c1 keys -> In c2 keys ->
  selection_state report P acc -> oriented report acc ->
  (precedes keys c2 c1 -> P c2 c1) ->
  consider_pair report c1 acc c2 = Ok acc' ->
  oriented report acc'.
Proof.
  intros H1 H2 Hsel Hor Hseen H. destruct acc as [best high].
  unfold consider_pair in H. destruct (String.eqb_spec c1 c2) as [Heq|Hne]; cbn [negb] in H.
  { injection H as <-. exact Hor. }
  inv_bind H. rename a into r1. inv_bind H. rename a into r2.
  fold (funding_rate_diff_of r1 r2) in H.
  destruct (Qlt_bool high (funding_rate_diff_of r1 r2)) eqn:Elt.
  - injection H as <-. unfold oriented. cbn [fst].
    destruct (precedes_or keys c1 c2 H1 H2 Hne) as [Hb|Hb]; [exact Hb|].
    exfalso. apply Qlt_bool_iff in Elt.
    pose proof (selection_state_bound P _ Hsel c2 c1 r2 r1 (Hseen Hb)
                  ltac:(congruence) E0 E) as Hle.
    cbn [snd] in Hle. rewrite funding_rate_diff_sym in Hle. lra.
  - injection H as <-. exact Hor.
Qed.

Lemma inner_loop_oriented (c1 : string) (l : list string) :
  In c1 keys -> (forall c, In c l -> In c keys) ->
  forall (P : string -> string -> Prop) acc acc',
    selection_state report P acc -> oriented report acc ->
    (forall c2, precedes keys c2 c1 -> P c2 c1) ->
    foldM (consider_pair report c1) l acc = Ok acc' ->
    oriented report acc'.
Proof.
  intros H1. induction l as [|c2 l IH]; intros Hl P acc acc' Hsel Hor Hseen H.
  - injection H as <-. exact Hor.
  - cbn [foldM] in H. inv_bind H. rename a into acc1.
    destruct (consider_pair_state report P acc c1 c2 H1 (Hl c2 (or_introl eq_refl)) Hsel)
      as (acc1' & Hrun1 & Hsel1).
    assert (acc1' = acc1) by congruence. subst acc1'.
    apply (IH (fun c Hc => Hl c (or_intror Hc))
              (fun a b => P a b \/ (a = c1 /\ b = c2)) acc1 acc' Hsel1); [| |exact H].
    + eapply consider_pair_oriented; [exact H1|apply Hl; left; reflexivity|exact Hsel|
                                       exact Hor|apply Hseen|exact E].
    + intros c Hc. left. apply Hseen, Hc.
Qed.

Lemma outer_loop_oriented (l : list string) :
  forall (done : list string) (P : string -> string -> Prop) acc acc',
    keys = done ++ l -> NoDup keys ->
    selection_state report P acc -> oriented report acc ->
    (forall a b, In a done -> In b keys -> P a b) ->
    foldM (fun acc connector_1 => foldM (consider_pair report connector_1) keys acc) l acc
    = Ok acc' ->
    oriented report acc'.
Proof.
  induction l as [|c1 l IH]; intros done P acc acc' Hkeys Hnd Hsel Hor Hdone H.
  - injection H as <-. exact Hor.
  - cbn [foldM] in H. inv_bind H. rename a into acc1.
    assert (H1 : In c1 keys) by (rewrite Hkeys; apply in_app_iff; right; left; reflexivity).
    assert (Hseen : forall c2, precedes keys c2 c1 -> P c2 c1).
    { intros c2 Hb. apply Hdone; [|exact H1].
      rewrite Hkeys in Hb, Hnd. apply (precedes_prefix done l c2 c1 Hnd Hb). }
    destruct (inner_loop_state report c1 keys H1 (fun c Hc => Hc) P acc Hsel)
      as (acc1' & Hrun1 & Hsel1).
    assert (acc1' = acc1) by congruence. subst acc1'.
    apply (IH (done ++ [c1]) (fun a b => P a b \/ (a = c1 /\ In b keys)) acc1 acc');
      [| |exact Hsel1| | |exact H].
    + rewrite <- app_assoc. exact Hkeys.
    + exact Hnd.
    + eapply inner_loop_oriented; [exact H1|intros c Hc; exact Hc|exact Hsel|exact Hor|
                                   exact Hseen|exact E].
    + intros a b [Ha|[<-|[]]]%in_app_iff Hb; [left; apply Hdone; assumption|].
      right. split; [reflexivity|exact Hb].
Qed.

End OrientationFacts.

(** X19: the pair [get_most_profitable_combination] returns is in the order
    of the report: its first connector comes before its second.  Of the two
    orders of a pair of connectors the loops meet the one in report order
    first, and the reversed one, of the same difference, never replaces it. *)
Theorem get_most_profitable_combination_oriented
        (report : list (string * FundingRateArbitrage.FundingInfo))
        (connector_1 connector_2 : string) (trade_side : TradeType) (diff : Q) :
  NoDup (map fst report) ->
  FundingRateArbitrage.get_most_profitable_combination report
  = Ok (Some (connector_1, connector_2, trade_side, diff)) ->
  FundingRateArbitrage.precedes (map fst report) connector_1 connector_2.
Proof.
  intros Hnd H. unfold FundingRateArbitrage.get_most_profitable_combination in H.
  cbv zeta in H. inv_bind H. injection H as H.
  pose proof (outer_loop_oriented report (map fst report) [] (fun _ _ => False)
                (None, 0%Q) a eq_refl Hnd) as Hor.
  unfold FundingRateArbitrage.oriented in Hor at 2. rewrite H in Hor. apply Hor.
  - split; [|reflexivity]. intros ? ? ? ? [].
  - exact I.
  - intros ? ? [].
  - exact E.
Qed.

Lemma get_most_profitable_combination_oriented_witness :
  exists side diff,
    FundingRateArbitrage.get_most_profitable_combination Inputs.three_venues
    = Ok (Some ("v1", "v2", side, diff))
    /\ FundingRateArbitrage.precedes (map fst Inputs.three_venues) "v1" "v2".
Proof.
  destruct (FundingRateArbitrage.get_most_profitable_combination Inputs.three_venues)
    as [[[[[c1 c2] side] diff]|]|e] eqn:Hrun;
    try (vm_compute in Hrun; discriminate Hrun).
  assert (Hnd : NoDup (map fst Inputs.three_venues)).
  { cbn. repeat constructor; rewrite ?elem_of_cons, ?elem_of_nil; intuition discriminate. }
  pose proof (get_most_profitable_combination_oriented _ c1 c2 side diff Hnd Hrun) as Hor.
  pose proof Hrun as Hc. vm_compute in Hc. injection Hc as Hc1 Hc2 _ _.
  subst c1 c2. exists side, diff. split; [reflexivity|exact Hor].
Defined.

(** ** Funding-rate arbitrage: the exit rule *)

Lemma venue_pair (token venue : string) :
  FundingRateArbitrage.get_trading_pair_for_connector token venue
  = (token, FundingRateArbitrage.venue_quote venue).
Proof.
  unfold FundingRateArbitrage.get_trading_pair_for_connector,
    FundingRateArbitrage.venue_quote, FundingRateArbitrage.quote_markets_map.
  destruct (String.eqb_spec venue "hyperliquid_perpetual") as [->|Hh].
  - rewrite lookup_insert_eq. reflexivity.
  - rewrite lookup_insert_ne by congruence.
    destruct (decide (venue = "binance_perpetual")) as [->|Hb].
    + rewrite lookup_singleton_eq. reflexivity.
    + rewrite lookup_singleton_ne by congruence. reflexivity.
Qed.

Lemma venue_interval (venue : string) :
  inject_Z (default (60 * 60 * 8)
              (FundingRateArbitrage.funding_payment_interval_map !! venue))
  = FundingRateArbitrage.funding_interval venue.
Proof.
  unfold FundingRateArbitrage.funding_interval,
    FundingRateArbitrage.funding_payment_interval_map.
  destruct (String.eqb_spec venue "hyperliquid_perpetual") as [->|Hh].
  - rewrite lookup_insert_ne by discriminate. rewrite lookup_singleton_eq. reflexivity.
  - destruct (decide (venue = "binance_perpetual")) as [->|Hb].
    + rewrite lookup_insert_eq. reflexivity.
    + rewrite lookup_insert_ne by congruence.
      rewrite lookup_singleton_ne by congruence. reflexivity.
Qed.

Section ExitFacts.
Import FundingRateArbitrage.

Variable config : FundingRateArbitrageConfig.
Variable connectors : list (string * Connector).
Variable st : State.

Hypothesis distinct_connectors : NoDup (map fst connectors).

Local Abbreviation report := (get_funding_info_by_token connectors).
Local Abbreviation take_profit := (FundingRateArbitrage.take_profit config st).
Local Abbreviation stop_loss := (FundingRateArbitrage.stop_loss config connectors).
Local Abbreviation exit_condition := (FundingRateArbitrage.exit_condition config connectors st).
Local Abbreviation known := (FundingRateArbitrage.known connectors).

(** [filter_executors] keeps the executors whose identifier is one of the
    arbitrage. *)
Lemma executors_of_spec (info : FundingArbitrageInfo) (e : ExecutorInfo) :
  In e (executors_of st info)
  <-> In e (all_executors st) /\ In (id e) (executors_ids info).
Proof.
  unfold executors_of. rewrite filter_In, existsb_exists. split.
  - intros [He (x & Hx & Heq)]. apply String.eqb_eq in Heq. subst x. auto.
  - intros [He Hid]. split; [exact He|]. exists (id e).
    split; [exact Hid|apply String.eqb_refl].
Qed.

Lemma executors_of_pnl (info : FundingArbitrageInfo) :
  (sum (map net_pnl_quote (executors_of st info)) == executors_pnl st info)%Q.
Proof.
  unfold executors_of, executors_pnl.
  induction (all_executors st) as [|x l IH]; cbn [List.filter map]; [reflexivity|].
  assert (Hx : existsb (String.eqb (id x)) (executors_ids info)
               = bool_decide (id x ∈ executors_ids info)).
  { destruct (existsb _ _) eqn:E.
    - apply existsb_exists in E as (y & Hy & Heq). apply String.eqb_eq in Heq. subst y.
      symmetry. apply bool_decide_eq_true. apply list_elem_of_In. exact Hy.
    - symmetry. apply bool_decide_eq_false. intros Hin. apply list_elem_of_In in Hin.
      assert (existsb (String.eqb (id x)) (executors_ids info) = true)
        by (apply existsb_exists; exists (id x); split; [exact Hin|apply String.eqb_refl]).
      congruence. }
  rewrite Hx. destruct (bool_decide _); cbn [map]; rewrite ?sum_cons, IH; lra.
Qed.

Lemma take_profit_condition_spec (info : FundingArbitrageInfo) :
  take_profit_condition config st info = true <-> take_profit info.
Proof.
  unfold take_profit_condition, FundingRateArbitrage.take_profit.
  rewrite Qlt_bool_iff, executors_of_pnl. reflexivity.
Qed.

(** The normalized rate of the code is the one of the specification. *)
Lemma normalized_spec (token venue : string) :
  In venue (map fst connectors) ->
  exists r,
    get_normalized_funding_rate_in_seconds (report token) venue = Ok r
    /\ normalized_rate connectors token venue r
    /\ forall r', normalized_rate connectors token venue r' -> (r' == r)%Q.
Proof.
  intros Hv. apply in_map_iff in Hv as ([v c] & Hfst & Hin). cbn [fst] in Hfst. subst v.
  rewrite (funding_report_entries token connectors distinct_connectors).
  unfold get_normalized_funding_rate_in_seconds.
  rewrite (assoc_In _ venue (get_funding_info c (get_trading_pair_for_connector token venue))).
  - rsimpl. rewrite venue_pair, venue_interval. eexists. split; [reflexivity|].
    split.
    + exists c. split; [exact Hin|reflexivity].
    + intros r' (c' & Hin' & Heq).
      pose proof (assoc_In connectors venue c distinct_connectors Hin) as H1.
      pose proof (assoc_In connectors venue c' distinct_connectors Hin') as H2.
      assert (c' = c) by congruence. subst c'. exact Heq.
  - rewrite map_map. cbn [fst]. exact distinct_connectors.
  - apply in_map_iff. exists (venue, c). split; [reflexivity|exact Hin].
Qed.

Lemma current_funding_condition_spec (token : string) (info : FundingArbitrageInfo) :
  known (token, info) ->
  exists b, current_funding_condition config connectors token info = Ok b
            /\ (b = true <-> stop_loss token info).
Proof.
  intros [H1 H2]. cbn [fst snd] in H1, H2.
  destruct (normalized_spec token _ H1) as (r1 & Hr1 & Hn1 & Hu1).
  destruct (normalized_spec token _ H2) as (r2 & Hr2 & Hn2 & Hu2).
  unfold current_funding_condition, FundingRateArbitrage.stop_loss,
    long_connector, short_connector. cbv zeta.
  change (inject_Z funding_profitability_interval) with 86400%Q.
  destruct (TradeType_eqb (side info) BUY); rewrite Hr1, Hr2; rsimpl;
    (eexists; split; [reflexivity|]); rewrite Qlt_bool_iff; split.
  - intros H. exists r2, r1. auto.
  - intros (rs & rl & Hs & Hl & H). rewrite <- (Hu2 _ Hs), <- (Hu1 _ Hl). exact H.
  - intros H. exists r1, r2. auto.
  - intros (rs & rl & Hs & Hl & H). rewrite <- (Hu1 _ Hs), <- (Hu2 _ Hl). exact H.
Qed.

(** One iteration of [stop_actions_proposal]. *)
Lemma stop_arbitrage_effect stopped actions token info history :
  known (token, info) ->
  stopped !! token = Some history ->
  (exit_condition (token, info)
   /\ stop_arbitrage config connectors st (stopped, actions) (token, info)
      = Ok (<[token := history ++ [info]]> stopped,
            actions ++ map (fun e => StopExecutorAction (id e)) (executors_of st info)))
  \/ (~ exit_condition (token, info)
      /\ stop_arbitrage config connectors st (stopped, actions) (token, info)
         = Ok (stopped, actions)).
Proof.
  intros Hk Hh. unfold stop_arbitrage. cbv zeta.
  destruct (current_funding_condition_spec token info Hk) as (sl & -> & Hsl). rsimpl.
  unfold getitem. rewrite Hh. rsimpl.
  unfold FundingRateArbitrage.exit_condition. cbn [fst snd].
  destruct (take_profit_condition config st info) eqn:Etp.
  - left. split; [|reflexivity]. left. apply take_profit_condition_spec. exact Etp.
  - assert (Hntp : ~ take_profit info).
    { intros H. apply take_profit_condition_spec in H. congruence. }
    destruct sl.
    + left. split; [|reflexivity]. right. apply Hsl. reflexivity.
    + right. split; [|reflexivity]. intros [H|H]; [contradiction|].
      apply Hsl in H. discriminate.
Qed.

Lemma stop_fold (l : list (string * FundingArbitrageInfo)) :
  forall stopped actions,
    NoDup (map fst l) ->
    (forall item, In item l -> known item /\ is_Some (stopped !! fst item)) ->
    exists stopped' new,
      foldM (stop_arbitrage config connectors st) l (stopped, actions)
      = Ok (stopped', actions ++ new)
      /\ (forall a, In a new <->
            exists token info e,
              In (token, info) l /\ exit_condition (token, info)
              /\ In e (executors_of st info) /\ a = StopExecutorAction (id e))
      /\ (forall token, ~ In token (map fst l) -> stopped' !! token = stopped !! token)
      /\ (forall token info history,
            In (token, info) l -> stopped !! token = Some history ->
            (exit_condition (token, info) ->
               stopped' !! token = Some (history ++ [info]))
            /\ (~ exit_condition (token, info) -> stopped' !! token = Some history)).
Proof.
  induction l as [|[token0 info0] l IH]; intros stopped actions Hnd Hok.
  - exists stopped, []. rewrite app_nil_r. split; [reflexivity|].
    split; [|split; [auto|intros ? ? ? []]].
    intros a. split; [intros []|intros (? & ? & ? & [] & _)].
  - inversion Hnd as [|? ? Hnotin Hnd']; subst. rewrite list_elem_of_In in Hnotin.
    destruct (Hok _ (or_introl eq_refl)) as [Hk0 [history0 Hh0]]. cbn [fst] in Hh0.
    assert (Hother : forall stopped1 : gmap string (list FundingArbitrageInfo),
               (forall token, token <> token0 -> stopped1 !! token = stopped !! token) ->
               forall item, In item l -> known item /\ is_Some (stopped1 !! fst item)).
    { intros stopped1 H1 item Hitem. destruct (Hok item (or_intror Hitem)) as [Hk Hs].
      split; [exact Hk|]. rewrite H1; [exact Hs|].
      intros Heq. apply Hnotin. rewrite <- Heq. apply in_map. exact Hitem. }
    assert (Hfresh : forall info, In (token0, info) l -> False).
    { intros info Hin. apply Hnotin. apply (in_map fst _ _ Hin). }
    destruct (stop_arbitrage_effect stopped actions token0 info0 history0 Hk0 Hh0)
      as [[Hexit Hrun]|[Hexit Hrun]].
    + destruct (IH (<[token0 := history0 ++ [info0]]> stopped)
                  (actions ++ map (fun e => StopExecutorAction (id e)) (executors_of st info0))
                  Hnd') as (stopped' & new & Hrun' & Hacts & Hout & Hin).
      { apply Hother. intros token Hne. apply lookup_insert_ne. congruence. }
      exists stopped', (map (fun e => StopExecutorAction (id e)) (executors_of st info0) ++ new).
      split; [cbn [foldM]; rewrite Hrun; rsimpl; rewrite Hrun', app_assoc; reflexivity|].
      split.
      { intros a. rewrite in_app_iff, in_map_iff, Hacts. split.
        - intros [(e & <- & He)|(token & info & e & Hitem & Hrest)].
          + exists token0, info0, e. split; [left; reflexivity|]. auto.
          + exists token, info, e. split; [right; exact Hitem|exact Hrest].
        - intros (token & info & e & [[= <- <-]|Hitem] & Hx & He & ->).
          + left. exists e. auto.
          + right. exists token, info, e. auto. }
      split.
      { intros token Hn. cbn [map fst In] in Hn.
        rewrite Hout by tauto. apply lookup_insert_ne. intros ->. tauto. }
      intros token info history [[= <- <-]|Hitem] Hh.
      * rewrite Hh0 in Hh. injection Hh as <-.
        rewrite (Hout token0 Hnotin), lookup_insert_eq. split; [reflexivity|contradiction].
      * apply (Hin token info history Hitem).
        rewrite lookup_insert_ne; [exact Hh|].
        intros ->. apply Hnotin. apply (in_map fst _ _ Hitem).
    + destruct (IH stopped actions Hnd') as (stopped' & new & Hrun' & Hacts & Hout & Hin).
      { apply Hother. reflexivity. }
      exists stopped', new.
      split; [cbn [foldM]; rewrite Hrun; rsimpl; exact Hrun'|].
      split.
      { intros a. rewrite Hacts. split.
        - intros (token & info & e & Hitem & Hrest).
          exists token, info, e. split; [right; exact Hitem|exact Hrest].
        - intros (token & info & e & [[= <- <-]|Hitem] & Hx & He & ->);
            [contradiction|].
          exists token, info, e. auto. }
      split.
      { intros token Hn. cbn [map fst In] in Hn. apply Hout. tauto. }
      intros token info history [[= <- <-]|Hitem] Hh.
      * rewrite (Hout token0 Hnotin), Hh. split; [contradiction|reflexivity].
      * apply (Hin token info history Hitem Hh).
Qed.

End ExitFacts.

(** C6: for active arbitrages of distinct tokens between connectors of the
    strategy, [stop_actions_proposal] returns a stop action for an executor
    exactly when the identifier of the executor is one of the pair of an
    arbitrage for which the take-profit condition
    [sum(executor.net_pnl_quote) + sum(funding_payments.amount)
     > profitability_to_take_profit * position_size_quote],
    summed over the executors of that pair, or the stop-loss condition
    [(normalized(short) - normalized(long)) * 86400 < funding_rate_diff_stop_loss],
    with [normalized(venue) = rate(venue) / funding_interval(venue)], holds;
    and it appends exactly these arbitrages to the stopped history of their
    token. *)
Theorem stop_actions_proposal_rule
        (config : FundingRateArbitrage.FundingRateArbitrageConfig)
        (connectors : list (string * FundingRateArbitrage.Connector))
        (st : FundingRateArbitrage.State) :
  NoDup (map fst connectors) ->
  NoDup (map fst (FundingRateArbitrage.active_funding_arbitrages st)) ->
  (forall item, In item (FundingRateArbitrage.active_funding_arbitrages st) ->
     FundingRateArbitrage.known connectors item
     /\ is_Some (FundingRateArbitrage.stopped_funding_arbitrages st !! fst item)) ->
  exists st' actions,
    FundingRateArbitrage.stop_actions_proposal config connectors st = Ok (st', actions)
    /\ (forall action, In action actions <->
          exists token info executor,
            In (token, info) (FundingRateArbitrage.active_funding_arbitrages st)
            /\ FundingRateArbitrage.exit_condition config connectors st (token, info)
            /\ In executor (FundingRateArbitrage.all_executors st)
            /\ In (FundingRateArbitrage.id executor)
                  (FundingRateArbitrage.executors_ids info)
            /\ action
               = FundingRateArbitrage.StopExecutorAction (FundingRateArbitrage.id executor))
    /\ forall token info history,
         In (token, info) (FundingRateArbitrage.active_funding_arbitrages st) ->
         FundingRateArbitrage.stopped_funding_arbitrages st !! token = Some history ->
         (FundingRateArbitrage.exit_condition config connectors st (token, info) ->
            FundingRateArbitrage.stopped_funding_arbitrages st' !! token
            = Some (history ++ [info]))
         /\ (~ FundingRateArbitrage.exit_condition config connectors st (token, info) ->
               FundingRateArbitrage.stopped_funding_arbitrages st' !! token = Some history).
Proof.
  intros Hconn Hnd Hok.
  destruct (stop_fold config connectors st Hconn _
              (FundingRateArbitrage.stopped_funding_arbitrages st) [] Hnd Hok)
    as (stopped' & actions & Hrun & Hacts & _ & Hin).
  exists (FundingRateArbitrage.set_stopped st stopped'), actions. split.
  { unfold FundingRateArbitrage.stop_actions_proposal. rewrite Hrun. reflexivity. }
  split; [|exact Hin].
  intros action. rewrite Hacts. split.
  - intros (token & info & e & Hitem & Hexit & He & ->).
    apply executors_of_spec in He as [He Hid]. exists token, info, e. auto.
  - intros (token & info & e & Hitem & Hexit & He & Hid & ->).
    exists token, info, e. repeat (split; [assumption|]).
    split; [apply executors_of_spec; auto|reflexivity].
Qed.

Lemma venues_distinct : NoDup (map fst Inputs.venues).
Proof.
  cbn. repeat constructor; rewrite ?elem_of_cons, ?elem_of_nil; intuition discriminate.
Qed.

Lemma open_state_known (payment : Q) item :
  In item (FundingRateArbitrage.active_funding_arbitrages (Inputs.open_state payment)) ->
  FundingRateArbitrage.known Inputs.venues item
  /\ is_Some (FundingRateArbitrage.stopped_funding_arbitrages (Inputs.open_state payment)
              !! fst item).
Proof.
  intros [<-|[]]. split.
  - split; cbn; tauto.
  - exists []. vm_compute. reflexivity.
Qed.

Lemma open_state_distinct (payment : Q) :
  NoDup (map fst (FundingRateArbitrage.active_funding_arbitrages (Inputs.open_state payment))).
Proof. cbn. repeat constructor. rewrite elem_of_nil. tauto. Qed.

(** With [position_size_quote = 100] and [profitability_to_take_profit = 0.01]
    a combined PnL of 1.01, of the two executors of the arbitrage and its
    funding payment, closes the arbitrage: its two executors are stopped, the
    third executor, which is none of the pair, is not. *)
Lemma stop_actions_proposal_rule_witness :
  NoDup (map fst Inputs.venues)
  /\ NoDup (map fst (FundingRateArbitrage.active_funding_arbitrages
                       (Inputs.open_state (1 # 100))))
  /\ (FundingRateArbitrage.executors_pnl (Inputs.open_state (1 # 100))
        (Inputs.wif_arbitrage (1 # 100)) == 1)%Q
  /\ FundingRateArbitrage.take_profit Inputs.fra_config (Inputs.open_state (1 # 100))
       (Inputs.wif_arbitrage (1 # 100))
  /\ exists st' actions,
       FundingRateArbitrage.stop_actions_proposal Inputs.fra_config Inputs.venues
         (Inputs.open_state (1 # 100)) = Ok (st', actions)
       /\ In (FundingRateArbitrage.StopExecutorAction "e1") actions
       /\ In (FundingRateArbitrage.StopExecutorAction "e2") actions
       /\ ~ In (FundingRateArbitrage.StopExecutorAction "e3") actions
       /\ FundingRateArbitrage.stopped_funding_arbitrages st' !! "WIF"
          = Some ([] ++ [Inputs.wif_arbitrage (1 # 100)]).
Proof.
  assert (Htp : FundingRateArbitrage.take_profit Inputs.fra_config
                  (Inputs.open_state (1 # 100)) (Inputs.wif_arbitrage (1 # 100))).
  { vm_compute. reflexivity. }
  split; [exact venues_distinct|]. split; [apply open_state_distinct|].
  split; [vm_compute; reflexivity|]. split; [exact Htp|].
  destruct (stop_actions_proposal_rule Inputs.fra_config Inputs.venues
              (Inputs.open_state (1 # 100)) venues_distinct
              (open_state_distinct _) (open_state_known _))
    as (st' & actions & Hrun & Hacts & Hrule).
  exists st', actions. split; [exact Hrun|].
  destruct (Hrule "WIF" (Inputs.wif_arbitrage (1 # 100)) [] (or_introl eq_refl))
    as [Hyes _]; [vm_compute; reflexivity|].
  split; [|split; [|split; [|exact (Hyes (or_introl Htp))]]].
  - apply Hacts. exists "WIF", (Inputs.wif_arbitrage (1 # 100)),
      {| FundingRateArbitrage.id := "e1"; FundingRateArbitrage.net_pnl_quote := (1 # 2)%Q |}.
    split; [left; reflexivity|]. split; [left; exact Htp|].
    split; [left; reflexivity|]. split; [left; reflexivity|reflexivity].
  - apply Hacts. exists "WIF", (Inputs.wif_arbitrage (1 # 100)),
      {| FundingRateArbitrage.id := "e2"; FundingRateArbitrage.net_pnl_quote := (1 # 2)%Q |}.
    split; [left; reflexivity|]. split; [left; exact Htp|].
    split; [right; left; reflexivity|]. split; [right; left; reflexivity|reflexivity].
  - intros H3. apply Hacts in H3 as (token & info & e & [[= <- <-]|[]] & _ & _ & Hid & Heq).
    injection Heq as Heq. rewrite <- Heq in Hid.
    cbn in Hid. destruct Hid as [Hid|[Hid|[]]]; discriminate.
Defined.

(** With a combined PnL of 0.99, and a funding diff above the stop loss, the
    arbitrage stays open: no stop action, nothing recorded. *)
Example stop_actions_proposal_below_take_profit :
  ~ FundingRateArbitrage.take_profit Inputs.fra_config (Inputs.open_state (- (1 # 100)))
      (Inputs.wif_arbitrage (- (1 # 100)))
  /\ exists st',
       FundingRateArbitrage.stop_actions_proposal Inputs.fra_config Inputs.venues
         (Inputs.open_state (- (1 # 100))) = Ok (st', [])
       /\ FundingRateArbitrage.stopped_funding_arbitrages st' !! "WIF" = Some [].
Proof.
  split.
  - vm_compute. discriminate.
  - eexists. split; vm_compute; reflexivity.
Qed.

(** With a combined PnL of 0.99 and a signed funding diff of -0.002 per
    day, below the stop loss of -0.001, the arbitrage is closed as well. *)
Example stop_actions_proposal_stop_loss :
  FundingRateArbitrage.stop_loss Inputs.fra_config Inputs.reversed_venues "WIF"
    (Inputs.wif_arbitrage (- (1 # 100)))
  /\ exists st',
       FundingRateArbitrage.stop_actions_proposal Inputs.fra_config Inputs.reversed_venues
         (Inputs.open_state (- (1 # 100)))
       = Ok (st', [FundingRateArbitrage.StopExecutorAction "e1";
                   FundingRateArbitrage.StopExecutorAction "e2"])
       /\ FundingRateArbitrage.stopped_funding_arbitrages st' !! "WIF"
          = Some [Inputs.wif_arbitrage (- (1 # 100))].
Proof.
  split.
  - exists (0 / 3600)%Q, ((2 # 3000) / 28800)%Q. split; [|split].
    + exists (Inputs.venue 0%Q). split; [right; left; reflexivity|reflexivity].
    + exists (Inputs.venue (2 # 3000)%Q). split; [left; reflexivity|reflexivity].
    + vm_compute. reflexivity.
  - eexists. split; vm_compute; reflexivity.
Qed.
